(** * Repository locks of restic: a shallow embedding of internal/restic/lock.go

    The Go code is written against the repository interface
    [Unpacked[FileType]] and against the operating system (clock, host name,
    current user, process table).  Every function of lock.go is embedded as a
    computation in a reader/state monad: the reader part, [Env], holds what
    the process cannot influence (the operating system's answers, the store's
    faults, what other clients do while this process sleeps, the order in
    which the workers of a parallel listing finish), the state part,
    [World], holds the lock objects of the store, the clock and a log of the
    store operations and sleeps performed. *)

From stdpp Require Import base gmap sets list strings.
From Stdlib Require Import ZArith Lia.

Local Open Scope Z_scope.

(** ** Data *)

(** [restic.ID] is a 32-byte hash; it is kept as the number it encodes. *)
Definition ID := N.

(** [restic.IDSet], a set of ids. *)
Abbreviation IDSet := (gset N).

(** [time.Duration]: a signed 64-bit count of nanoseconds. *)
Definition minDuration : Z := - 2 ^ 63.
Definition maxDuration : Z := 2 ^ 63 - 1.

Definition Millisecond : Z := 1000000.
Definition Second : Z := 1000 * Millisecond.
Definition Minute : Z := 60 * Second.

(** Signed 64-bit wrap-around, as Go's [int64] arithmetic has it. *)
Definition wrap64 (x : Z) : Z := (x + 2 ^ 63) mod 2 ^ 64 - 2 ^ 63.

(** [time.Time.Sub] saturates instead of wrapping. *)
Definition saturate (x : Z) : Z :=
  if x <? minDuration then minDuration
  else if maxDuration <? x then maxDuration
  else x.

(** The struct [Lock].  [Time] is an instant in nanoseconds; the mutex and the
    repository handle carry no data of their own: the repository is the store
    of the [World].  [lockID] is the pointer [*ID], nil being [None]. *)
Record Lock := mkLock {
  Time : Z;
  Exclusive : bool;
  Hostname : string;
  Username : string;
  PID : Z;
  UID : Z;
  GID : Z;
  lockID : option ID
}.

Definition set_Time (t : Z) (l : Lock) : Lock :=
  mkLock t (Exclusive l) (Hostname l) (Username l) (PID l) (UID l) (GID l) (lockID l).
Definition set_Hostname (h : string) (l : Lock) : Lock :=
  mkLock (Time l) (Exclusive l) h (Username l) (PID l) (UID l) (GID l) (lockID l).
Definition set_Username (u : string) (l : Lock) : Lock :=
  mkLock (Time l) (Exclusive l) (Hostname l) u (PID l) (UID l) (GID l) (lockID l).
Definition set_UID_GID (u g : Z) (l : Lock) : Lock :=
  mkLock (Time l) (Exclusive l) (Hostname l) (Username l) (PID l) u g (lockID l).
Definition set_lockID (i : option ID) (l : Lock) : Lock :=
  mkLock (Time l) (Exclusive l) (Hostname l) (Username l) (PID l) (UID l) (GID l) i.

(** What the JSON encoding keeps of a lock: the exported fields. *)
Definition descriptor (l : Lock) : Lock := set_lockID None l.

(** Errors.  [alreadyLockedError] and [invalidLockError] are the two error
    types of lock.go, [ErrRemovedLock] its sentinel; [ErrInvalidData] is the
    sentinel of the repository, [ContextCanceled] is [ctx.Err()], [Wrapped]
    an error wrapping another one, [Other] any further error value.
    [nilDereference] is no error value but the run-time panic of following a
    nil pointer, which unwinds through the callers as an error would. *)
Inductive error :=
| alreadyLockedError (otherLock : Lock)
| invalidLockError (err : error)
| ErrRemovedLock
| ErrInvalidData
| ContextCanceled
| Wrapped (msg : string) (err : error)
| Other (msg : string)
| nilDereference.

(** Go's pair (value, error) with exactly one side set. *)
Inductive result (A : Type) :=
| Ok (a : A)
| Err (e : error).
Arguments Ok {A} a.
Arguments Err {A} e.

(** [errors.Is(err, ErrInvalidData)]: follows the [Unwrap] chain. *)
Fixpoint Is_ErrInvalidData (e : error) : bool :=
  match e with
  | ErrInvalidData => true
  | invalidLockError e' => Is_ErrInvalidData e'
  | Wrapped _ e' => Is_ErrInvalidData e'
  | _ => false
  end.

(** The type assertion of [err] to a pointer to [alreadyLockedError]: no
    unwrapping. *)
Definition is_alreadyLockedError (e : error) : bool :=
  match e with
  | alreadyLockedError _ => true
  | _ => false
  end.

(** [IsAlreadyLocked], [IsInvalidLock]: [errors.As] follows the chain. *)
Fixpoint IsAlreadyLocked (e : error) : bool :=
  match e with
  | alreadyLockedError _ => true
  | invalidLockError e' => IsAlreadyLocked e'
  | Wrapped _ e' => IsAlreadyLocked e'
  | _ => false
  end.

Fixpoint IsInvalidLock (e : error) : bool :=
  match e with
  | invalidLockError _ => true
  | Wrapped _ e' => IsInvalidLock e'
  | _ => false
  end.

(** ** The store, the clock and the log *)

(** A lock object of the store: the size the listing reports and what
    decoding its bytes gives ([None]: the bytes are no lock). *)
Record Obj := mkObj {
  osize : Z;
  obody : option Lock
}.

Inductive Op :=
| OpList
| OpLoad (id : ID)
| OpSave (id : ID)
| OpRemove (id : ID).

Inductive Event :=
| EvList
| EvLoad (id : ID)
| EvSave (id : ID)
| EvRemove (id : ID)
| EvSleep (from d : Z)
| EvDelay (from d woke : Z).

Record World := mkWorld {
  files : list (ID * Obj);
  clock : Z;
  trace : list Event
}.

(** [user.User], the fields the code reads. *)
Record User := mkUser {
  usr_Username : string;
  usr_Uid : string;
  usr_Gid : string
}.

(** A [context.Context]: the instant its [Done] channel closes, if ever. *)
Record Ctx := mkCtx { done_at : option Z }.

Definition background : Ctx := mkCtx None.

Definition ctx_done (ctx : Ctx) (now : Z) : bool :=
  match done_at ctx with
  | Some c => c <=? now
  | None => false
  end.

(** What decides a parallel listing, where the callbacks of several workers
    are ready at once.  [connections] is [repo.Connections()], the number of
    workers; a repository cannot be opened with none.  [next_callback] says,
    from the log so far and the objects in the workers' hands (in the order
    of the listing), which of them has its callback run next (an index; one
    that is out of range stands for the first).  [straggler] says what
    becomes of an object once a callback has failed and the listing is being
    cancelled: no callback runs for it any more ([None]), its load had
    completed ([Some true]), or its load runs under the cancelled context
    ([Some false]). *)
Record Workers := mkWorkers {
  connections : positive;
  next_callback : list Event -> list (ID * Z) -> nat;
  straggler : list Event -> ID -> option bool
}.

Record Env := mkEnv {
  (* the operating system *)
  os_hostname : result string;
  os_pid : Z;
  user_current : result User;
  (* [uidGidInt] of the platform file, which is not part of this source tree:
     the two numbers it returns and its error *)
  uidGidInt : User -> Z * Z * option error;
  (* the method [processExists] of [Lock], in the platform file *)
  processExists : Lock -> bool;
  (* the package variables, which TestSetLockTimeout overwrites *)
  waitBeforeLockCheck : Z;
  initialWaitBetweenLockRetries : Z;
  StaleLockTimeout : Z;
  (* the store: the id and the size it gives an encoded lock, the operations
     that fail at a given instant, and what the other clients do to the lock
     objects between two instants *)
  idOf : Lock -> ID;
  jsonSize : Lock -> Z;
  fault : Z -> Op -> option error;
  peers : Z -> Z -> list (ID * Obj) -> list (ID * Obj);
  (* which case a [select] takes when both are ready: [true] for ctx.Done *)
  select_done_first : bool;
  (* the workers of [ParallelList] and the order they finish in *)
  workers : Workers
}.

Definition UnlockCancelDelay : Z := 1 * Minute.

(** ** The monad *)

Definition M (A : Type) : Type := Env -> World -> A * World.

Definition ret {A} (a : A) : M A := fun _ w => (a, w).

Definition bind {A B} (c : M A) (k : A -> M B) : M B :=
  fun env w => let r := c env w in k r.1 env r.2.

Notation "x <~ c ;; k" := (bind c (fun x => k))
  (at level 100, c at next level, right associativity).
Notation "c ;;; k" := (bind c (fun _ => k))
  (at level 100, right associativity).

Definition ask {A} (f : Env -> A) : M A := fun env w => (f env, w).
Definition get {A} (f : World -> A) : M A := fun _ w => (f w, w).
Definition log (ev : Event) : M unit :=
  fun _ w => (tt, mkWorld (files w) (clock w) (trace w ++ [ev])).
Definition set_files (fs : list (ID * Obj)) : M unit :=
  fun _ w => (tt, mkWorld fs (clock w) (trace w)).

(** The clock moves from its value to [t]; meanwhile the other clients act. *)
Definition advance (t : Z) : M unit :=
  fun env w => (tt, mkWorld (peers env (clock w) t (files w)) t (trace w)).

(** ** Time *)

Definition time_Now : M Z := get clock.

(** [time.Sleep(d)]: returns after [d], at once when [d] is not positive;
    no context is involved. *)
Definition time_Sleep (d : Z) : M unit :=
  now <~ time_Now ;;
  log (EvSleep now d) ;;;
  if 0 <? d then advance (now + d) else ret tt.

(** [time.Since(t)]. *)
Definition time_Since (t : Z) : M Z :=
  now <~ time_Now ;;
  ret (saturate (now - t)).

(** [cancelableDelay]: a timer of [delay] and a select between [ctx.Done()]
    and the timer's channel. *)
Definition cancelableDelay (ctx : Ctx) (delay : Z) : M (option error) :=
  now <~ time_Now ;;
  tie <~ ask select_done_first ;;
  let fire := now + Z.max 0 delay in
  let interrupted :=
    match done_at ctx with
    | Some c => (c <? fire) || ((c =? fire) && tie)
    | None => false
    end in
  if interrupted then
    let woke := Z.max now (default now (done_at ctx)) in
    log (EvDelay now delay woke) ;;;
    (if now <? woke then advance woke else ret tt) ;;;
    ret (Some ContextCanceled)
  else
    log (EvDelay now delay fire) ;;;
    (if now <? fire then advance fire else ret tt) ;;;
    ret None.

(** [delayedCancelContext]: the new context descends from
    [context.Background()], so it is open when it is made.  Its goroutine
    waits until the parent is done, which it sees at once when the parent is
    done already, sleeps [delay] and cancels: the context is done [delay]
    after the later of the parent's cancellation and its own creation.  The
    deferred [cancel] of the caller runs when the caller has returned. *)
Definition delayedCancelContext (parentCtx : Ctx) (delay : Z) : M Ctx :=
  now <~ time_Now ;;
  ret (mkCtx (match done_at parentCtx with
              | Some c => Some (Z.max c now + Z.max 0 delay)
              | None => None
              end)).

(** ** The repository, as lock.go uses it *)

Definition lookup_file (id : ID) (fs : list (ID * Obj)) : option Obj :=
  snd <$> List.find (fun p => N.eqb p.1 id) fs.

Definition has_file (id : ID) (fs : list (ID * Obj)) : bool :=
  existsb (fun p => N.eqb p.1 id) fs.

Definition remove_file (id : ID) (fs : list (ID * Obj)) : list (ID * Obj) :=
  List.filter (fun p => negb (N.eqb p.1 id)) fs.

(** Modelled from the spec: the repository behind [Unpacked[FileType]] is not
    part of this source tree.  Every operation gives up with the context's
    error when the context is done, and otherwise fails when the store has a
    fault for it at that instant. *)
Definition backend_call (ctx : Ctx) (op : Op) : M (option error) :=
  now <~ time_Now ;;
  if ctx_done ctx now then ret (Some ContextCanceled)
  else
    f <~ ask fault ;;
    ret (f now op).

(** Modelled from the spec: [repo.List(ctx, LockFile, fn)], enumerate the ids
    with their sizes, zero-size objects included; the result is what the
    callback is called with, in this order, and the error returned. *)
Definition repo_List (ctx : Ctx) : M (list (ID * Z) * option error) :=
  log EvList ;;;
  e <~ backend_call ctx OpList ;;
  match e with
  | Some err => ret ([], Some err)
  | None =>
      fs <~ get files ;;
      ret (List.map (fun p => (p.1, osize p.2)) fs, None)
  end.

(** Modelled from the spec: [LoadJSONUnpacked(ctx, repo, LockFile, id, lock)],
    load and deserialize; malformed data is signalled by [ErrInvalidData]. *)
Definition LoadJSONUnpacked (ctx : Ctx) (id : ID) : M (result Lock) :=
  log (EvLoad id) ;;;
  e <~ backend_call ctx (OpLoad id) ;;
  match e with
  | Some err => ret (Err err)
  | None =>
      fs <~ get files ;;
      match lookup_file id fs with
      | None => ret (Err (Other "file does not exist"))
      | Some o =>
          match obody o with
          | Some l => ret (Ok l)
          | None => ret (Err ErrInvalidData)
          end
      end
  end.

(** Modelled from the spec: [SaveJSONUnpacked(ctx, repo, LockFile, l)], put a
    new object and return the id the store assigns to its content.  The id
    names the content: what an interrupted upload may have left under that id
    gives way to the object. *)
Definition SaveJSONUnpacked (ctx : Ctx) (l : Lock) : M (result ID) :=
  h <~ ask idOf ;;
  sz <~ ask jsonSize ;;
  let id := h (descriptor l) in
  log (EvSave id) ;;;
  e <~ backend_call ctx (OpSave id) ;;
  match e with
  | Some err => ret (Err err)
  | None =>
      fs <~ get files ;;
      set_files (remove_file id fs
                 ++ [(id, mkObj (sz (descriptor l)) (Some (descriptor l)))]) ;;;
      ret (Ok id)
  end.

(** Modelled from the spec: [repo.RemoveUnpacked(ctx, LockFile, id)],
    idempotent deletion; absence is not an error. *)
Definition RemoveUnpacked (ctx : Ctx) (id : ID) : M (option error) :=
  log (EvRemove id) ;;;
  e <~ backend_call ctx (OpRemove id) ;;
  match e with
  | Some err => ret (Some err)
  | None =>
      fs <~ get files ;;
      set_files (remove_file id fs) ;;;
      ret None
  end.

(** Modelled from the spec: the context of [ParallelList]'s calls once a
    callback has failed; it is done from that instant. *)
Definition cancelled (now : Z) : Ctx := mkCtx (Some now).

(** Modelled from the spec: the object whose callback runs next, and the
    objects that go on waiting.  The workers hold the first [n] of the
    waiting objects: each worker takes the next object of the listing when
    it is free. *)
Definition chosen (w : Workers) (tr : list Event) (n : nat) (waiting : list (ID * Z))
    : option ((ID * Z) * list (ID * Z)) :=
  let hands := take n waiting in
  let i := if (next_callback w tr hands <? length hands)%nat
           then next_callback w tr hands else 0%nat in
  match hands !! i with
  | Some item => Some (item, delete i waiting)
  | None => None
  end.

(** Modelled from the spec: the workers of
    [ParallelList(ctx, repo, LockFile, n, fn)], which is not part of this
    source tree.  [n] workers take the listed objects in the order of the
    listing and call [fn] on them; the callbacks of [ForAllLocks] are
    serialised by its mutex, so the calls are made one after the other, in
    the order the workers come to them.  A worker whose call returns an
    error ends.  The first error is the one returned, and it cancels the
    context of the calls; what the other workers still call returns is
    dropped, but the calls are made and change the callback's state.  Of two
    calls that fail, the one whose worker returns first gives the error: the
    model takes that call first.  [S] is the state the callback's closure
    updates, [first] the first error so far, and [fuel] bounds the number of
    calls by the number of objects. *)
Fixpoint ParallelList_run {S : Type} (fn : Ctx -> ID -> Z -> S -> M (option error * S))
    (ctx : Ctx) (fuel : nat) (n : nat) (waiting : list (ID * Z))
    (first : option error) (s : S) : M (option error * S) :=
  match fuel with
  | O => ret (first, s)
  | S fuel' =>
      tr <~ get trace ;;
      pick <~ ask (fun env => chosen (workers env) tr n waiting) ;;
      match pick with
      | None => ret (first, s)
      | Some (item, waiting) =>
          match first with
          | None =>
              r <~ fn ctx item.1 item.2 s ;;
              match r.1 with
              | None => ParallelList_run fn ctx fuel' n waiting None r.2
              | Some err => ParallelList_run fn ctx fuel' (n - 1) waiting (Some err) r.2
              end
          | Some _ =>
              late <~ ask (fun env => straggler (workers env) tr item.1) ;;
              match late with
              | None => ret (first, s)
              | Some loaded =>
                  now <~ time_Now ;;
                  r <~ fn (if loaded : bool then ctx else cancelled now) item.1 item.2 s ;;
                  ParallelList_run fn ctx fuel'
                    (match r.1 with Some _ => n - 1 | None => n end)%nat
                    waiting first r.2
              end
          end
      end
  end.

(** Modelled from the spec: the listing feeds the workers; an error of a
    callback is returned before an error of the listing. *)
Definition ParallelList {S : Type} (ctx : Ctx) (n : positive)
    (fn : Ctx -> ID -> Z -> S -> M (option error * S)) (s : S) : M (option error * S) :=
  ls <~ repo_List ctx ;;
  r <~ ParallelList_run fn ctx (length ls.1) (Pos.to_nat n) ls.1 None s ;;
  match r.1 with
  | Some err => ret (Some err, r.2)
  | None => ret (ls.2, r.2)
  end.

(** ** lock.go *)

(** [LoadLock]. *)
Definition LoadLock (ctx : Ctx) (id : ID) : M (result Lock) :=
  r <~ LoadJSONUnpacked ctx id ;;
  match r with
  | Err err => ret (Err err)
  | Ok lock => ret (Ok (set_lockID (Some id) lock))
  end.

(** [ForAllLocks]: the function it hands to [ParallelList]. *)
Definition ForAllLocks_item {S : Type} (ctx : Ctx) (excludeIDs : IDSet)
    (fn : ID -> result Lock -> S -> option error * S)
    (id : ID) (size : Z) (s : S) : M (option error * S) :=
  if bool_decide (id ∈ excludeIDs) then ret (None, s)
  else if size =? 0 then ret (None, s)
  else
    r <~ LoadLock ctx id ;;
    ret (fn id r s).

Definition ForAllLocks {S : Type} (ctx : Ctx) (excludeIDs : IDSet)
    (fn : ID -> result Lock -> S -> option error * S) (s : S)
    : M (option error * S) :=
  n <~ ask (fun env => connections (workers env)) ;;
  ParallelList ctx n (fun ctx => ForAllLocks_item ctx excludeIDs fn) s.

(** [fillUserInfo]. *)
Definition fillUserInfo (l : Lock) : M (Lock * option error) :=
  usr <~ ask user_current ;;
  match usr with
  | Err _ => ret (l, None)
  | Ok u =>
      let l := set_Username (usr_Username u) l in
      conv <~ ask uidGidInt ;;
      ret (set_UID_GID (conv u).1.1 (conv u).1.2 l, (conv u).2)
  end.

(** The callback of [checkForOtherLocks]; the closure's [newCheckedIDs] is
    the state. *)
Definition checkCallback (l : Lock) (id : ID) (r : result Lock)
    (newCheckedIDs : IDSet) : option error * IDSet :=
  match r with
  | Err err => (Some err, newCheckedIDs)
  | Ok lock =>
      if Exclusive l then (Some (alreadyLockedError lock), newCheckedIDs)
      else if negb (Exclusive l) && Exclusive lock
      then (Some (alreadyLockedError lock), newCheckedIDs)
      else (None, {[id]} ∪ newCheckedIDs)
  end.

(** What follows the loop of [checkForOtherLocks]. *)
Definition checkResult (err : option error) : option error :=
  match err with
  | Some e => if Is_ErrInvalidData e then Some (invalidLockError e) else Some e
  | None => None
  end.

(** The loop [for i := 0; i < 4; i++] of [checkForOtherLocks], entered at
    [i] with [n] iterations to go. *)
Fixpoint checkLoop (l : Lock) (ctx : Ctx) (n : nat) (i : nat) (delay : Z)
    (checkedIDs : IDSet) (err : option error) : M (option error) :=
  match n with
  | O => ret (checkResult err)
  | S n' =>
      slept <~ (if Nat.eqb i 0 then ret None else cancelableDelay ctx delay) ;;
      match slept with
      | Some e => ret (Some e)
      | None =>
          let delay := if Nat.eqb i 0 then delay else wrap64 (delay * 2) in
          let newCheckedIDs := checkedIDs in
          r <~ ForAllLocks ctx checkedIDs (checkCallback l) newCheckedIDs ;;
          let err := r.1 in
          let checkedIDs := r.2 in
          match err with
          | None => ret None
          | Some e =>
              if is_alreadyLockedError e then ret (Some e)
              else checkLoop l ctx n' (S i) delay checkedIDs err
          end
      end
  end.

(** [checkForOtherLocks]. *)
Definition checkForOtherLocks (l : Lock) (ctx : Ctx) : M (option error) :=
  let checkedIDs : IDSet :=
    match lockID l with
    | Some id => {[id]}
    | None => ∅
    end in
  delay <~ ask initialWaitBetweenLockRetries ;;
  checkLoop l ctx 4 0 delay checkedIDs None.

(** [createLock]. *)
Definition createLock (l : Lock) (ctx : Ctx) : M (result ID) :=
  SaveJSONUnpacked ctx l.

(** [Unlock]; the receiver may be the nil pointer, [None]. *)
Definition Unlock (l : option Lock) (ctx : Ctx) : M (option error) :=
  match l with
  | None => ret None
  | Some l =>
      match lockID l with
      | None => ret None
      | Some id =>
          ctx <~ delayedCancelContext ctx UnlockCancelDelay ;;
          RemoveUnpacked ctx id
      end
  end.

(** [NewLock]. *)
Definition NewLock (ctx : Ctx) (exclusive : bool) : M (result Lock) :=
  now <~ time_Now ;;
  pid <~ ask os_pid ;;
  let lock := mkLock now exclusive "" "" pid 0 0 None in
  hn <~ ask os_hostname ;;
  let lock := match hn with
              | Ok h => set_Hostname h lock
              | Err _ => lock
              end in
  filled <~ fillUserInfo lock ;;
  let lock := filled.1 in
  match filled.2 with
  | Some err => ret (Err err)
  | None =>
      err <~ checkForOtherLocks lock ctx ;;
      match err with
      | Some err => ret (Err err)
      | None =>
          saved <~ createLock lock ctx ;;
          match saved with
          | Err err => ret (Err err)
          | Ok id =>
              let lock := set_lockID (Some id) lock in
              wait <~ ask waitBeforeLockCheck ;;
              time_Sleep wait ;;;
              err <~ checkForOtherLocks lock ctx ;;
              match err with
              | Some err =>
                  Unlock (Some lock) ctx ;;;
                  ret (Err err)
              | None => ret (Ok lock)
              end
          end
      end
  end.

(** [Stale]. *)
Definition Stale (l : Lock) : M bool :=
  age <~ time_Since (Time l) ;;
  timeout <~ ask StaleLockTimeout ;;
  if timeout <? age then ret true
  else
    hn <~ ask os_hostname ;;
    match hn with
    | Err _ => ret false
    | Ok hn =>
        if negb (String.eqb hn (Hostname l)) then ret false
        else
          alive <~ ask processExists ;;
          if negb (alive l) then ret true else ret false
    end.

(** [Refresh]: the lock as the call leaves it, and the error returned. *)
Definition Refresh (l : Lock) (ctx : Ctx) : M (Lock * option error) :=
  now <~ time_Now ;;
  let l := set_Time now l in
  saved <~ createLock l ctx ;;
  match saved with
  | Err err => ret (l, Some err)
  | Ok id =>
      let oldLockID := lockID l in
      let l := set_lockID (Some id) l in
      ctx <~ delayedCancelContext ctx UnlockCancelDelay ;;
      match oldLockID with
      | None => ret (l, Some nilDereference)
      | Some old =>
          err <~ RemoveUnpacked ctx old ;;
          ret (l, err)
      end
  end.

(** [checkExistence]. *)
Definition checkExistence (l : Lock) (ctx : Ctx) : M (bool * option error) :=
  ls <~ repo_List ctx ;;
  match ls.1, lockID l with
  | _ :: _, None => ret (false, Some nilDereference)
  | ids, Some own => ret (existsb (fun p => N.eqb p.1 own) ids, ls.2)
  | [], None => ret (false, ls.2)
  end.

(** [RefreshStaleLock]. *)
Definition RefreshStaleLock (l : Lock) (ctx : Ctx) : M (Lock * option error) :=
  found <~ checkExistence l ctx ;;
  match found.2 with
  | Some err => ret (l, Some err)
  | None =>
      if negb found.1 then ret (l, Some ErrRemovedLock)
      else
        now <~ time_Now ;;
        let l := set_Time now l in
        saved <~ createLock l ctx ;;
        match saved with
        | Err err => ret (l, Some err)
        | Ok id =>
            wait <~ ask waitBeforeLockCheck ;;
            time_Sleep wait ;;;
            found <~ checkExistence l ctx ;;
            ctx <~ delayedCancelContext ctx UnlockCancelDelay ;;
            match found.2 with
            | Some err =>
                RemoveUnpacked ctx id ;;;
                ret (l, Some err)
            | None =>
                if negb found.1 then
                  RemoveUnpacked ctx id ;;;
                  ret (l, Some ErrRemovedLock)
                else
                  let oldLockID := lockID l in
                  let l := set_lockID (Some id) l in
                  match oldLockID with
                  | None => ret (l, Some nilDereference)
                  | Some old =>
                      err <~ RemoveUnpacked ctx old ;;
                      ret (l, err)
                  end
            end
        end
  end.

(** ** Variations of an environment *)

Definition with_hostname (h : result string) (e : Env) : Env :=
  mkEnv h (os_pid e) (user_current e) (uidGidInt e) (processExists e)
        (waitBeforeLockCheck e) (initialWaitBetweenLockRetries e)
        (StaleLockTimeout e) (idOf e) (jsonSize e) (fault e) (peers e)
        (select_done_first e) (workers e).

(** [TestSetLockTimeout]: both waits become [d]. *)
Definition TestSetLockTimeout (d : Z) (e : Env) : Env :=
  mkEnv (os_hostname e) (os_pid e) (user_current e) (uidGidInt e) (processExists e)
        d d
        (StaleLockTimeout e) (idOf e) (jsonSize e) (fault e) (peers e)
        (select_done_first e) (workers e).

Definition with_pid (p : Z) (e : Env) : Env :=
  mkEnv (os_hostname e) p (user_current e) (uidGidInt e) (processExists e)
        (waitBeforeLockCheck e) (initialWaitBetweenLockRetries e)
        (StaleLockTimeout e) (idOf e) (jsonSize e) (fault e) (peers e)
        (select_done_first e) (workers e).

Definition with_user (u : result User) (conv : User -> Z * Z * option error)
    (e : Env) : Env :=
  mkEnv (os_hostname e) (os_pid e) u conv (processExists e)
        (waitBeforeLockCheck e) (initialWaitBetweenLockRetries e)
        (StaleLockTimeout e) (idOf e) (jsonSize e) (fault e) (peers e)
        (select_done_first e) (workers e).

Definition with_processExists (p : Lock -> bool) (e : Env) : Env :=
  mkEnv (os_hostname e) (os_pid e) (user_current e) (uidGidInt e) p
        (waitBeforeLockCheck e) (initialWaitBetweenLockRetries e)
        (StaleLockTimeout e) (idOf e) (jsonSize e) (fault e) (peers e)
        (select_done_first e) (workers e).

Definition with_fault (f : Z -> Op -> option error) (e : Env) : Env :=
  mkEnv (os_hostname e) (os_pid e) (user_current e) (uidGidInt e)
        (processExists e)
        (waitBeforeLockCheck e) (initialWaitBetweenLockRetries e)
        (StaleLockTimeout e) (idOf e) (jsonSize e) f (peers e)
        (select_done_first e) (workers e).

Definition with_workers (k : Workers) (e : Env) : Env :=
  mkEnv (os_hostname e) (os_pid e) (user_current e) (uidGidInt e)
        (processExists e)
        (waitBeforeLockCheck e) (initialWaitBetweenLockRetries e)
        (StaleLockTimeout e) (idOf e) (jsonSize e) (fault e) (peers e)
        (select_done_first e) k.

Definition with_peers (p : Z -> Z -> list (ID * Obj) -> list (ID * Obj))
    (e : Env) : Env :=
  mkEnv (os_hostname e) (os_pid e) (user_current e) (uidGidInt e)
        (processExists e)
        (waitBeforeLockCheck e) (initialWaitBetweenLockRetries e)
        (StaleLockTimeout e) (idOf e) (jsonSize e) (fault e) p
        (select_done_first e) (workers e).

(** ** A concrete environment *)

Module Sample.

(** An id that tells apart the descriptors of different processes. *)
Definition sample_id (l : Lock) : ID :=
  Z.to_N (Z.abs (PID l) * 2 ^ 64 + Z.abs (Time l) mod 2 ^ 64).

Definition alice : User := mkUser "alice" "1000" "1000".

(** A single connection: the callbacks run in the order of the listing, and
    none runs after the first error. *)
Definition one_by_one : Workers := mkWorkers 1 (fun _ _ => 0%nat) (fun _ _ => None).

(** Two connections, of which the second comes to its callback first, and
    whose loads in flight complete. *)
Definition second_first : Workers :=
  mkWorkers 2 (fun _ _ => 1%nat) (fun _ _ => Some true).

(** A healthy host and a fault-free store on which nobody else writes. *)
Definition env : Env :=
  mkEnv (Ok "host-a") 4242 (Ok alice) (fun _ => (1000, 1000, None))
        (fun _ => true)
        (200 * Millisecond) (5 * Second) (30 * Minute)
        sample_id (fun _ => 160) (fun _ _ => None) (fun _ _ fs => fs) true
        one_by_one.

(** The store starts empty at one hour past the epoch. *)
Definition t0 : Z := 60 * Minute.
Definition empty_world : World := mkWorld [] t0 [].

Definition world_of (fs : list (ID * Obj)) : World := mkWorld fs t0 [].

(** Lock objects other clients have left in the store. *)
Definition reader : Lock := mkLock (t0 - Minute) false "host-b" "bob" 77 1001 1001 None.
Definition writer : Lock := mkLock (t0 - Minute) true "host-b" "bob" 78 1001 1001 None.

Definition obj_of (l : Lock) : Obj := mkObj 160 (Some l).
Definition garbage : Obj := mkObj 17 None.
Definition placeholder : Obj := mkObj 0 None.

End Sample.

(** * Notions the statements are made of *)

(** What a pass over listed items does to the world: it only adds loads to
    the log, of listed objects that are neither excluded nor empty. *)
Definition loads_of (excl : IDSet) (items : list (ID * Z)) (evs : list Event) : Prop :=
  Forall (fun ev => exists id size,
            ev = EvLoad id /\ (id ∉ excl) /\ size <> 0 /\ In (id, size) items) evs.

(** One attempt of [checkForOtherLocks]: the listing, then the pass. *)
Definition listing (ctx : Ctx) (env : Env) (w : World) : list (ID * Z) :=
  match (backend_call ctx OpList env w).1 with
  | Some _ => []
  | None => List.map (fun p => (p.1, osize p.2)) (files w)
  end.

(** The part of an event that a retry schedule is made of. *)
Inductive Shape :=
| SList
| SDelay (d : Z).

Definition shape_of (ev : Event) : option Shape :=
  match ev with
  | EvList => Some SList
  | EvDelay _ d _ => Some (SDelay d)
  | _ => None
  end.

Definition shapes (evs : list Event) : list Shape := omap shape_of evs.

(** The listings and delays of the loop entered at [i] with [n] iterations to
    go, when nothing ends it early. *)
Fixpoint schedule (n i : nat) (delay : Z) : list Shape :=
  match n with
  | O => []
  | S n' =>
      if Nat.eqb i 0 then SList :: schedule n' (S i) delay
      else SDelay delay :: SList :: schedule n' (S i) (wrap64 (delay * 2))
  end.

(** A delay that returned before its timer fired. *)
Definition cut_short (ev : Event) : bool :=
  match ev with
  | EvDelay from d woke => woke <? from + Z.max 0 d
  | _ => false
  end.

(** One attempt: the call of [ForAllLocks] in the loop body. *)
Definition attempt (l : Lock) (ctx : Ctx) (checkedIDs : IDSet) : M (option error * IDSet) :=
  ForAllLocks ctx checkedIDs (checkCallback l) checkedIDs.

(** What the loop may log: listings, loads of ids outside the checked set,
    and delays that end when the timer fires or, when the context is done
    before that, when it is done. *)
Definition loop_event (ctx : Ctx) (checked : IDSet) (ev : Event) : Prop :=
  match ev with
  | EvList => True
  | EvLoad id => id ∉ checked
  | EvDelay from d woke =>
      from <= woke <= from + Z.max 0 d /\
      (forall c, done_at ctx = Some c -> c < from + Z.max 0 d -> woke = Z.max from c)
  | _ => False
  end.

Definition ends_cut_short (evs : list Event) : Prop :=
  exists ev, last evs = Some ev /\ cut_short ev = true.

Record loop_run (ctx : Ctx) (n i : nat) (delay : Z) (checked : IDSet)
    (res : option error) (evs : list Event) : Prop := {
  run_schedule : shapes evs `prefix_of` schedule n i delay;
  run_events : Forall (loop_event ctx checked) evs;
  run_cut_short :
    existsb cut_short evs = true ->
    res = Some ContextCanceled /\ ends_cut_short evs
}.

(** The descriptor [NewLock] starts from, before the user is looked up. *)
Definition new_descriptor (exclusive : bool) (env : Env) (w : World) : Lock :=
  let lock := mkLock (clock w) exclusive "" "" (os_pid env) 0 0 None in
  match os_hostname env with
  | Ok h => set_Hostname h lock
  | Err _ => lock
  end.

(** The three steps of [NewLock] on a filled descriptor: the check before,
    the creation of the lock file, and, after the wait, the check after. *)
Definition precheck (lock : Lock) (ctx : Ctx) : M (option error) :=
  checkForOtherLocks lock ctx.

Definition publish (lock : Lock) (ctx : Ctx) : M (result Lock) :=
  saved <~ createLock lock ctx ;;
  match saved with
  | Err err => ret (Err err)
  | Ok id => ret (Ok (set_lockID (Some id) lock))
  end.

Definition postcheck (lock : Lock) (ctx : Ctx) : M (result Lock) :=
  err <~ checkForOtherLocks lock ctx ;;
  match err with
  | Some err =>
      Unlock (Some lock) ctx ;;;
      ret (Err err)
  | None => ret (Ok lock)
  end.

Definition settle : M unit :=
  wait <~ ask waitBeforeLockCheck ;;
  time_Sleep wait.

Definition two_phase (lock : Lock) (ctx : Ctx) : M (result Lock) :=
  err <~ precheck lock ctx ;;
  match err with
  | Some err => ret (Err err)
  | None =>
      published <~ publish lock ctx ;;
      match published with
      | Err err => ret (Err err)
      | Ok lock =>
          settle ;;;
          postcheck lock ctx
      end
  end.

Definition is_SList (s : Shape) : bool :=
  match s with
  | SList => true
  | SDelay _ => false
  end.

(** The number of attempts a log shows: one listing per attempt. *)
Definition attempts (evs : list Event) : nat :=
  length (List.filter is_SList (shapes evs)).

(** The schedule of [checkForOtherLocks] for an initial delay [d]. *)
Definition retry_schedule (d : Z) : list Shape :=
  [SList; SDelay d; SList; SDelay (wrap64 (d * 2)); SList;
   SDelay (wrap64 (wrap64 (d * 2) * 2)); SList].

(** An environment in which nobody else writes to the store, and one in which
    the store has no faults either. *)
Definition alone (env : Env) : Prop :=
  forall a b fs, peers env a b fs = fs.

Definition quiet (env : Env) : Prop :=
  (forall t op, fault env t op = None) /\ alone env.

(** An object the scan of [l] passes without error: the lock's own object, an
    empty object, or a non-exclusive lock met by a non-exclusive acquirer. *)
Definition harmless (l : Lock) (fs : list (ID * Obj)) (p : ID * Obj) : Prop :=
  lockID l = Some p.1 \/
  osize p.2 = 0 \/
  exists o lock, lookup_file p.1 fs = Some o /\ obody o = Some lock /\
                 Exclusive l = false /\ Exclusive lock = false.

Definition entry (p : ID * Obj) : ID * Z := (p.1, osize p.2).

(** An object that is no lock: what the store holds under its id does not
    decode. *)
Definition malformed (fs : list (ID * Obj)) (p : ID * Obj) : Prop :=
  exists o, lookup_file p.1 fs = Some o /\ obody o = None.

(** Whether a log shows a load of [id]. *)
Definition loaded (id : ID) (evs : list Event) : bool :=
  existsb (fun ev => match ev with EvLoad i => N.eqb i id | _ => false end) evs.

(** Where a client is in [NewLock]: it has not called it yet, it has passed
    the check before, it has created its lock file, or [NewLock] has returned
    the lock or an error. *)
Inductive Phase :=
| Idle
| Checked (lock : Lock)
| Published (lock : Lock)
| Held (lock : Lock)
| Failed (e : error).

(** The three steps of [NewLock]: up to the check before, the creation of
    the lock file, and the wait with the check after. *)
Definition step_check (ctx : Ctx) (exclusive : bool) : M Phase :=
  fun env w =>
    let filled := (fillUserInfo (new_descriptor exclusive env w) env w).1 in
    match filled.2 with
    | Some err => (Failed err, w)
    | None =>
        let r := precheck filled.1 ctx env w in
        match r.1 with
        | Some err => (Failed err, r.2)
        | None => (Checked filled.1, r.2)
        end
    end.

Definition step_publish (ctx : Ctx) (lock : Lock) : M Phase :=
  published <~ publish lock ctx ;;
  match published with
  | Ok lock => ret (Published lock)
  | Err err => ret (Failed err)
  end.

Definition step_finish (ctx : Ctx) (lock : Lock) : M Phase :=
  settle ;;;
  r <~ postcheck lock ctx ;;
  match r with
  | Ok lock => ret (Held lock)
  | Err err => ret (Failed err)
  end.

Definition client_step (ctx : Ctx) (exclusive : bool) (ph : Phase) : M Phase :=
  match ph with
  | Idle => step_check ctx exclusive
  | Checked lock => step_publish ctx lock
  | Published lock => step_finish ctx lock
  | Held lock => ret (Held lock)
  | Failed e => ret (Failed e)
  end.

Definition outcome (r : result Lock) : Phase :=
  match r with
  | Ok lock => Held lock
  | Err e => Failed e
  end.

(** Clients and the store they share.  Client [i] runs in its own
    environment, under its own context. *)
Record System := mkSystem {
  phases : list Phase;
  world : World
}.

Section Clients.

Variables (envs : nat -> Env) (ctxs : nat -> Ctx) (exclusive : nat -> bool).

(** Client [i] takes its next step. *)
Definition run_client (i : nat) (s : System) : System :=
  match phases s !! i with
  | Some ph =>
      let r := client_step (ctxs i) (exclusive i) ph (envs i) (world s) in
      mkSystem (<[i := r.1]> (phases s)) r.2
  | None => s
  end.

(** The clients step in the order of the schedule. *)
Definition run (schedule : list nat) (s : System) : System :=
  fold_left (fun s i => run_client i s) schedule s.

Definition start (n : nat) (w : World) : System :=
  mkSystem (replicate n Idle) w.

End Clients.

Definition host_name (env : Env) : string :=
  match os_hostname env with
  | Ok h => h
  | Err _ => ""%string
  end.

(** Client [i] wrote this descriptor. *)
Definition owns (envs : nat -> Env) (i : nat) (lock : Lock) : Prop :=
  PID lock = os_pid (envs i) /\ Hostname lock = host_name (envs i) /\
  Exclusive lock = true.

(** The lock file of client [i] is in the store, under the id [lock] has. *)
Definition stored (envs : nat -> Env) (h : Lock -> ID) (i : nat) (lock : Lock)
    (w : World) : Prop :=
  owns envs i lock /\
  lockID lock = Some (h (descriptor lock)) /\
  exists o, lookup_file (h (descriptor lock)) (files w) = Some o /\ osize o <> 0.

(** The id client [i] uses, if it has come so far as to have a descriptor. *)
Definition phase_lock (ph : Phase) : option Lock :=
  match ph with
  | Checked lock | Published lock | Held lock => Some lock
  | Idle | Failed _ => None
  end.

Definition phase_ok (envs : nat -> Env) (h : Lock -> ID) (i : nat) (ph : Phase)
    (w : World) : Prop :=
  match ph with
  | Idle | Failed _ => True
  | Checked lock => owns envs i lock /\ lockID lock = None
  | Published lock | Held lock => stored envs h i lock w
  end.

(** A step of client [i] leaves alone the objects under other ids than its
    own. *)
Definition frames (h : Lock -> ID) (ph : Phase) (w w' : World) : Prop :=
  match phase_lock ph with
  | Some lock =>
      forall id, id <> h (descriptor lock) ->
                 lookup_file id (files w') = lookup_file id (files w)
  | None => files w' = files w
  end.

(** The invariant: every client's phase is in order, and at most one client
    holds the lock. *)
Definition Inv (envs : nat -> Env) (h : Lock -> ID) (s : System) : Prop :=
  (forall i ph, phases s !! i = Some ph -> phase_ok envs h i ph (world s)) /\
  (forall i j li lj,
     phases s !! i = Some (Held li) -> phases s !! j = Some (Held lj) -> i = j).

(** An exclusive lock object that a client classifies as not stale. *)
Definition live_exclusive (env : Env) (w : World) (p : ID * Obj) : bool :=
  match obody p.2 with
  | Some lock => Exclusive lock && negb (Stale lock env w).1
  | None => false
  end.

(** Two processes of one host, told apart by their pid. *)
Definition two_clients (i : nat) : Env := with_pid (4242 + Z.of_nat i) Sample.env.

(** ** Notions of the further properties *)

(** The time the delays of a schedule take when none is cut short. *)
Fixpoint delays_sum (sched : list Shape) : Z :=
  match sched with
  | [] => 0
  | SList :: rest => delays_sum rest
  | SDelay d :: rest => Z.max 0 d + delays_sum rest
  end.

(** What a scan may log: no save, no removal, no plain sleep. *)
Definition scan_event (ev : Event) : Prop :=
  match ev with
  | EvList | EvLoad _ | EvDelay _ _ _ => True
  | EvSave _ | EvRemove _ | EvSleep _ _ => False
  end.

(** What [LoadLock] gives for an object of the store. *)
Definition decode (id : ID) (o : Obj) : result Lock :=
  match obody o with
  | Some l => Ok (set_lockID (Some id) l)
  | None => Err ErrInvalidData
  end.

(** What a load of [id] gives on a store that answers. *)
Definition stored_lock (fs : list (ID * Obj)) (id : ID) : result Lock :=
  match lookup_file id fs with
  | Some o => decode id o
  | None => Err (Other "file does not exist")
  end.

(** What [ForAllLocks] calls its callback with, of the listed objects: those
    that are neither excluded nor empty, each with what loading its id
    gives. *)
Definition visible (excl : IDSet) (fs : list (ID * Obj)) (items : list (ID * Z))
    : list (ID * result Lock) :=
  omap (fun item : ID * Z =>
          if bool_decide (item.1 ∈ excl) then None
          else if item.2 =? 0 then None
          else Some (item.1, stored_lock fs item.1))
       items.

(** An object that is no obstacle to an acquirer without lock file yet: it is
    empty, or a non-exclusive lock met by a non-exclusive acquirer. *)
Definition compatible (exclusive : bool) (fs : list (ID * Obj)) (p : ID * Obj) : Prop :=
  osize p.2 = 0 \/
  exists o lock, lookup_file p.1 fs = Some o /\ obody o = Some lock /\
                 exclusive = false /\ Exclusive lock = false.

(** A lock that stands in the way of a request: the object is not empty and
    decodes to [other], and the request is exclusive or [other] is. *)
Definition conflicting (exclusive : bool) (fs : list (ID * Obj)) (p : ID * Obj)
    (other : Lock) : Prop :=
  osize p.2 <> 0 /\
  exists o, lookup_file p.1 fs = Some o /\ obody o = Some other /\
            exclusive || Exclusive other = true.

(** The user can be looked up with its ids, or not at all. *)
Definition user_ok (env : Env) : Prop :=
  match user_current env with
  | Err _ => True
  | Ok u => (uidGidInt env u).2 = None
  end.

(** The descriptor [NewLock] checks and saves. *)
Definition filled_descriptor (exclusive : bool) (env : Env) (w : World) : Lock :=
  (fillUserInfo (new_descriptor exclusive env w) env w).1.1.

(** The store answers a call made under [ctx] at [t]: the context is open and
    no operation has a fault at that instant. *)
Definition responsive (ctx : Ctx) (env : Env) (t : Z) : Prop :=
  ctx_done ctx t = false /\ forall op, fault env t op = None.

(** The object [createLock] puts for [l]. *)
Definition lock_object (env : Env) (l : Lock) : Obj :=
  mkObj (jsonSize env (descriptor l)) (Some (descriptor l)).

(** The objects a scan of [l] that excludes [excl] passes without error. *)
Definition passes (l : Lock) (excl : IDSet) (fs : list (ID * Obj)) (p : ID * Obj)
    : Prop :=
  p.1 ∈ excl \/ osize p.2 = 0 \/
  exists o lock, lookup_file p.1 fs = Some o /\ obody o = Some lock /\
                 Exclusive l = false /\ Exclusive lock = false.

(** The object of [id] decodes to a non-exclusive lock, and [l] is
    non-exclusive as well. *)
Definition shared (l : Lock) (fs : list (ID * Obj)) (id : ID) : Prop :=
  exists o lock, lookup_file id fs = Some o /\ obody o = Some lock /\
                 Exclusive l = false /\ Exclusive lock = false.

(** * Properties *)

(** ** Running computations *)

Lemma bind_run {A B} (c : M A) (k : A -> M B) env w :
  bind c k env w = k (c env w).1 env (c env w).2.
Proof. reflexivity. Qed.

Lemma bind_run_eq {A B} (c : M A) (k : A -> M B) env w a w' :
  c env w = (a, w') -> bind c k env w = k a env w'.
Proof. intros H. rewrite bind_run, H. reflexivity. Qed.

Ltac run_prim :=
  unfold time_Since, time_Now, bind, ret, ask, get, log, set_files, advance;
  cbn [fst snd files clock trace].

(** ** Staleness *)

Section Staleness.

Lemma saturate_gt (T x : Z) :
  minDuration <= T < maxDuration -> (T <? saturate x) = (T <? x).
Proof.
  unfold saturate, minDuration, maxDuration. intros HT.
  destruct (x <? - 2 ^ 63) eqn:E1; [lia|].
  destruct (2 ^ 63 - 1 <? x) eqn:E2; lia.
Qed.

Lemma Stale_unfold (l : Lock) env w :
  Stale l env w =
  (if StaleLockTimeout env <? saturate (clock w - Time l) then true
   else match os_hostname env with
        | Err _ => false
        | Ok hn => if negb (String.eqb hn (Hostname l)) then false
                   else negb (processExists env l)
        end, w).
Proof.
  unfold Stale. run_prim.
  destruct (_ <? _); [reflexivity|].
  destruct (os_hostname env) as [hn|e]; [|reflexivity].
  destruct (negb (String.eqb hn (Hostname l))); [reflexivity|].
  destruct (negb (processExists env l)); reflexivity.
Qed.

End Staleness.

(** C7 (as amended).  With the default threshold of 30 minutes, [Stale]
    changes nothing and answers true exactly when the lock's time is more
    than 30 minutes before now, or the host name is known, equals the lock's
    and the recorded process does not exist.  When the host name cannot be
    determined, and when the lock comes from another host, the answer is
    that of the age test alone: true for a lock older than 30 minutes, false
    otherwise. *)
Theorem Stale_iff (env : Env) (w : World) (l : Lock) :
  StaleLockTimeout env = 30 * Minute ->
  (Stale l env w).2 = w /\
  ((Stale l env w).1 = true <->
     30 * Minute < clock w - Time l \/
     (os_hostname env = Ok (Hostname l) /\ processExists env l = false)) /\
  (forall e, os_hostname env = Err e ->
     ((Stale l env w).1 = true <-> 30 * Minute < clock w - Time l)) /\
  (forall hn, os_hostname env = Ok hn -> hn <> Hostname l ->
     ((Stale l env w).1 = true <-> 30 * Minute < clock w - Time l)).
Proof.
  intros HT. rewrite Stale_unfold, HT. cbn [fst snd].
  rewrite saturate_gt by (unfold minDuration, maxDuration, Minute, Second, Millisecond; lia).
  split; [reflexivity|].
  destruct (30 * Minute <? clock w - Time l) eqn:Hage.
  - apply Z.ltb_lt in Hage. repeat split; intros; auto.
  - apply Z.ltb_ge in Hage.
    split; [|split].
    + destruct (os_hostname env) as [hn|e].
      * destruct (String.eqb hn (Hostname l)) eqn:Hh; cbn [negb].
        -- apply String.eqb_eq in Hh. subst hn.
           rewrite negb_true_iff. split; [auto|].
           intros [?|[_ ?]]; [lia|assumption].
        -- apply String.eqb_neq in Hh.
           split; [discriminate|]. intros [?|[Heq _]]; [lia|congruence].
      * split; [discriminate|]. intros [?|[? _]]; [lia|discriminate].
    + intros e He. rewrite He. split; [discriminate|lia].
    + intros hn Hhn Hne. rewrite Hhn.
      apply String.eqb_neq in Hne. rewrite Hne. cbn.
      split; [discriminate|lia].
Qed.

Lemma Stale_iff_witness :
  StaleLockTimeout Sample.env = 30 * Minute /\
  (Stale Sample.reader Sample.env Sample.empty_world).2 = Sample.empty_world.
Proof.
  split; [reflexivity|].
  exact (proj1 (Stale_iff Sample.env Sample.empty_world Sample.reader eq_refl)).
Defined.

(** C7 (as stated) fails: a lock written 45 minutes ago is stale although the
    current host name cannot be determined. *)
Lemma Stale_unknown_hostname_old_lock :
  ~ (forall env w l e,
       StaleLockTimeout env = 30 * Minute ->
       os_hostname env = Err e ->
       (Stale l env w).1 = false).
Proof.
  intros H.
  specialize (H (with_hostname (Err (Other "no hostname")) Sample.env)
                Sample.empty_world
                (mkLock (Sample.t0 - 45 * Minute) false "other-host" "bob" 77 0 0 None)
                (Other "no hostname") eq_refl eq_refl).
  vm_compute in H. discriminate.
Qed.

(** ** The store's files *)

Section Files.

Implicit Types (fs : list (ID * Obj)) (id : ID).

Lemma has_file_app id fs1 fs2 :
  has_file id (fs1 ++ fs2) = has_file id fs1 || has_file id fs2.
Proof. apply existsb_app. Qed.

Lemma has_file_remove_same id fs : has_file id (remove_file id fs) = false.
Proof.
  unfold has_file, remove_file.
  induction fs as [|[i o] fs IH]; [reflexivity|].
  cbn. destruct (N.eqb i id) eqn:E; cbn; [exact IH|].
  rewrite E. exact IH.
Qed.

Lemma has_file_remove_other id id' fs :
  id <> id' -> has_file id' (remove_file id fs) = has_file id' fs.
Proof.
  intros Hne. unfold has_file, remove_file.
  induction fs as [|[i o] fs IH]; [reflexivity|].
  cbn. destruct (N.eqb i id) eqn:E; cbn.
  - apply N.eqb_eq in E. subst i.
    destruct (N.eqb id id') eqn:E'; [apply N.eqb_eq in E'; contradiction|].
    exact IH.
  - rewrite IH. reflexivity.
Qed.

Lemma remove_file_absent id fs : has_file id fs = false -> remove_file id fs = fs.
Proof.
  unfold has_file, remove_file.
  induction fs as [|[i o] fs IH]; [reflexivity|].
  cbn. destruct (N.eqb i id) eqn:E; cbn; [discriminate|].
  intros H. rewrite IH by exact H. reflexivity.
Qed.

Lemma listing_has_file id fs :
  existsb (fun p : ID * Z => N.eqb p.1 id) (List.map (fun p => (p.1, osize p.2)) fs)
  = has_file id fs.
Proof.
  unfold has_file.
  induction fs as [|[i o] fs IH]; [reflexivity|].
  cbn. rewrite IH. reflexivity.
Qed.

End Files.

(** ** The store operations *)

Section Store.

Lemma backend_call_run ctx op env w :
  backend_call ctx op env w =
  (if ctx_done ctx (clock w) then Some ContextCanceled else fault env (clock w) op, w).
Proof.
  unfold backend_call. run_prim. destruct (ctx_done ctx (clock w)); reflexivity.
Qed.

Ltac run_store :=
  unfold backend_call; run_prim;
  repeat match goal with
         | |- context [if ?b then _ else _] =>
             let E := fresh "E" in
             destruct b eqn:E;
             cbn [fst snd files clock trace] in E |- *; rewrite ?E
         | |- context [match ?o with Some _ => _ | None => _ end] =>
             let E := fresh "E" in
             destruct o eqn:E;
             cbn [fst snd files clock trace] in E |- *; rewrite ?E
         end;
  try reflexivity; try congruence.

Lemma RemoveUnpacked_run ctx id env w :
  RemoveUnpacked ctx id env w =
  match (backend_call ctx (OpRemove id) env w).1 with
  | Some err => (Some err, mkWorld (files w) (clock w) (trace w ++ [EvRemove id]))
  | None => (None, mkWorld (remove_file id (files w)) (clock w) (trace w ++ [EvRemove id]))
  end.
Proof. unfold RemoveUnpacked. run_store. Qed.

Lemma SaveJSONUnpacked_run ctx l env w :
  SaveJSONUnpacked ctx l env w =
  match (backend_call ctx (OpSave (idOf env (descriptor l))) env w).1 with
  | Some err =>
      (Err err, mkWorld (files w) (clock w)
                        (trace w ++ [EvSave (idOf env (descriptor l))]))
  | None =>
      (Ok (idOf env (descriptor l)),
       mkWorld (remove_file (idOf env (descriptor l)) (files w)
                ++ [(idOf env (descriptor l),
                     mkObj (jsonSize env (descriptor l)) (Some (descriptor l)))])
               (clock w) (trace w ++ [EvSave (idOf env (descriptor l))]))
  end.
Proof. unfold SaveJSONUnpacked. run_store. Qed.

Lemma repo_List_run ctx env w :
  repo_List ctx env w =
  (match (backend_call ctx OpList env w).1 with
   | Some err => ([], Some err)
   | None => (List.map (fun p => (p.1, osize p.2)) (files w), None)
   end, mkWorld (files w) (clock w) (trace w ++ [EvList])).
Proof. unfold repo_List. run_store. Qed.

Lemma LoadJSONUnpacked_run ctx id env w :
  LoadJSONUnpacked ctx id env w =
  (match (backend_call ctx (OpLoad id) env w).1 with
   | Some err => Err err
   | None =>
       match lookup_file id (files w) with
       | None => Err (Other "file does not exist")
       | Some o => match obody o with
                   | Some l => Ok l
                   | None => Err ErrInvalidData
                   end
       end
   end, mkWorld (files w) (clock w) (trace w ++ [EvLoad id])).
Proof. unfold LoadJSONUnpacked. run_store. Qed.

Lemma LoadLock_run ctx id env w :
  LoadLock ctx id env w =
  (match (backend_call ctx (OpLoad id) env w).1 with
   | Some err => Err err
   | None =>
       match lookup_file id (files w) with
       | None => Err (Other "file does not exist")
       | Some o => match obody o with
                   | Some l => Ok (set_lockID (Some id) l)
                   | None => Err ErrInvalidData
                   end
       end
   end, mkWorld (files w) (clock w) (trace w ++ [EvLoad id])).
Proof.
  unfold LoadLock. rewrite bind_run, LoadJSONUnpacked_run. cbn [fst snd].
  destruct (backend_call ctx (OpLoad id) env w).1; [reflexivity|].
  destruct (lookup_file id (files w)) as [o|]; [|reflexivity].
  destruct (obody o); reflexivity.
Qed.

Lemma time_Sleep_run d env w :
  time_Sleep d env w =
  (tt, mkWorld (if 0 <? d then peers env (clock w) (clock w + d) (files w) else files w)
               (if 0 <? d then clock w + d else clock w)
               (trace w ++ [EvSleep (clock w) d])).
Proof. unfold time_Sleep. run_store. Qed.

End Store.

(** ** The workers of a listing *)

Section Workers.

Lemma chosen_spec k tr n waiting item rest :
  chosen k tr n waiting = Some (item, rest) ->
  exists i, waiting !! i = Some item /\ rest = delete i waiting.
Proof.
  unfold chosen. cbn zeta.
  set (i := if (_ <? _)%nat then _ else _).
  destruct (take n waiting !! i) as [x|] eqn:E; [|discriminate].
  intros [= <- <-]. exists i. split; [|reflexivity].
  apply lookup_take_Some in E. apply E.
Qed.

Lemma chosen_In k tr n waiting item rest :
  chosen k tr n waiting = Some (item, rest) ->
  In item waiting /\ (forall x, In x rest -> In x waiting) /\
  length waiting = S (length rest) /\ waiting ≡ₚ item :: rest.
Proof.
  intros H. apply chosen_spec in H. destruct H as (i & Hi & ->).
  split; [apply list_elem_of_In; eapply list_elem_of_lookup_2, Hi|].
  split.
  - intros x Hx. apply list_elem_of_In. apply list_elem_of_In in Hx.
    eapply elem_of_sublist; [exact Hx|apply sublist_delete].
  - split; [|apply delete_Permutation, Hi].
    rewrite length_delete by (eexists; exact Hi).
    apply lookup_lt_Some in Hi. lia.
Qed.

Lemma chosen_some k tr n waiting :
  (0 < n)%nat -> waiting <> [] -> exists item rest, chosen k tr n waiting = Some (item, rest).
Proof.
  intros Hn Hw. unfold chosen. cbn zeta.
  set (hands := take n waiting).
  assert (Hlen : (0 < length hands)%nat).
  { subst hands. rewrite length_take. destruct waiting; [congruence|]. cbn. lia. }
  set (i := if (_ <? _)%nat then _ else _).
  assert (Hi : (i < length hands)%nat).
  { subst i. destruct (_ <? _)%nat eqn:E; [apply Nat.ltb_lt in E; exact E|exact Hlen]. }
  apply lookup_lt_is_Some_2 in Hi. destruct Hi as [x Hx].
  rewrite Hx. eauto.
Qed.

Lemma chosen_first k tr waiting item rest :
  waiting = item :: rest -> chosen k tr 1 waiting = Some (item, rest).
Proof.
  intros ->. unfold chosen. cbn zeta.
  change (take 1 (item :: rest)) with [item].
  destruct (_ <? _)%nat eqn:E.
  - apply Nat.ltb_lt in E. change (length [item]) with 1%nat in E.
    assert (H0 : next_callback k tr [item] = 0%nat) by lia.
    rewrite H0. reflexivity.
  - reflexivity.
Qed.

Context {S : Type}.
Variables (fn : Ctx -> ID -> Z -> S -> M (option error * S)) (ctx : Ctx) (env : Env).

Lemma ParallelList_run_step fuel n waiting first s w :
  ParallelList_run fn ctx (Datatypes.S fuel) n waiting first s env w =
  match chosen (workers env) (trace w) n waiting with
  | None => ((first, s), w)
  | Some (item, rest) =>
      match first with
      | None =>
          let r := fn ctx item.1 item.2 s env w in
          match r.1.1 with
          | None => ParallelList_run fn ctx fuel n rest None r.1.2 env r.2
          | Some err => ParallelList_run fn ctx fuel (n - 1) rest (Some err) r.1.2 env r.2
          end
      | Some _ =>
          match straggler (workers env) (trace w) item.1 with
          | None => ((first, s), w)
          | Some loaded =>
              let r := fn (if loaded then ctx else cancelled (clock w)) item.1 item.2 s
                          env w in
              ParallelList_run fn ctx fuel
                (match r.1.1 with Some _ => n - 1 | None => n end)%nat
                rest first r.1.2 env r.2
          end
      end
  end.
Proof.
  cbn [ParallelList_run]. unfold bind, get, ask, ret, time_Now. cbn [fst snd].
  destruct (chosen (workers env) (trace w) n waiting) as [[item rest]|]; [|reflexivity].
  destruct first as [e|].
  - destruct (straggler (workers env) (trace w) item.1) as [loaded|]; reflexivity.
  - cbn zeta. destruct (fn ctx item.1 item.2 s env w).1.1; reflexivity.
Qed.

(** The first error, once there is one, is the result. *)
Lemma ParallelList_run_first fuel : forall n waiting e s w,
  (ParallelList_run fn ctx fuel n waiting (Some e) s env w).1.1 = Some e.
Proof.
  induction fuel as [|fuel IH]; intros n waiting e s w; [reflexivity|].
  rewrite ParallelList_run_step.
  destruct (chosen _ _ _ _) as [[item rest]|]; [|reflexivity].
  destruct (straggler _ _ _) as [loaded|]; [|reflexivity].
  cbn zeta. apply IH.
Qed.

Lemma ParallelList_run_idle fuel waiting first s w :
  ParallelList_run fn ctx fuel 0 waiting first s env w = ((first, s), w).
Proof.
  destruct fuel as [|fuel]; [reflexivity|]. rewrite ParallelList_run_step.
  unfold chosen. cbn zeta. rewrite take_0. reflexivity.
Qed.

(** With a single connection the callbacks run in the order of the listing,
    and none runs after the first error. *)
Lemma ParallelList_run_single fuel item rest s w :
  ParallelList_run fn ctx (Datatypes.S fuel) 1 (item :: rest) None s env w =
  let r := fn ctx item.1 item.2 s env w in
  match r.1.1 with
  | None => ParallelList_run fn ctx fuel 1 rest None r.1.2 env r.2
  | Some err => ((Some err, r.1.2), r.2)
  end.
Proof.
  rewrite ParallelList_run_step, (chosen_first _ _ _ item rest eq_refl). cbn zeta.
  destruct (fn ctx item.1 item.2 s env w).1.1; [|reflexivity].
  apply ParallelList_run_idle.
Qed.

(** What every call of the callback keeps, the workers keep. *)
Variable P : S -> World -> Prop.
Variable items : list (ID * Z).
Hypothesis fn_keeps : forall c item s w,
  In item items -> P s w ->
  P (fn c item.1 item.2 s env w).1.2 (fn c item.1 item.2 s env w).2.

Lemma ParallelList_run_keeps fuel : forall n waiting first s w,
  (forall x, In x waiting -> In x items) -> P s w ->
  P (ParallelList_run fn ctx fuel n waiting first s env w).1.2
    (ParallelList_run fn ctx fuel n waiting first s env w).2.
Proof.
  induction fuel as [|fuel IH]; intros n waiting first s w Hsub HP; [exact HP|].
  rewrite ParallelList_run_step.
  destruct (chosen _ _ _ _) as [[item rest]|] eqn:Hch; [|exact HP].
  apply chosen_In in Hch. destruct Hch as (Hin & Hrest & _).
  assert (Hsub' : forall x, In x rest -> In x items) by auto.
  destruct first as [e|].
  - destruct (straggler _ _ _) as [loaded|]; [|exact HP].
    cbn zeta. apply IH; [exact Hsub'|]. apply fn_keeps; auto.
  - cbn zeta.
    pose proof (fn_keeps ctx item s w (Hsub _ Hin) HP) as HP'.
    destruct (fn ctx item.1 item.2 s env w).1.1; apply IH; assumption.
Qed.

(** Without an error, every object has passed its callback. *)
Lemma ParallelList_run_none fuel : forall n waiting first s w,
  (length waiting <= fuel)%nat -> (0 < n)%nat ->
  (forall x, In x waiting -> In x items) -> P s w ->
  (ParallelList_run fn ctx fuel n waiting first s env w).1.1 = None ->
  first = None /\
  forall item, In item waiting ->
    exists s0 w0, P s0 w0 /\ (fn ctx item.1 item.2 s0 env w0).1.1 = None.
Proof.
  induction fuel as [|fuel IH]; intros n waiting first s w Hlen Hn Hsub HP Hnone.
  - destruct waiting; [|cbn in Hlen; lia].
    split; [exact Hnone|]. intros item [].
  - destruct first as [e|]; [rewrite ParallelList_run_first in Hnone; discriminate|].
    split; [reflexivity|].
    rewrite ParallelList_run_step in Hnone.
    destruct (chosen _ _ _ _) as [[item rest]|] eqn:Hch.
    + apply chosen_In in Hch. destruct Hch as (Hin & Hrest & Hl & Hperm).
      cbn zeta in Hnone.
      pose proof (fn_keeps ctx item s w (Hsub _ Hin) HP) as HP'.
      destruct (fn ctx item.1 item.2 s env w).1.1 as [e|] eqn:Hcall;
        [rewrite ParallelList_run_first in Hnone; discriminate|].
      destruct (IH n rest None _ _ ltac:(lia) Hn ltac:(auto) HP' Hnone) as [_ Hall].
      intros x Hx. apply list_elem_of_In in Hx. rewrite Hperm in Hx.
      apply elem_of_cons in Hx. destruct Hx as [->|Hx].
      * exists s, w. split; [exact HP|exact Hcall].
      * apply Hall. apply list_elem_of_In. exact Hx.
    + destruct waiting as [|x waiting]; [intros item []|].
      destruct (chosen_some (workers env) (trace w) n (x :: waiting) Hn ltac:(discriminate))
        as (item & rest & Hsome).
      congruence.
Qed.

(** An error is the first one, or one a callback has returned under the
    context of the call. *)
Lemma ParallelList_run_some fuel : forall n waiting first s w e,
  (forall x, In x waiting -> In x items) -> P s w ->
  (ParallelList_run fn ctx fuel n waiting first s env w).1.1 = Some e ->
  first = Some e \/
  exists item s0 w0, In item waiting /\ P s0 w0 /\
                     (fn ctx item.1 item.2 s0 env w0).1.1 = Some e.
Proof.
  induction fuel as [|fuel IH]; intros n waiting first s w e Hsub HP Hsome.
  - left. exact Hsome.
  - destruct first as [e0|].
    { rewrite ParallelList_run_first in Hsome. left. exact Hsome. }
    right. rewrite ParallelList_run_step in Hsome.
    destruct (chosen _ _ _ _) as [[item rest]|] eqn:Hch; [|discriminate].
    apply chosen_In in Hch. destruct Hch as (Hin & Hrest & _).
    cbn zeta in Hsome.
    pose proof (fn_keeps ctx item s w (Hsub _ Hin) HP) as HP'.
    destruct (fn ctx item.1 item.2 s env w).1.1 as [e1|] eqn:Hcall.
    + rewrite ParallelList_run_first in Hsome. injection Hsome as ->.
      exists item, s, w. auto.
    + destruct (IH n rest None _ _ e ltac:(auto) HP' Hsome)
        as [Hf|(x & s0 & w0 & Hx & HP0 & Hc)]; [discriminate|].
      exists x, s0, w0. auto.
Qed.

End Workers.

(** ** One scan of the lock objects *)

Section Scan.

Variables (l : Lock) (ctx : Ctx).

Lemma checkCallback_loaded id lock (s : IDSet) :
  checkCallback l id (Ok lock) s =
  if Exclusive l || Exclusive lock
  then (Some (alreadyLockedError lock), s)
  else (None, {[id]} ∪ s).
Proof.
  unfold checkCallback. destruct (Exclusive l), (Exclusive lock); reflexivity.
Qed.

Lemma checkCallback_grows id r (s : IDSet) : s ⊆ (checkCallback l id r s).2.
Proof.
  destruct r as [lock|e]; [|reflexivity].
  rewrite checkCallback_loaded.
  destruct (Exclusive l || Exclusive lock); cbn; set_solver.
Qed.

Lemma ForAllLocks_item_skip {S : Type} (c : Ctx) (excl : IDSet)
    (fn : ID -> result Lock -> S -> option error * S) id size s env w :
  id ∈ excl \/ size = 0 ->
  ForAllLocks_item c excl fn id size s env w = ((None, s), w).
Proof.
  intros H. unfold ForAllLocks_item.
  destruct (bool_decide (id ∈ excl)) eqn:E; [reflexivity|].
  apply bool_decide_eq_false in E.
  destruct H as [H|H]; [contradiction|]. subst size. reflexivity.
Qed.

Lemma ForAllLocks_item_load {S : Type} (c : Ctx) (excl : IDSet)
    (fn : ID -> result Lock -> S -> option error * S) id size s env w :
  id ∉ excl -> size <> 0 ->
  ForAllLocks_item c excl fn id size s env w =
  (fn id (LoadLock c id env w).1 s, (LoadLock c id env w).2).
Proof.
  intros Hid Hsize. unfold ForAllLocks_item.
  rewrite bool_decide_eq_false_2 by exact Hid.
  apply Z.eqb_neq in Hsize. rewrite Hsize. reflexivity.
Qed.

Lemma ForAllLocks_unfold {S : Type} (excl : IDSet)
    (fn : ID -> result Lock -> S -> option error * S) s env w :
  ForAllLocks ctx excl fn s env w =
  let r := ParallelList_run (fun c => ForAllLocks_item c excl fn) ctx
             (length (listing ctx env w)) (Pos.to_nat (connections (workers env)))
             (listing ctx env w) None s env
             (mkWorld (files w) (clock w) (trace w ++ [EvList])) in
  ((match r.1.1 with
    | Some err => Some err
    | None => (backend_call ctx OpList env w).1
    end, r.1.2), r.2).
Proof.
  unfold ForAllLocks, ParallelList. rewrite bind_run. unfold ask. cbn [fst snd].
  rewrite bind_run, repo_List_run. cbn [fst snd]. rewrite bind_run.
  unfold listing. cbn zeta.
  destruct (backend_call ctx OpList env w).1 as [e|]; cbn [fst snd].
  - destruct (ParallelList_run _ _ _ _ _ _ _ _ _) as [[[e'|] s'] w']; reflexivity.
  - destruct (ParallelList_run _ _ _ _ _ _ _ _ _) as [[[e'|] s'] w']; reflexivity.
Qed.

Lemma loads_of_weaken excl item items evs :
  loads_of excl items evs -> loads_of excl (item :: items) evs.
Proof.
  unfold loads_of. intros H. eapply Forall_impl; [exact H|].
  intros ev (id & size & ? & ? & ? & ?). exists id, size. cbn. auto.
Qed.

Lemma loads_of_app excl items evs1 evs2 :
  loads_of excl items evs1 -> loads_of excl items evs2 ->
  loads_of excl items (evs1 ++ evs2).
Proof. intros H1 H2. apply Forall_app. split; assumption. Qed.

(** What one call of the callback of [checkForOtherLocks] does, under
    whatever context the load runs. *)
Lemma ForAllLocks_item_effect (c : Ctx) (excl : IDSet) items id size (s : IDSet) env w :
  In (id, size) items ->
  let r := ForAllLocks_item c excl (checkCallback l) id size s env w in
  files r.2 = files w /\ clock r.2 = clock w /\ s ⊆ r.1.2 /\
  exists evs, trace r.2 = trace w ++ evs /\ loads_of excl items evs.
Proof.
  intros Hin. cbn zeta.
  destruct (decide (id ∈ excl \/ size = 0)) as [Hskip|Hload].
  - rewrite ForAllLocks_item_skip by exact Hskip. cbn [fst snd].
    split; [reflexivity|]. split; [reflexivity|]. split; [set_solver|].
    exists []. rewrite app_nil_r. split; [reflexivity|constructor].
  - rewrite ForAllLocks_item_load by tauto. rewrite LoadLock_run.
    cbn [fst snd files clock trace].
    split; [reflexivity|]. split; [reflexivity|].
    split; [apply checkCallback_grows|].
    exists [EvLoad id]. split; [reflexivity|].
    constructor; [|constructor]. exists id, size. tauto.
Qed.

Lemma ParallelList_run_effect (excl : IDSet) fuel n items first (s : IDSet) env w :
  let r := ParallelList_run (fun c => ForAllLocks_item c excl (checkCallback l)) ctx
             fuel n items first s env w in
  files r.2 = files w /\ clock r.2 = clock w /\ s ⊆ r.1.2 /\
  exists evs, trace r.2 = trace w ++ evs /\ loads_of excl items evs.
Proof.
  cbn zeta.
  apply (ParallelList_run_keeps (fun c => ForAllLocks_item c excl (checkCallback l)) ctx env
           (fun s' w' => files w' = files w /\ clock w' = clock w /\ s ⊆ s' /\
                         exists evs, trace w' = trace w ++ evs /\ loads_of excl items evs)
           items).
  - intros c [id size] s0 w0 Hin (Hf & Hc & Hs & evs & Ht & Hl). cbn [fst snd].
    destruct (ForAllLocks_item_effect c excl items id size s0 env w0 Hin)
      as (Hf' & Hc' & Hs' & evs' & Ht' & Hl').
    split; [congruence|]. split; [congruence|]. split; [set_solver|].
    exists (evs ++ evs'). split; [rewrite Ht', Ht, app_assoc; reflexivity|].
    apply loads_of_app; assumption.
  - auto.
  - split; [reflexivity|]. split; [reflexivity|]. split; [set_solver|].
    exists []. rewrite app_nil_r. split; [reflexivity|constructor].
Qed.

Lemma ForAllLocks_effect (excl : IDSet) (s : IDSet) env w :
  let r := ForAllLocks ctx excl (checkCallback l) s env w in
  files r.2 = files w /\ clock r.2 = clock w /\ s ⊆ r.1.2 /\
  exists evs, trace r.2 = trace w ++ EvList :: evs /\
              loads_of excl (listing ctx env w) evs.
Proof.
  cbn zeta. rewrite ForAllLocks_unfold. cbn zeta. cbn [fst snd].
  destruct (ParallelList_run_effect excl (length (listing ctx env w))
              (Pos.to_nat (connections (workers env))) (listing ctx env w) None s env
              (mkWorld (files w) (clock w) (trace w ++ [EvList])))
    as (Hf & Hc & Hs & evs & Ht & Hl).
  cbn [files clock trace] in Hf, Hc, Ht.
  repeat split; try assumption.
  exists evs. split; [|exact Hl]. rewrite Ht, <- app_assoc. reflexivity.
Qed.

End Scan.

(** ** The retry loop *)

Section Retry.

Variables (l : Lock) (ctx : Ctx).

Lemma cancelableDelay_run delay env w :
  cancelableDelay ctx delay env w =
  let fire := clock w + Z.max 0 delay in
  let interrupted :=
    match done_at ctx with
    | Some c => (c <? fire) || ((c =? fire) && select_done_first env)
    | None => false
    end in
  let woke := if interrupted then Z.max (clock w) (default (clock w) (done_at ctx))
              else fire in
  (if interrupted then Some ContextCanceled else None,
   mkWorld (if clock w <? woke then peers env (clock w) woke (files w) else files w)
           woke (trace w ++ [EvDelay (clock w) delay woke])).
Proof.
  unfold cancelableDelay. run_prim. cbn zeta.
  destruct (match done_at ctx with Some _ => _ | None => _ end).
  - cbn [fst snd files clock trace].
    destruct (clock w <? Z.max (clock w) (default (clock w) (done_at ctx))) eqn:E;
      cbn [fst snd files clock trace]; [reflexivity|].
    apply Z.ltb_ge in E. f_equal. f_equal. lia.
  - cbn [fst snd files clock trace].
    destruct (clock w <? clock w + Z.max 0 delay) eqn:E;
      cbn [fst snd files clock trace]; [reflexivity|].
    apply Z.ltb_ge in E. f_equal. f_equal. lia.
Qed.

Lemma cancelableDelay_effect delay env w :
  let r := cancelableDelay ctx delay env w in
  trace r.2 = trace w ++ [EvDelay (clock w) delay (clock r.2)] /\
  clock w <= clock r.2 <= clock w + Z.max 0 delay /\
  (r.1 = None -> clock r.2 = clock w + Z.max 0 delay) /\
  (r.1 = None \/ r.1 = Some ContextCanceled) /\
  (forall c, done_at ctx = Some c -> c < clock w + Z.max 0 delay ->
             r.1 = Some ContextCanceled /\ clock r.2 = Z.max (clock w) c).
Proof.
  cbn zeta. rewrite cancelableDelay_run. cbn zeta.
  destruct (done_at ctx) as [c|] eqn:Hc; cbn [fst snd clock trace].
  - change (default (clock w) (Some c)) with c.
    destruct ((c <? clock w + Z.max 0 delay) ||
              ((c =? clock w + Z.max 0 delay) && select_done_first env)) eqn:E;
      cbn [fst snd clock trace].
    + apply orb_true_iff in E. rewrite andb_true_iff in E.
      repeat split; auto; try discriminate;
        try (destruct E as [E|[E _]]; lia); congruence.
    + apply orb_false_iff in E. destruct E as [E _]. apply Z.ltb_ge in E.
      repeat split; auto; try lia;
        try (intros c' Hc'; injection Hc' as <-; lia);
        match goal with H : Some _ = Some _ |- _ => injection H as <-; lia end.
  - repeat split; auto; try lia; discriminate.
Qed.

Lemma attempt_effect (checked : IDSet) env w :
  let r := attempt l ctx checked env w in
  files r.2 = files w /\ clock r.2 = clock w /\ checked ⊆ r.1.2 /\
  exists evs, trace r.2 = trace w ++ EvList :: evs /\
              loads_of checked (listing ctx env w) evs.
Proof. apply ForAllLocks_effect. Qed.

(** The two ways an iteration of the loop goes on or ends. *)
Lemma checkLoop_first n delay checked err env w :
  checkLoop l ctx (S n) 0 delay checked err env w =
  let r := attempt l ctx checked env w in
  match r.1.1 with
  | None => (None, r.2)
  | Some e =>
      if is_alreadyLockedError e then (Some e, r.2)
      else checkLoop l ctx n 1 delay r.1.2 (Some e) env r.2
  end.
Proof.
  cbn [checkLoop Nat.eqb]. unfold bind, ret. cbn [fst snd].
  fold (attempt l ctx checked).
  destruct (attempt l ctx checked env w) as [[[e|] s] w']; cbn [fst snd];
    [|reflexivity].
  destruct (is_alreadyLockedError e); reflexivity.
Qed.

Lemma checkLoop_next n i delay checked err env w :
  checkLoop l ctx (S n) (S i) delay checked err env w =
  let d := cancelableDelay ctx delay env w in
  match d.1 with
  | Some e => (Some e, d.2)
  | None =>
      let r := attempt l ctx checked env d.2 in
      match r.1.1 with
      | None => (None, r.2)
      | Some e =>
          if is_alreadyLockedError e then (Some e, r.2)
          else checkLoop l ctx n (S (S i)) (wrap64 (delay * 2)) r.1.2 (Some e) env r.2
      end
  end.
Proof.
  cbn [checkLoop Nat.eqb]. unfold bind, ret. cbn [fst snd].
  destruct (cancelableDelay ctx delay env w) as [[e|] w1]; cbn [fst snd];
    [reflexivity|].
  fold (attempt l ctx checked).
  destruct (attempt l ctx checked env w1) as [[[e|] s] w']; cbn [fst snd];
    [|reflexivity].
  destruct (is_alreadyLockedError e); reflexivity.
Qed.

End Retry.

(** What a run of the loop logs. *)
Section RetryTrace.

Variables (l : Lock) (ctx : Ctx).

Lemma loop_event_mono (s s' : IDSet) ev :
  s ⊆ s' -> loop_event ctx s' ev -> loop_event ctx s ev.
Proof. destruct ev; cbn; auto; set_solver. Qed.

Lemma loads_loop_events (s : IDSet) items evs :
  loads_of s items evs -> Forall (loop_event ctx s) evs.
Proof.
  intros H. eapply Forall_impl; [exact H|].
  intros ev (id & size & -> & Hid & _). exact Hid.
Qed.

Lemma loads_shapes (s : IDSet) items evs : loads_of s items evs -> shapes evs = [].
Proof.
  induction 1 as [|ev evs (id & size & -> & _) _ IH]; [reflexivity|].
  cbn. exact IH.
Qed.

Lemma loads_not_cut_short (s : IDSet) items evs :
  loads_of s items evs -> existsb cut_short evs = false.
Proof.
  induction 1 as [|ev evs (id & size & -> & _) _ IH]; [reflexivity|].
  cbn. exact IH.
Qed.

Lemma shapes_app evs1 evs2 : shapes (evs1 ++ evs2) = shapes evs1 ++ shapes evs2.
Proof. apply omap_app. Qed.

Lemma shapes_list evs : shapes (EvList :: evs) = SList :: shapes evs.
Proof. reflexivity. Qed.

Lemma shapes_delay from d woke evs :
  shapes (EvDelay from d woke :: evs) = SDelay d :: shapes evs.
Proof. reflexivity. Qed.

Lemma ends_cut_short_app evs1 evs2 :
  ends_cut_short evs2 -> ends_cut_short (evs1 ++ evs2).
Proof.
  intros (ev & Hl & Hc). exists ev. split; [|exact Hc].
  destruct evs2 as [|e evs2]; [discriminate|].
  rewrite last_app. rewrite Hl. reflexivity.
Qed.

Lemma attempt_run (checked : IDSet) env w :
  let r := attempt l ctx checked env w in
  exists evs, trace r.2 = trace w ++ EvList :: evs /\
              shapes evs = [] /\ Forall (loop_event ctx checked) evs /\
              existsb cut_short evs = false /\ checked ⊆ r.1.2.
Proof.
  cbn zeta. destruct (attempt_effect l ctx checked env w) as (_ & _ & Hs & evs & Ht & Hl).
  exists evs. split; [exact Ht|].
  split; [eapply loads_shapes, Hl|].
  split; [eapply loads_loop_events, Hl|].
  split; [eapply loads_not_cut_short, Hl|exact Hs].
Qed.

Lemma checkLoop_run n : forall i delay checked err env w,
  let r := checkLoop l ctx n i delay checked err env w in
  exists evs, trace r.2 = trace w ++ evs /\ loop_run ctx n i delay checked r.1 evs.
Proof.
  induction n as [|n IH]; intros i delay checked err env w; cbn zeta.
  - cbn. exists []. rewrite app_nil_r. split; [reflexivity|].
    split; [apply prefix_nil|constructor|discriminate].
  - destruct i as [|i].
    + rewrite checkLoop_first. cbn zeta.
      destruct (attempt_run checked env w) as (evs & Ht & Hsh & Hev & Hcs & Hsub).
      destruct (attempt l ctx checked env w) as [[[e|] s] w1]; cbn [fst snd] in *.
      2:{ exists (EvList :: evs). split; [exact Ht|]. split.
          - rewrite shapes_list, Hsh. cbn [schedule Nat.eqb].
            apply prefix_cons, prefix_nil.
          - constructor; [exact I|exact Hev].
          - cbn. rewrite Hcs. discriminate. }
      destruct (is_alreadyLockedError e); cbn [fst snd].
      { exists (EvList :: evs). split; [exact Ht|]. split.
        - rewrite shapes_list, Hsh. cbn [schedule Nat.eqb].
          apply prefix_cons, prefix_nil.
        - constructor; [exact I|exact Hev].
        - cbn. rewrite Hcs. discriminate. }
      destruct (IH 1%nat delay s (Some e) env w1) as (evs' & Ht' & [Hp He Hc]).
      exists ((EvList :: evs) ++ evs'). split.
      { rewrite Ht', Ht. rewrite <- app_assoc. reflexivity. }
      split.
      * rewrite shapes_app, shapes_list, Hsh. cbn [schedule Nat.eqb app].
        apply prefix_cons, Hp.
      * apply Forall_app. split; [constructor; [exact I|exact Hev]|].
        eapply Forall_impl; [exact He|]. intros ev. apply loop_event_mono, Hsub.
      * rewrite existsb_app. cbn [existsb cut_short]. rewrite Hcs. cbn [orb].
        intros Hx. destruct (Hc Hx) as [-> Hend]. split; [reflexivity|].
        apply ends_cut_short_app, Hend.
    + rewrite checkLoop_next. cbn zeta.
      destruct (cancelableDelay_effect ctx delay env w) as (Htd & Hrange & Hfull & Hres & Hcancel).
      destruct (cancelableDelay ctx delay env w) as [d w0]; cbn [fst snd] in *.
      assert (Hdelay : loop_event ctx checked (EvDelay (clock w) delay (clock w0))).
      { split; [exact Hrange|]. intros c Hc Hlt. apply (Hcancel c Hc Hlt). }
      destruct Hres as [-> | ->].
      2:{ exists [EvDelay (clock w) delay (clock w0)]. split; [exact Htd|]. split.
          - rewrite shapes_delay. cbn [schedule Nat.eqb].
            apply prefix_cons, prefix_nil.
          - constructor; [exact Hdelay|constructor].
          - intros Hx. split; [reflexivity|].
            exists (EvDelay (clock w) delay (clock w0)). split; [reflexivity|].
            cbn in Hx. rewrite orb_false_r in Hx. exact Hx. }
      specialize (Hfull eq_refl).
      assert (Hncs : cut_short (EvDelay (clock w) delay (clock w0)) = false).
      { cbn. apply Z.ltb_ge. lia. }
      destruct (attempt_run checked env w0) as (evs & Ht & Hsh & Hev & Hcs & Hsub).
      destruct (attempt l ctx checked env w0) as [[[e|] s] w1]; cbn [fst snd] in *.
      2:{ exists (EvDelay (clock w) delay (clock w0) :: EvList :: evs). split.
          { rewrite Ht, Htd. rewrite <- app_assoc. reflexivity. }
          split.
          - rewrite shapes_delay, shapes_list, Hsh. cbn [schedule Nat.eqb].
            apply prefix_cons, prefix_cons, prefix_nil.
          - constructor; [exact Hdelay|]. constructor; [exact I|exact Hev].
          - cbn [existsb]. rewrite Hncs. cbn. rewrite Hcs. discriminate. }
      destruct (is_alreadyLockedError e); cbn [fst snd].
      { exists (EvDelay (clock w) delay (clock w0) :: EvList :: evs). split.
        { rewrite Ht, Htd. rewrite <- app_assoc. reflexivity. }
        split.
        - rewrite shapes_delay, shapes_list, Hsh. cbn [schedule Nat.eqb].
          apply prefix_cons, prefix_cons, prefix_nil.
        - constructor; [exact Hdelay|]. constructor; [exact I|exact Hev].
        - cbn [existsb]. rewrite Hncs. cbn. rewrite Hcs. discriminate. }
      destruct (IH (S (S i)) (wrap64 (delay * 2)) s (Some e) env w1)
        as (evs' & Ht' & [Hp He Hc]).
      exists ((EvDelay (clock w) delay (clock w0) :: EvList :: evs) ++ evs'). split.
      { rewrite Ht', Ht, Htd. rewrite <- !app_assoc. reflexivity. }
      split.
      * rewrite shapes_app, shapes_delay, shapes_list, Hsh.
        cbn [schedule Nat.eqb app].
        apply prefix_cons, prefix_cons, Hp.
      * apply Forall_app. split.
        -- constructor; [exact Hdelay|]. constructor; [exact I|exact Hev].
        -- eapply Forall_impl; [exact He|]. intros ev. apply loop_event_mono, Hsub.
      * rewrite existsb_app. cbn [existsb]. rewrite Hncs. cbn [cut_short orb].
        rewrite Hcs. cbn [orb].
        intros Hx. destruct (Hc Hx) as [-> Hend]. split; [reflexivity|].
        apply ends_cut_short_app, Hend.
Qed.

End RetryTrace.

Lemma checkForOtherLocks_run (l : Lock) (ctx : Ctx) env w :
  let r := checkForOtherLocks l ctx env w in
  exists evs,
    trace r.2 = trace w ++ evs /\
    loop_run ctx 4 0 (initialWaitBetweenLockRetries env)
             (match lockID l with Some id => {[id]} | None => ∅ end) r.1 evs.
Proof.
  cbn zeta. unfold checkForOtherLocks. rewrite bind_run. unfold ask. cbn [fst snd].
  apply checkLoop_run.
Qed.

(** ** Which locks conflict *)

(** C2.  In a scan, an object whose id is in the checked set, or whose size is
    zero, is passed over: it is not loaded and yields no conflict.  A loaded
    lock is a conflict exactly when the acquirer wants an exclusive lock, or
    wants a non-exclusive lock and the loaded lock is exclusive; otherwise
    its id joins the checked set.  The acquirer's own id is in the checked
    set from the start: no scan of [checkForOtherLocks] loads it. *)
Theorem scan_conflict_rule (l : Lock) (ctx : Ctx) (env : Env) (w : World) :
  (forall (checkedIDs s : IDSet) id size,
      id ∈ checkedIDs \/ size = 0 ->
      ForAllLocks_item ctx checkedIDs (checkCallback l) id size s env w
      = ((None, s), w)) /\
  (forall (checkedIDs s : IDSet) id size lock w',
      id ∉ checkedIDs -> size <> 0 ->
      LoadLock ctx id env w = (Ok lock, w') ->
      exists verdict,
        ForAllLocks_item ctx checkedIDs (checkCallback l) id size s env w
        = (verdict, w') /\
        (verdict = (Some (alreadyLockedError lock), s) \/
         verdict = (None, {[id]} ∪ s)) /\
        (verdict.1 = Some (alreadyLockedError lock) <->
         Exclusive l = true \/ (Exclusive l = false /\ Exclusive lock = true))) /\
  (forall own,
      lockID l = Some own ->
      exists evs,
        trace (checkForOtherLocks l ctx env w).2 = trace w ++ evs /\
        EvLoad own ∉ evs).
Proof.
  split; [|split].
  - intros checkedIDs s id size H. apply ForAllLocks_item_skip, H.
  - intros checkedIDs s id size lock w' Hid Hsize Hload.
    rewrite ForAllLocks_item_load by assumption. rewrite Hload. cbn [fst snd].
    rewrite checkCallback_loaded.
    exists (if Exclusive l || Exclusive lock
            then (Some (alreadyLockedError lock), s) else (None, {[id]} ∪ s)).
    split; [reflexivity|].
    destruct (Exclusive l), (Exclusive lock); cbn; split; auto;
      split; try discriminate; intuition discriminate.
  - intros own Hown.
    destruct (checkForOtherLocks_run l ctx env w) as (evs & Ht & [_ Hev _]).
    exists evs. split; [exact Ht|].
    intros Hin. rewrite Hown in Hev.
    rewrite Forall_forall in Hev. specialize (Hev _ Hin). cbn in Hev.
    set_solver.
Qed.

Lemma scan_conflict_rule_witness :
  exists verdict,
    ForAllLocks_item background ∅ (checkCallback Sample.reader) 1%N 160 ∅
                     Sample.env (Sample.world_of [(1%N, Sample.obj_of Sample.writer)])
    = (verdict, mkWorld [(1%N, Sample.obj_of Sample.writer)] Sample.t0 [EvLoad 1%N]) /\
    verdict.1 = Some (alreadyLockedError (set_lockID (Some 1%N) Sample.writer)).
Proof.
  destruct (proj1 (proj2 (scan_conflict_rule Sample.reader background Sample.env
                            (Sample.world_of [(1%N, Sample.obj_of Sample.writer)])))
              ∅ ∅ 1%N 160 (set_lockID (Some 1%N) Sample.writer)
              (mkWorld [(1%N, Sample.obj_of Sample.writer)] Sample.t0 [EvLoad 1%N])
              (not_elem_of_empty 1%N) ltac:(discriminate) eq_refl)
    as (verdict & Hrun & _ & Hrule).
  exists verdict. split; [exact Hrun|].
  apply Hrule. right. split; reflexivity.
Defined.

(** ** Acquisition *)

Section Acquire.

Lemma fillUserInfo_run l env w :
  fillUserInfo l env w =
  (match user_current env with
   | Err _ => (l, None)
   | Ok u => (set_UID_GID (uidGidInt env u).1.1 (uidGidInt env u).1.2
                          (set_Username (usr_Username u) l),
              (uidGidInt env u).2)
   end, w).
Proof.
  unfold fillUserInfo. run_prim. destruct (user_current env); reflexivity.
Qed.

Lemma NewLock_unfold ctx exclusive env w :
  NewLock ctx exclusive env w =
  let filled := (fillUserInfo (new_descriptor exclusive env w) env w).1 in
  match filled.2 with
  | Some err => (Err err, w)
  | None => two_phase filled.1 ctx env w
  end.
Proof.
  unfold NewLock, two_phase, precheck, publish, postcheck, settle, new_descriptor.
  unfold time_Now, get, ask, bind, ret. cbn [fst snd].
  rewrite !fillUserInfo_run. cbn [fst snd].
  set (lock0 := match os_hostname env with Ok _ => _ | Err _ => _ end).
  destruct (match user_current env with Ok _ => _ | Err _ => _ end) as [lock [e|]];
    cbn [fst snd]; [reflexivity|].
  destruct (checkForOtherLocks lock ctx env w) as [[e|] w1]; cbn [fst snd];
    [reflexivity|].
  destruct (createLock lock ctx env w1) as [[id|e] w2]; cbn [fst snd];
    [|reflexivity].
  destruct (time_Sleep (waitBeforeLockCheck env) env w2) as [[] w3]; cbn [fst snd].
  destruct (checkForOtherLocks (set_lockID (Some id) lock) ctx env w3) as [[e|] w4];
    reflexivity.
Qed.

End Acquire.

(** C6 (as amended).  When the current user cannot be determined,
    [fillUserInfo] leaves the descriptor as it is, user name, uid and gid
    blank, and returns no error: acquisition goes on with that descriptor.
    When the user is found but its uid or gid cannot be converted, that error
    is what acquisition returns, before it touches the store. *)
Theorem fillUserInfo_best_effort (ctx : Ctx) (exclusive : bool) (env : Env) (w : World) :
  (forall e l, user_current env = Err e ->
     fillUserInfo l env w = ((l, None), w)) /\
  (forall e, user_current env = Err e ->
     NewLock ctx exclusive env w
     = two_phase (new_descriptor exclusive env w) ctx env w /\
     Username (new_descriptor exclusive env w) = ""%string /\
     UID (new_descriptor exclusive env w) = 0 /\
     GID (new_descriptor exclusive env w) = 0) /\
  (forall u e, user_current env = Ok u -> (uidGidInt env u).2 = Some e ->
     NewLock ctx exclusive env w = (Err e, w)).
Proof.
  split; [|split].
  - intros e l He. rewrite fillUserInfo_run, He. reflexivity.
  - intros e He. rewrite NewLock_unfold, fillUserInfo_run, He. cbn.
    split; [reflexivity|].
    unfold new_descriptor. cbn zeta. destruct (os_hostname env); auto.
  - intros u e Hu He. rewrite NewLock_unfold, fillUserInfo_run, Hu. cbn.
    rewrite He. reflexivity.
Qed.

Lemma fillUserInfo_best_effort_witness :
  NewLock background true
          (with_user (Ok Sample.alice) (fun _ => (0, 0, Some (Other "invalid UID")))
                     Sample.env)
          Sample.empty_world
  = (Err (Other "invalid UID"), Sample.empty_world).
Proof.
  exact (proj2 (proj2 (fillUserInfo_best_effort background true
                         (with_user (Ok Sample.alice)
                                    (fun _ => (0, 0, Some (Other "invalid UID")))
                                    Sample.env)
                         Sample.empty_world))
               Sample.alice (Other "invalid UID") eq_refl eq_refl).
Defined.

(** C6 (as stated) fails: a uid that cannot be converted makes acquisition
    return an error, on an empty store. *)
Lemma uid_failure_fails_acquire :
  ~ (forall ctx exclusive env w u e,
       user_current env = Ok u -> (uidGidInt env u).2 = Some e ->
       (NewLock ctx exclusive env w).1 <> Err e).
Proof.
  intros H.
  apply (H background true
           (with_user (Ok Sample.alice) (fun _ => (0, 0, Some (Other "invalid UID")))
                      Sample.env)
           Sample.empty_world Sample.alice (Other "invalid UID") eq_refl eq_refl).
  vm_compute. reflexivity.
Qed.

(** ** Release *)

Section Release.

Lemma delayedCancelContext_run parentCtx delay env w :
  delayedCancelContext parentCtx delay env w
  = (mkCtx (match done_at parentCtx with
            | Some c => Some (Z.max c (clock w) + Z.max 0 delay)
            | None => None
            end), w).
Proof. reflexivity. Qed.

Lemma delayedCancelContext_snd parentCtx delay env w :
  (delayedCancelContext parentCtx delay env w).2 = w.
Proof. reflexivity. Qed.

(** The context [delayedCancelContext] makes is open when it is made, and
    for the whole delay. *)
Lemma delayedCancelContext_open parentCtx delay env w t :
  0 < delay -> t < clock w + delay ->
  ctx_done (delayedCancelContext parentCtx delay env w).1 t = false.
Proof.
  intros Hd Ht. rewrite delayedCancelContext_run. unfold ctx_done. cbn [fst done_at].
  destruct (done_at parentCtx) as [c|]; [|reflexivity].
  apply Z.leb_gt. lia.
Qed.

Lemma UnlockCancelDelay_pos : 0 < UnlockCancelDelay.
Proof. reflexivity. Qed.

Lemma Unlock_held l id ctx env w :
  lockID l = Some id ->
  Unlock (Some l) ctx env w
  = RemoveUnpacked (delayedCancelContext ctx UnlockCancelDelay env w).1 id env w.
Proof. intros H. unfold Unlock. rewrite H. reflexivity. Qed.

Lemma RemoveUnpacked_ok ctx id env w :
  (RemoveUnpacked ctx id env w).1 = None ->
  files (RemoveUnpacked ctx id env w).2 = remove_file id (files w).
Proof.
  rewrite RemoveUnpacked_run.
  destruct (backend_call ctx (OpRemove id) env w).1; [discriminate|reflexivity].
Qed.

Lemma RemoveUnpacked_clock ctx id env w :
  clock (RemoveUnpacked ctx id env w).2 = clock w.
Proof.
  rewrite RemoveUnpacked_run.
  destruct (backend_call ctx (OpRemove id) env w).1; reflexivity.
Qed.

Lemma RemoveUnpacked_absent ctx id env w :
  has_file id (files w) = false ->
  files (RemoveUnpacked ctx id env w).2 = files w.
Proof.
  intros H. rewrite RemoveUnpacked_run.
  destruct (backend_call ctx (OpRemove id) env w).1; [reflexivity|].
  cbn [snd files]. apply remove_file_absent, H.
Qed.

End Release.

(** C9.  [Unlock] on the nil lock and on a lock without id returns no error
    and leaves the world as it is: the store is not even called.  Once
    [Unlock] has removed a lock's object, a second [Unlock] of the same lock
    leaves the lock objects of the store as they are, and it returns no error
    either whenever the store accepts the removal call. *)
Theorem Unlock_idempotent (ctx : Ctx) (env : Env) (w : World) :
  Unlock None ctx env w = (None, w) /\
  (forall l, lockID l = None -> Unlock (Some l) ctx env w = (None, w)) /\
  (forall l id ctx2, lockID l = Some id ->
     let first := Unlock (Some l) ctx env w in
     first.1 = None ->
     let second := Unlock (Some l) ctx2 env first.2 in
     has_file id (files first.2) = false /\
     files second.2 = files first.2 /\
     clock second.2 = clock first.2 /\
     ((backend_call (delayedCancelContext ctx2 UnlockCancelDelay env first.2).1
                    (OpRemove id) env first.2).1 = None ->
      second.1 = None)).
Proof.
  split; [reflexivity|]. split.
  - intros l Hl. unfold Unlock. rewrite Hl. reflexivity.
  - intros l id ctx2 Hl. cbn zeta. rewrite !(Unlock_held l id) by exact Hl.
    intros Hfirst.
    assert (Hgone : has_file id (files (RemoveUnpacked
                      (delayedCancelContext ctx UnlockCancelDelay env w).1 id env w).2)
                    = false).
    { rewrite RemoveUnpacked_ok by exact Hfirst. apply has_file_remove_same. }
    split; [exact Hgone|].
    split; [apply RemoveUnpacked_absent, Hgone|].
    split; [apply RemoveUnpacked_clock|].
    intros Hcall. rewrite RemoveUnpacked_run.
    destruct (backend_call _ (OpRemove id) env _).1; [discriminate|reflexivity].
Qed.

Lemma Unlock_idempotent_witness :
  let held := mkLock Sample.t0 true "host-a" "alice" 4242 1000 1000 (Some 5%N) in
  let first := Unlock (Some held) background Sample.env
                      (Sample.world_of [(5%N, Sample.obj_of held)]) in
  first.1 = None /\
  (Unlock (Some held) background Sample.env first.2).1 = None /\
  files (Unlock (Some held) background Sample.env first.2).2 = [].
Proof.
  cbn zeta.
  pose proof (proj2 (proj2 (Unlock_idempotent background Sample.env
                 (Sample.world_of
                    [(5%N, Sample.obj_of
                             (mkLock Sample.t0 true "host-a" "alice" 4242 1000 1000
                                     (Some 5%N)))])))
               (mkLock Sample.t0 true "host-a" "alice" 4242 1000 1000 (Some 5%N))
               5%N background eq_refl eq_refl) as (_ & Hfiles & _ & Hok).
  split; [reflexivity|]. split.
  - apply Hok. reflexivity.
  - rewrite Hfiles. reflexivity.
Defined.

(** ** Refresh *)

Section RefreshFacts.

Lemma createLock_ok l ctx env w id w1 :
  createLock l ctx env w = (Ok id, w1) ->
  id = idOf env (descriptor l) /\ clock w1 = clock w /\
  has_file id (files w1) = true /\
  (forall id', has_file id' (files w) = true -> has_file id' (files w1) = true) /\
  (forall id', id' <> id -> has_file id' (files w1) = has_file id' (files w)) /\
  trace w1 = trace w ++ [EvSave id].
Proof.
  unfold createLock. rewrite SaveJSONUnpacked_run.
  destruct (backend_call ctx _ env w).1; [discriminate|].
  intros H. injection H as <- <-. cbn [files clock trace].
  set (id := idOf env (descriptor l)).
  assert (Hother : forall id', id' <> id ->
            has_file id' (remove_file id (files w) ++
                          [(id, mkObj (jsonSize env (descriptor l)) (Some (descriptor l)))])
            = has_file id' (files w)).
  { intros id' Hne. rewrite has_file_app, has_file_remove_other by congruence.
    unfold has_file at 2. cbn.
    destruct (N.eqb id id') eqn:E'; [apply N.eqb_eq in E'; congruence|].
    rewrite !orb_false_r. reflexivity. }
  split; [reflexivity|]. split; [reflexivity|].
  split; [|split; [|split]]; [| |exact Hother|reflexivity].
  - rewrite has_file_app. unfold has_file at 2. cbn. rewrite N.eqb_refl.
    apply orb_true_r.
  - intros id' H. destruct (N.eq_dec id' id) as [->|Hne].
    + rewrite has_file_app. unfold has_file at 2. cbn. rewrite N.eqb_refl.
      apply orb_true_r.
    + rewrite Hother by exact Hne. exact H.
Qed.

Lemma RemoveUnpacked_failed ctx id env w e :
  (RemoveUnpacked ctx id env w).1 = Some e ->
  files (RemoveUnpacked ctx id env w).2 = files w.
Proof.
  rewrite RemoveUnpacked_run.
  destruct (backend_call ctx (OpRemove id) env w).1; [reflexivity|discriminate].
Qed.

End RefreshFacts.

(** C10.  Once the replacement descriptor is saved, [Refresh] leaves the lock
    with the new id and the new time whatever the removal of the old object
    does, and returns what that removal returns.  When the removal fails,
    the error is returned while the lock points at the new object and the
    old object is still in the store, next to the new one. *)
Theorem Refresh_swaps_before_remove (l : Lock) (ctx : Ctx) (env : Env) (w w1 : World)
    (old id : ID) :
  lockID l = Some old ->
  createLock (set_Time (clock w) l) ctx env w = (Ok id, w1) ->
  let r := Refresh l ctx env w in
  let removal :=
    RemoveUnpacked (delayedCancelContext ctx UnlockCancelDelay env w1).1 old env w1 in
  lockID r.1.1 = Some id /\
  Time r.1.1 = clock w /\
  r.1.2 = removal.1 /\
  r.2 = removal.2 /\
  (forall e, removal.1 = Some e -> has_file old (files w) = true ->
     r.1.2 = Some e /\
     has_file old (files r.2) = true /\
     has_file id (files r.2) = true).
Proof.
  intros Hold Hsave. cbn zeta.
  assert (Hrun : Refresh l ctx env w =
                 ((set_lockID (Some id) (set_Time (clock w) l),
                   (RemoveUnpacked (delayedCancelContext ctx UnlockCancelDelay env w1).1
                                   old env w1).1),
                  (RemoveUnpacked (delayedCancelContext ctx UnlockCancelDelay env w1).1
                                  old env w1).2)).
  { unfold Refresh. unfold time_Now, get, bind, ret. cbn [fst snd].
    rewrite Hsave. cbn [fst snd lockID set_Time]. rewrite Hold. reflexivity. }
  rewrite Hrun. cbn [fst snd].
  repeat split.
  - exact H.
  - rewrite (RemoveUnpacked_failed _ _ _ _ _ H).
    destruct (createLock_ok _ _ _ _ _ _ Hsave) as (_ & _ & _ & Hkeep & _).
    apply Hkeep, H0.
  - rewrite (RemoveUnpacked_failed _ _ _ _ _ H).
    destruct (createLock_ok _ _ _ _ _ _ Hsave) as (_ & _ & Hnew & _).
    exact Hnew.
Qed.

Lemma Refresh_swaps_before_remove_witness :
  let held := mkLock (Sample.t0 - 10 * Minute) true "host-a" "alice" 4242 1000 1000
                     (Some 5%N) in
  let env := with_fault (fun _ op => match op with
                                     | OpRemove _ => Some (Other "remove failed")
                                     | _ => None
                                     end) Sample.env in
  let r := Refresh held background env (Sample.world_of [(5%N, Sample.obj_of held)]) in
  r.1.2 = Some (Other "remove failed") /\
  lockID r.1.1 = Some 78251088364275917955072%N /\
  has_file 5%N (files r.2) = true.
Proof.
  cbn zeta.
  pose proof (Refresh_swaps_before_remove
                (mkLock (Sample.t0 - 10 * Minute) true "host-a" "alice" 4242 1000 1000
                        (Some 5%N))
                background
                (with_fault (fun _ op => match op with
                                         | OpRemove _ => Some (Other "remove failed")
                                         | _ => None
                                         end) Sample.env)
                (Sample.world_of
                   [(5%N, Sample.obj_of
                            (mkLock (Sample.t0 - 10 * Minute) true "host-a" "alice"
                                    4242 1000 1000 (Some 5%N)))])
                _ 5%N 78251088364275917955072%N eq_refl eq_refl)
    as (Hid & _ & _ & _ & Hfail).
  destruct (Hfail (Other "remove failed") eq_refl eq_refl) as (Herr & Hold & _).
  auto.
Defined.

(** ** Attempts and delays *)

Section Budget.

Variables (l : Lock) (ctx : Ctx).

Lemma schedule_4 d : schedule 4 0 d = retry_schedule d.
Proof. reflexivity. Qed.

Lemma retry_schedule_default :
  retry_schedule (5 * Second)
  = [SList; SDelay (5 * Second); SList; SDelay (10 * Second); SList;
     SDelay (20 * Second); SList].
Proof. reflexivity. Qed.

Lemma attempts_prefix evs sched :
  shapes evs `prefix_of` sched ->
  (attempts evs <= length (List.filter is_SList sched))%nat.
Proof.
  intros [k ->]. unfold attempts. rewrite List.filter_app, length_app. lia.
Qed.

(** An attempt that finds a conflict ends the loop there, however many
    iterations are left. *)
Lemma checkLoop_conflict n i delay checked err env w other :
  let w0 := if Nat.eqb i 0 then w else (cancelableDelay ctx delay env w).2 in
  (i <> 0%nat -> (cancelableDelay ctx delay env w).1 = None) ->
  (attempt l ctx checked env w0).1.1 = Some (alreadyLockedError other) ->
  checkLoop l ctx (S n) i delay checked err env w
  = (Some (alreadyLockedError other), (attempt l ctx checked env w0).2).
Proof.
  cbn zeta. destruct i as [|i]; cbn [Nat.eqb].
  - intros _ H. rewrite checkLoop_first. cbn zeta. rewrite H. reflexivity.
  - intros Hd H. rewrite checkLoop_next. cbn zeta. rewrite Hd by discriminate.
    rewrite H. reflexivity.
Qed.

(** An attempt that ends with an error that is no conflict leads to the next
    iteration, with the delay doubled once it has been used. *)
Lemma checkLoop_retry n i delay checked err env w e :
  let w0 := if Nat.eqb i 0 then w else (cancelableDelay ctx delay env w).2 in
  (i <> 0%nat -> (cancelableDelay ctx delay env w).1 = None) ->
  (attempt l ctx checked env w0).1.1 = Some e ->
  is_alreadyLockedError e = false ->
  checkLoop l ctx (S n) i delay checked err env w
  = checkLoop l ctx n (S i) (if Nat.eqb i 0 then delay else wrap64 (delay * 2))
              (attempt l ctx checked env w0).1.2 (Some e) env
              (attempt l ctx checked env w0).2.
Proof.
  cbn zeta. destruct i as [|i]; cbn [Nat.eqb].
  - intros _ H He. rewrite checkLoop_first. cbn zeta. rewrite H, He. reflexivity.
  - intros Hd H He. rewrite checkLoop_next. cbn zeta. rewrite Hd by discriminate.
    rewrite H, He. reflexivity.
Qed.

(** A listing that fails. *)
Lemma attempt_list_fault checked env w e :
  (backend_call ctx OpList env w).1 = Some e ->
  attempt l ctx checked env w
  = ((Some e, checked), mkWorld (files w) (clock w) (trace w ++ [EvList])).
Proof.
  intros H. unfold attempt. rewrite ForAllLocks_unfold. cbn zeta.
  unfold listing. rewrite H. reflexivity.
Qed.

(** While every listing fails with the same error, which is no conflict, and
    the context stays open, the loop uses all its iterations. *)
Lemma checkLoop_exhausts e n : forall i delay checked err env w,
  done_at ctx = None ->
  (forall t, fault env t OpList = Some e) ->
  is_alreadyLockedError e = false ->
  let r := checkLoop l ctx n i delay checked err env w in
  r.1 = checkResult (match n with O => err | S _ => Some e end) /\
  exists evs, trace r.2 = trace w ++ evs /\ shapes evs = schedule n i delay.
Proof.
  induction n as [|n IH]; intros i delay checked err env w Hctx Hfault He; cbn zeta.
  - cbn. split; [reflexivity|]. exists []. rewrite app_nil_r. auto.
  - assert (Hcall : forall w', (backend_call ctx OpList env w').1 = Some e).
    { intros w'. rewrite backend_call_run. unfold ctx_done. rewrite Hctx. apply Hfault. }
    destruct i as [|i].
    + rewrite checkLoop_first. cbn zeta.
      rewrite (attempt_list_fault _ _ _ e) by apply Hcall. cbn [fst snd]. rewrite He.
      destruct (IH 1%nat delay checked (Some e) env
                   (mkWorld (files w) (clock w) (trace w ++ [EvList])) Hctx Hfault He)
        as (Hres & evs & Ht & Hsh).
      split.
      * rewrite Hres. destruct n; reflexivity.
      * exists (EvList :: evs). split.
        -- rewrite Ht. cbn [trace]. rewrite <- app_assoc. reflexivity.
        -- rewrite shapes_list, Hsh. reflexivity.
    + rewrite checkLoop_next. cbn zeta.
      rewrite cancelableDelay_run. cbn zeta. rewrite Hctx. cbn [fst snd].
      rewrite (attempt_list_fault _ _ _ e) by apply Hcall. cbn [fst snd files clock trace].
      rewrite He.
      match goal with
      | |- context [checkLoop l ctx n _ _ _ _ env ?w1] =>
          destruct (IH (S (S i)) (wrap64 (delay * 2)) checked (Some e) env w1
                       Hctx Hfault He) as (Hres & evs & Ht & Hsh)
      end.
      split.
      * rewrite Hres. destruct n; reflexivity.
      * exists (EvDelay (clock w) delay (clock w + Z.max 0 delay) :: EvList :: evs).
        split.
        -- rewrite Ht. cbn [trace]. rewrite <- !app_assoc. reflexivity.
        -- rewrite shapes_delay, shapes_list, Hsh. reflexivity.
Qed.

End Budget.



(** ** A malformed lock object *)

Section Malformed.

Variables (l : Lock) (ctx : Ctx) (env : Env).
Hypothesis ctx_open : done_at ctx = None.
Hypothesis env_quiet : quiet env.

Variable fs : list (ID * Obj).
Hypothesis objects : Forall (fun p => harmless l fs p \/ malformed fs p) fs.

Variables (bad : ID) (o : Obj).
Hypothesis bad_in : In (bad, o) fs.
Hypothesis bad_malformed : malformed fs (bad, o).
Hypothesis bad_size : osize o <> 0.
Hypothesis bad_foreign : lockID l <> Some bad.

Lemma backend_call_quiet op w : backend_call ctx op env w = (None, w).
Proof.
  rewrite backend_call_run. unfold ctx_done. rewrite ctx_open.
  rewrite (proj1 env_quiet). reflexivity.
Qed.

(** The load of the malformed object never gives a lock. *)
Lemma malformed_load c w :
  files w = fs -> exists e, (LoadLock c bad env w).1 = Err e.
Proof.
  intros Hfs. rewrite LoadLock_run. cbn [fst]. rewrite Hfs.
  destruct bad_malformed as (o' & Hlook & Hbody). cbn [fst] in Hlook.
  rewrite Hlook, Hbody.
  destruct (backend_call c (OpLoad bad) env w).1; eauto.
Qed.

(** A call of the callback keeps the malformed object out of the checked
    set. *)
Lemma callback_keeps_bad c (excl : IDSet) id size (s : IDSet) w :
  files w = fs -> bad ∉ s ->
  files (ForAllLocks_item c excl (checkCallback l) id size s env w).2 = fs /\
  bad ∉ (ForAllLocks_item c excl (checkCallback l) id size s env w).1.2.
Proof.
  intros Hfs Hbad.
  destruct (decide (id ∈ excl \/ size = 0)) as [Hskip|Hload].
  - rewrite ForAllLocks_item_skip by exact Hskip. auto.
  - rewrite ForAllLocks_item_load by tauto. rewrite LoadLock_run at 2.
    cbn [fst snd files]. split; [exact Hfs|].
    destruct (N.eq_dec id bad) as [->|Hne].
    + destruct (malformed_load c w Hfs) as [e ->]. exact Hbad.
    + destruct (LoadLock c id env w).1 as [lock|e]; [|exact Hbad].
      rewrite checkCallback_loaded.
      destruct (Exclusive l || Exclusive lock); [exact Hbad|]. cbn [snd].
      apply not_elem_of_union. split; [|exact Hbad].
      apply not_elem_of_singleton. congruence.
Qed.

(** Under the context of the scan, the callback passes the harmless objects
    and returns the load error for the malformed ones. *)
Lemma callback_verdict (excl : IDSet) p (s : IDSet) w :
  files w = fs -> In p fs ->
  (forall own, lockID l = Some own -> own ∈ excl) ->
  (ForAllLocks_item ctx excl (checkCallback l) p.1 (osize p.2) s env w).1.1 = None \/
  (ForAllLocks_item ctx excl (checkCallback l) p.1 (osize p.2) s env w).1.1
  = Some ErrInvalidData.
Proof.
  intros Hfs Hin Hown.
  destruct (decide (p.1 ∈ excl \/ osize p.2 = 0)) as [Hskip|Hload].
  { rewrite ForAllLocks_item_skip by exact Hskip. left. reflexivity. }
  rewrite ForAllLocks_item_load by tauto.
  rewrite LoadLock_run, backend_call_quiet. cbn [fst snd]. rewrite Hfs.
  pose proof (proj1 (List.Forall_forall _ _) objects p Hin) as Hp.
  destruct Hp as [[Hp|[Hp|(o' & lock & Hlook & Hbody & Hl & Hlock)]]|(o' & Hlook & Hbody)].
  - exfalso. apply Hload. left. apply Hown, Hp.
  - exfalso. apply Hload. right. exact Hp.
  - rewrite Hlook, Hbody, checkCallback_loaded. cbn [Exclusive set_lockID].
    rewrite Hl, Hlock. left. reflexivity.
  - rewrite Hlook, Hbody. right. reflexivity.
Qed.

Lemma bad_verdict (excl : IDSet) (s : IDSet) w :
  files w = fs -> bad ∉ excl ->
  (ForAllLocks_item ctx excl (checkCallback l) bad (osize o) s env w).1.1
  = Some ErrInvalidData.
Proof.
  intros Hfs Hbad. rewrite ForAllLocks_item_load by assumption.
  rewrite LoadLock_run, backend_call_quiet. cbn [fst snd]. rewrite Hfs.
  destruct bad_malformed as (o' & Hlook & Hbody). cbn [fst] in Hlook.
  rewrite Hlook, Hbody. reflexivity.
Qed.

(** Every attempt ends with the load error, whatever the workers do. *)
Lemma attempt_malformed (excl : IDSet) w :
  files w = fs ->
  bad ∉ excl ->
  (forall own, lockID l = Some own -> own ∈ excl) ->
  let r := attempt l ctx excl env w in
  r.1.1 = Some ErrInvalidData /\
  files r.2 = fs /\ clock r.2 = clock w /\
  (bad ∉ r.1.2) /\
  (forall own, lockID l = Some own -> own ∈ r.1.2) /\
  exists evs, trace r.2 = trace w ++ EvList :: evs /\ shapes evs = [].
Proof.
  intros Hfs Hbad Hown. cbn zeta.
  destruct (attempt_effect l ctx excl env w) as (Hf & Hc & Hs & evs & Ht & Hl).
  split; [|split; [congruence|split; [exact Hc|split; [|split]]]].
  - unfold attempt. rewrite ForAllLocks_unfold. cbn zeta. cbn [fst snd].
    rewrite backend_call_quiet. cbn [fst].
    assert (Hlist : listing ctx env w = List.map entry fs).
    { unfold listing. rewrite backend_call_quiet. cbn [fst]. rewrite Hfs. reflexivity. }
    rewrite Hlist.
    set (w1 := mkWorld (files w) (clock w) (trace w ++ [EvList])).
    set (fn := fun c => ForAllLocks_item c excl (checkCallback l)).
    set (P := fun (s : IDSet) (w' : World) => files w' = fs).
    assert (Hkeeps : forall c item s0 w0, In item (List.map entry fs) -> P s0 w0 ->
              P (fn c item.1 item.2 s0 env w0).1.2 (fn c item.1 item.2 s0 env w0).2).
    { intros c [id size] s0 w0 _ HP. subst P fn. cbn beta.
      destruct (ForAllLocks_item_effect l c excl [(id, size)] id size s0 env w0)
        as (Hf0 & _); [left; reflexivity|]. cbn [fst snd]. congruence. }
    destruct (ParallelList_run fn ctx (length (List.map entry fs))
                (Pos.to_nat (connections (workers env))) (List.map entry fs) None excl
                env w1).1.1 as [e|] eqn:Hrun.
    + destruct (ParallelList_run_some fn ctx env P (List.map entry fs) Hkeeps _ _ _ _ _ w1 e
                  (fun x H => H) Hfs Hrun) as [Hfirst|(item & s0 & w0 & Hin & HP & Hcall)];
        [discriminate|].
      apply List.in_map_iff in Hin. destruct Hin as (p & <- & Hin).
      destruct (callback_verdict excl p s0 w0 HP Hin Hown) as [Hv|Hv];
        subst fn; cbn beta in Hcall; cbn [entry fst snd] in Hcall; congruence.
    + exfalso.
      destruct (ParallelList_run_none fn ctx env P (List.map entry fs) Hkeeps _ _ _ _ _ w1
                  (Nat.le_refl _) (Pos2Nat.is_pos _) (fun x H => H) Hfs Hrun)
        as [_ Hall].
      destruct (Hall (bad, osize o)) as (s0 & w0 & HP & Hcall).
      { apply (List.in_map entry fs (bad, o)), bad_in. }
      subst fn. cbn beta in Hcall. cbn [fst snd] in Hcall.
      rewrite (bad_verdict excl s0 w0 HP Hbad) in Hcall. discriminate.
  - unfold attempt. rewrite ForAllLocks_unfold. cbn zeta. cbn [fst snd].
    apply (ParallelList_run_keeps (fun c => ForAllLocks_item c excl (checkCallback l))
             ctx env (fun (s : IDSet) w' => files w' = fs /\ bad ∉ s)
             (listing ctx env w)).
    + intros c [id size] s0 w0 _ [Hf0 Hb0]. cbn [fst snd].
      apply callback_keeps_bad; assumption.
    + auto.
    + split; [exact Hfs|exact Hbad].
  - intros own Hl'. apply Hs, Hown, Hl'.
  - exists evs. split; [exact Ht|]. eapply loads_shapes, Hl.
Qed.

Lemma checkLoop_stuck n : forall i delay (excl : IDSet) err w,
  files w = fs ->
  bad ∉ excl ->
  (forall own, lockID l = Some own -> own ∈ excl) ->
  let r := checkLoop l ctx n i delay excl err env w in
  r.1 = checkResult (match n with O => err | S _ => Some ErrInvalidData end) /\
  files r.2 = fs /\
  exists evs, trace r.2 = trace w ++ evs /\ shapes evs = schedule n i delay.
Proof.
  induction n as [|n IH]; intros i delay excl err w Hfs Hbad Hown; cbn zeta.
  - cbn. split; [reflexivity|]. split; [exact Hfs|].
    exists []. rewrite app_nil_r. split; reflexivity.
  - destruct i as [|i].
    + rewrite checkLoop_first. cbn zeta.
      destruct (attempt_malformed excl w Hfs Hbad Hown)
        as (Hres & Hf & Hc & Hb & Ho & evs & Ht & Hev).
      destruct (attempt l ctx excl env w) as [[e s] w1]. cbn [fst snd] in *.
      subst e. cbn [is_alreadyLockedError].
      destruct (IH 1%nat delay s (Some ErrInvalidData) w1 Hf Hb Ho)
        as (Hres' & Hf' & evs' & Ht' & Hsh').
      split; [rewrite Hres'; destruct n; reflexivity|].
      split; [exact Hf'|].
      exists ((EvList :: evs) ++ evs'). split.
      { rewrite Ht', Ht. rewrite <- app_assoc. reflexivity. }
      rewrite shapes_app, shapes_list, Hev, Hsh'. reflexivity.
    + rewrite checkLoop_next. cbn zeta.
      rewrite cancelableDelay_run. cbn zeta. rewrite ctx_open. cbn [fst snd].
      set (fire := clock w + Z.max 0 delay).
      set (w0 := mkWorld _ fire _).
      assert (Hfs0 : files w0 = fs).
      { unfold w0. cbn [files]. destruct (clock w <? fire); [|exact Hfs].
        pose proof (proj2 env_quiet (clock w) fire (files w)) as Hpeers.
        congruence. }
      destruct (attempt_malformed excl w0 Hfs0 Hbad Hown)
        as (Hres & Hf & Hc & Hb & Ho & evs & Ht & Hev).
      destruct (attempt l ctx excl env w0) as [[e s] w1]. cbn [fst snd] in *.
      subst e. cbn [is_alreadyLockedError].
      destruct (IH (S (S i)) (wrap64 (delay * 2)) s (Some ErrInvalidData) w1 Hf Hb Ho)
        as (Hres' & Hf' & evs' & Ht' & Hsh').
      split; [rewrite Hres'; destruct n; reflexivity|].
      split; [exact Hf'|].
      exists ((EvDelay (clock w) delay fire :: EvList :: evs) ++ evs'). split.
      { rewrite Ht', Ht. unfold w0. cbn [trace]. rewrite <- !app_assoc. reflexivity. }
      rewrite shapes_app, shapes_delay, shapes_list, Hev, Hsh'. reflexivity.
Qed.

End Malformed.




(** ** Sleeping and cancellation *)

Section Cancellation.

Variables (ctx : Ctx) (env : Env) (c : Z).
Hypothesis ctx_cancelled : done_at ctx = Some c.

Lemma backend_call_cancelled op w :
  c <= clock w -> backend_call ctx op env w = (Some ContextCanceled, w).
Proof.
  intros H. rewrite backend_call_run. unfold ctx_done. rewrite ctx_cancelled.
  apply Z.leb_le in H. rewrite H. reflexivity.
Qed.

Lemma cancelableDelay_after delay w :
  c < clock w ->
  cancelableDelay ctx delay env w
  = (Some ContextCanceled,
     mkWorld (files w) (clock w) (trace w ++ [EvDelay (clock w) delay (clock w)])).
Proof.
  intros H. rewrite cancelableDelay_run. cbn zeta. rewrite ctx_cancelled.
  change (default (clock w) (Some c)) with c.
  assert (Hlt : (c <? clock w + Z.max 0 delay) = true) by (apply Z.ltb_lt; lia).
  rewrite Hlt. cbn [orb].
  replace (Z.max (clock w) c) with (clock w) by lia.
  rewrite Z.ltb_irrefl. reflexivity.
Qed.

(** A scan under a context that is already cancelled: the listing fails, and
    the delay before the second attempt returns at once. *)
Lemma checkForOtherLocks_cancelled l w :
  c < clock w ->
  checkForOtherLocks l ctx env w
  = (Some ContextCanceled,
     mkWorld (files w) (clock w)
             (trace w ++ [EvList;
                          EvDelay (clock w) (initialWaitBetweenLockRetries env) (clock w)])).
Proof.
  intros H. unfold checkForOtherLocks. rewrite bind_run. unfold ask. cbn [fst snd].
  rewrite checkLoop_first. cbn zeta.
  rewrite (attempt_list_fault _ _ _ _ _ ContextCanceled)
    by (rewrite backend_call_cancelled by lia; reflexivity).
  cbn [fst snd is_alreadyLockedError].
  rewrite checkLoop_next. cbn zeta.
  rewrite cancelableDelay_after by exact H.
  cbn [fst snd files clock trace]. rewrite <- app_assoc. reflexivity.
Qed.

End Cancellation.

Lemma settle_run env w :
  settle env w = time_Sleep (waitBeforeLockCheck env) env w.
Proof. reflexivity. Qed.

Lemma checkExistence_run l ctx env w own :
  lockID l = Some own ->
  checkExistence l ctx env w
  = (match (backend_call ctx OpList env w).1 with
     | Some err => (false, Some err)
     | None => (has_file own (files w), None)
     end, mkWorld (files w) (clock w) (trace w ++ [EvList])).
Proof.
  intros Hown. unfold checkExistence. rewrite bind_run, repo_List_run, Hown.
  cbn [fst snd].
  destruct (backend_call ctx OpList env w).1; cbn [fst snd].
  - reflexivity.
  - rewrite <- (listing_has_file own (files w)).
    destruct (List.map _ (files w)); reflexivity.
Qed.

(** C5 (as amended).  The delay between two scan attempts is cancellable: when
    the context is done before the timer fires, [cancelableDelay] returns the
    context's error at that instant (at once when the context is done
    already).  [time.Sleep] knows no context and always lasts its full
    duration.  The settle delay of [NewLock] and of [RefreshStaleLock] is
    such a sleep: when the context is cancelled during it, the call returns
    the context's error, from the check that follows, after the full
    interval. *)
Theorem settle_delay_sleeps_through :
  (forall ctx delay env w c,
     done_at ctx = Some c -> c < clock w + Z.max 0 delay ->
     (cancelableDelay ctx delay env w).1 = Some ContextCanceled /\
     clock (cancelableDelay ctx delay env w).2 = Z.max (clock w) c) /\
  (forall d env w,
     clock (time_Sleep d env w).2 = clock w + Z.max 0 d) /\
  (forall ctx exclusive env w c lock w1 published w2,
     (fillUserInfo (new_descriptor exclusive env w) env w).1 = (lock, None) ->
     precheck lock ctx env w = (None, w1) ->
     publish lock ctx env w1 = (Ok published, w2) ->
     done_at ctx = Some c ->
     clock w2 < c < clock w2 + waitBeforeLockCheck env ->
     (NewLock ctx exclusive env w).1 = Err ContextCanceled /\
     clock (NewLock ctx exclusive env w).2 = clock w2 + waitBeforeLockCheck env) /\
  (forall ctx l env w c old w1 id w2,
     lockID l = Some old ->
     checkExistence l ctx env w = ((true, None), w1) ->
     createLock (set_Time (clock w1) l) ctx env w1 = (Ok id, w2) ->
     done_at ctx = Some c ->
     clock w2 < c < clock w2 + waitBeforeLockCheck env ->
     (RefreshStaleLock l ctx env w).1.2 = Some ContextCanceled /\
     clock (RefreshStaleLock l ctx env w).2 = clock w2 + waitBeforeLockCheck env).
Proof.
  split; [|split; [|split]].
  - intros ctx delay env w c Hc Hlt.
    apply (cancelableDelay_effect ctx delay env w); assumption.
  - intros d env w. rewrite time_Sleep_run. cbn [snd clock].
    destruct (0 <? d) eqn:E; lia.
  - intros ctx exclusive env w c lock w1 published w2 Hfill Hpre Hpub Hc Hrange.
    rewrite NewLock_unfold. cbn zeta. rewrite Hfill. cbn [fst snd].
    unfold two_phase. rewrite (bind_run_eq _ _ _ _ _ _ Hpre).
    rewrite (bind_run_eq _ _ _ _ _ _ Hpub).
    rewrite bind_run, settle_run, time_Sleep_run. cbn [fst snd].
    assert (Hpos : (0 <? waitBeforeLockCheck env) = true) by (apply Z.ltb_lt; lia).
    rewrite Hpos.
    unfold postcheck. rewrite bind_run.
    rewrite (checkForOtherLocks_cancelled ctx env c Hc)
      by (cbn [clock]; lia).
    cbn [fst snd]. rewrite bind_run. unfold ret. cbn [fst snd].
    split; [reflexivity|].
    unfold publish in Hpub. rewrite bind_run in Hpub.
    destruct (createLock lock ctx env w1) as [[id|e] w2'] eqn:Hsave;
      cbn [fst snd] in Hpub; [|discriminate].
    injection Hpub as <- <-.
    rewrite (Unlock_held _ id) by reflexivity.
    rewrite RemoveUnpacked_clock. reflexivity.
  - intros ctx l env w c old w1 id w2 Hold Hfirst Hsave Hc Hrange.
    unfold RefreshStaleLock.
    rewrite (bind_run_eq _ _ _ _ _ _ Hfirst). cbn [fst snd negb].
    unfold time_Now, get. rewrite bind_run. cbn [fst snd].
    rewrite (bind_run_eq _ _ _ _ _ _ Hsave).
    rewrite bind_run. unfold ask. cbn [fst snd].
    rewrite bind_run, time_Sleep_run. cbn [fst snd].
    assert (Hpos : (0 <? waitBeforeLockCheck env) = true) by (apply Z.ltb_lt; lia).
    rewrite Hpos. rewrite bind_run.
    rewrite (checkExistence_run _ _ _ _ old) by exact Hold.
    rewrite (backend_call_cancelled ctx env c Hc) by (cbn [fst snd clock]; lia).
    cbn [fst snd]. rewrite bind_run, delayedCancelContext_run. cbn [fst snd].
    rewrite bind_run. unfold ret. cbn [fst snd].
    split; [reflexivity|].
    rewrite RemoveUnpacked_clock. reflexivity.
Qed.

Lemma settle_delay_sleeps_through_witness :
  let ctx := mkCtx (Some (Sample.t0 + 100 * Millisecond)) in
  (NewLock ctx true Sample.env Sample.empty_world).1 = Err ContextCanceled /\
  clock (NewLock ctx true Sample.env Sample.empty_world).2
  = Sample.t0 + 200 * Millisecond.
Proof.
  cbn zeta.
  refine (proj1 (proj2 (proj2 settle_delay_sleeps_through))
            (mkCtx (Some (Sample.t0 + 100 * Millisecond))) true Sample.env
            Sample.empty_world (Sample.t0 + 100 * Millisecond)
            _ _ _ (mkWorld _ Sample.t0 _) eq_refl eq_refl eq_refl eq_refl _).
  vm_compute. split; reflexivity.
Defined.

(** C5 (as stated) fails.  The context is cancelled 100 ms after [NewLock]
    was called on an empty store, during the settle delay of 200 ms: the
    sleep logged is the full one, and the cancellation is returned only when
    the clock has moved by the 200 ms.  The same for [RefreshStaleLock]. *)
Lemma settle_delay_ignores_cancellation :
  let ctx := mkCtx (Some (Sample.t0 + 100 * Millisecond)) in
  let acquire := NewLock ctx true Sample.env Sample.empty_world in
  let held := mkLock (Sample.t0 - Minute) true "host-a" "alice" 4242 1000 1000
                     (Some 5%N) in
  let refresh := RefreshStaleLock held ctx Sample.env
                   (Sample.world_of [(5%N, Sample.obj_of held)]) in
  acquire.1 = Err ContextCanceled /\
  clock acquire.2 = Sample.t0 + 200 * Millisecond /\
  In (EvSleep Sample.t0 (200 * Millisecond)) (trace acquire.2) /\
  refresh.1.2 = Some ContextCanceled /\
  clock refresh.2 = Sample.t0 + 200 * Millisecond /\
  In (EvSleep Sample.t0 (200 * Millisecond)) (trace refresh.2).
Proof. vm_compute. intuition. Qed.

(** ** Refreshing a stale lock *)

(** C8.  [RefreshStaleLock] has found its lock object and saved the
    replacement.  If the old object is gone when the settle delay is over and
    the second check lists the store, the call returns [ErrRemovedLock] and
    leaves [lockID] as it was; it removes the replacement, so that, the store
    accepting that removal, neither the old id nor the replacement's id is in
    the store afterwards. *)
Theorem RefreshStaleLock_guard (l : Lock) (ctx : Ctx) (env : Env) (w w1 w2 w3 : World)
    (old id : ID) :
  lockID l = Some old ->
  checkExistence l ctx env w = ((true, None), w1) ->
  createLock (set_Time (clock w1) l) ctx env w1 = (Ok id, w2) ->
  settle env w2 = (tt, w3) ->
  has_file old (files w3) = false ->
  (backend_call ctx OpList env w3).1 = None ->
  (backend_call (delayedCancelContext ctx UnlockCancelDelay env w3).1 (OpRemove id)
                env w3).1
  = None ->
  let r := RefreshStaleLock l ctx env w in
  r.1.2 = Some ErrRemovedLock /\
  lockID r.1.1 = Some old /\
  has_file old (files r.2) = false /\
  has_file id (files r.2) = false.
Proof.
  intros Hold Hfirst Hsave Hsettle Hgone Hlist Hremove. cbn zeta.
  assert (Hrun : RefreshStaleLock l ctx env w =
                 ((set_Time (clock w1) l, Some ErrRemovedLock),
                  mkWorld (remove_file id (files w3)) (clock w3)
                          ((trace w3 ++ [EvList]) ++ [EvRemove id]))).
  { unfold RefreshStaleLock.
    rewrite (bind_run_eq _ _ _ _ _ _ Hfirst). cbn [fst snd negb].
    unfold time_Now, get. rewrite bind_run. cbn [fst snd].
    rewrite (bind_run_eq _ _ _ _ _ _ Hsave).
    rewrite bind_run. unfold ask. cbn [fst snd].
    rewrite bind_run. rewrite settle_run in Hsettle. rewrite Hsettle. cbn [fst snd].
    rewrite bind_run.
    rewrite (checkExistence_run _ _ _ _ old) by exact Hold.
    rewrite Hlist, Hgone. cbn [fst snd negb].
    rewrite bind_run, delayedCancelContext_run. cbn [fst snd negb].
    rewrite bind_run, RemoveUnpacked_run.
    rewrite delayedCancelContext_run in Hremove.
    rewrite backend_call_run in Hremove |- *. cbn [fst snd clock] in Hremove |- *.
    rewrite Hremove. reflexivity. }
  rewrite Hrun. cbn [fst snd files set_Time lockID].
  split; [reflexivity|]. split; [exact Hold|]. split.
  - destruct (N.eq_dec id old) as [->|Hne].
    + apply has_file_remove_same.
    + rewrite has_file_remove_other by exact Hne. exact Hgone.
  - apply has_file_remove_same.
Qed.

Lemma RefreshStaleLock_guard_witness :
  let held := mkLock (Sample.t0 - Minute) true "host-a" "alice" 4242 1000 1000
                     (Some 5%N) in
  let env := with_peers (fun _ _ fs => remove_file 5%N fs) Sample.env in
  let r := RefreshStaleLock held background env
             (Sample.world_of [(5%N, Sample.obj_of held)]) in
  r.1.2 = Some ErrRemovedLock /\ lockID r.1.1 = Some 5%N /\ files r.2 = [].
Proof.
  cbn zeta.
  destruct (RefreshStaleLock_guard
              (mkLock (Sample.t0 - Minute) true "host-a" "alice" 4242 1000 1000
                      (Some 5%N))
              background
              (with_peers (fun _ _ fs => remove_file 5%N fs) Sample.env)
              (Sample.world_of
                 [(5%N, Sample.obj_of
                          (mkLock (Sample.t0 - Minute) true "host-a" "alice" 4242
                                  1000 1000 (Some 5%N)))])
              _ _ _ 5%N 78251088364275917955072%N
              eq_refl eq_refl eq_refl eq_refl eq_refl eq_refl eq_refl)
    as (Herr & Hid & _ & _).
  split; [exact Herr|]. split; [exact Hid|]. vm_compute. reflexivity.
Defined.

(** ** Scans of an exclusive acquirer *)

Section ExclusiveScan.

Variables (l : Lock) (ctx : Ctx) (env : Env).
Hypothesis l_exclusive : Exclusive l = true.

Lemma checkCallback_exclusive id r (s : IDSet) :
  exists e, checkCallback l id r s = (Some e, s).
Proof.
  destruct r as [lock|e]; cbn [checkCallback].
  - rewrite l_exclusive. eauto.
  - eauto.
Qed.

Lemma callback_exclusive c (excl : IDSet) id size (s : IDSet) w :
  (ForAllLocks_item c excl (checkCallback l) id size s env w).1.2 = s /\
  ((ForAllLocks_item c excl (checkCallback l) id size s env w).1.1 = None ->
   id ∈ excl \/ size = 0).
Proof.
  destruct (decide (id ∈ excl \/ size = 0)) as [Hskip|Hload].
  - rewrite ForAllLocks_item_skip by exact Hskip. auto.
  - rewrite ForAllLocks_item_load by tauto.
    destruct (checkCallback_exclusive id (LoadLock c id env w).1 s) as [e He].
    rewrite He. split; [reflexivity|discriminate].
Qed.

Lemma attempt_exclusive (excl : IDSet) w :
  (attempt l ctx excl env w).1.2 = excl /\
  ((attempt l ctx excl env w).1.1 = None ->
   forall p, In p (files w) -> p.1 ∈ excl \/ osize p.2 = 0).
Proof.
  unfold attempt. rewrite ForAllLocks_unfold. cbn zeta. cbn [fst snd].
  set (fn := fun c => ForAllLocks_item c excl (checkCallback l)).
  set (w1 := mkWorld (files w) (clock w) (trace w ++ [EvList])).
  split.
  - apply (ParallelList_run_keeps fn ctx env (fun (s : IDSet) _ => s = excl)
             (listing ctx env w)).
    + intros c [id size] s0 w0 _ ->. subst fn. cbn [fst snd].
      apply callback_exclusive.
    + auto.
    + reflexivity.
  - intros Hnone p Hin.
    destruct (ParallelList_run fn ctx (length (listing ctx env w))
                (Pos.to_nat (connections (workers env))) (listing ctx env w) None excl
                env w1).1.1 as [e|] eqn:Hrun; [discriminate|].
    destruct (ParallelList_run_none fn ctx env (fun _ _ => True) (listing ctx env w)
                (fun _ _ _ _ _ _ => I) _ _ _ _ _ w1
                (Nat.le_refl _) (Pos2Nat.is_pos _) (fun x H => H) I Hrun)
      as [_ Hall].
    assert (Hlist : listing ctx env w
                    = List.map (fun p : ID * Obj => (p.1, osize p.2)) (files w)).
    { unfold listing. destruct (backend_call ctx OpList env w).1; [discriminate|].
      reflexivity. }
    destruct (Hall (p.1, osize p.2)) as (s0 & w0 & _ & Hcall).
    { rewrite Hlist. apply (List.in_map (fun p : ID * Obj => (p.1, osize p.2))), Hin. }
    subst fn. cbn [fst snd] in Hcall.
    apply (proj2 (callback_exclusive ctx excl p.1 (osize p.2) s0 w0)), Hcall.
Qed.

Hypothesis env_alone : alone env.

Lemma cancelableDelay_files delay w :
  files (cancelableDelay ctx delay env w).2 = files w.
Proof.
  rewrite cancelableDelay_run. cbn zeta. cbn [snd files].
  destruct (_ <? _); [apply env_alone|reflexivity].
Qed.

Lemma checkLoop_none n : forall i delay (excl : IDSet) err w,
  (checkLoop l ctx (S n) i delay excl err env w).1 = None ->
  forall p, In p (files w) -> p.1 ∈ excl \/ osize p.2 = 0.
Proof.
  induction n as [|n IH]; intros i delay excl err w.
  - destruct i as [|i].
    + rewrite checkLoop_first. cbn zeta.
      destruct (attempt_exclusive excl w) as [_ Hnone].
      destruct (attempt l ctx excl env w) as [[[e|] s] w1]; cbn [fst snd] in *.
      * destruct (is_alreadyLockedError e); [discriminate|].
        cbn. destruct (Is_ErrInvalidData e); discriminate.
      * intros _. apply Hnone. reflexivity.
    + rewrite checkLoop_next. cbn zeta.
      pose proof (cancelableDelay_files delay w) as Hfiles.
      destruct (cancelableDelay ctx delay env w) as [[e|] w0]; cbn [fst snd] in *;
        [discriminate|].
      destruct (attempt_exclusive excl w0) as [_ Hnone].
      destruct (attempt l ctx excl env w0) as [[[e|] s] w1]; cbn [fst snd] in *.
      * destruct (is_alreadyLockedError e); [discriminate|].
        cbn. destruct (Is_ErrInvalidData e); discriminate.
      * intros _. rewrite <- Hfiles. apply Hnone. reflexivity.
  - destruct i as [|i].
    + rewrite checkLoop_first. cbn zeta.
      destruct (attempt_exclusive excl w) as [Hset Hnone].
      destruct (attempt_effect l ctx excl env w) as (Hf & _).
      destruct (attempt l ctx excl env w) as [[[e|] s] w1]; cbn [fst snd] in *.
      * destruct (is_alreadyLockedError e); [discriminate|].
        intros H. subst s. rewrite <- Hf. apply (IH _ _ _ _ _ H).
      * intros _. apply Hnone. reflexivity.
    + rewrite checkLoop_next. cbn zeta.
      pose proof (cancelableDelay_files delay w) as Hfiles.
      destruct (cancelableDelay ctx delay env w) as [[e|] w0]; cbn [fst snd] in *;
        [discriminate|].
      destruct (attempt_exclusive excl w0) as [Hset Hnone].
      destruct (attempt_effect l ctx excl env w0) as (Hf & _).
      destruct (attempt l ctx excl env w0) as [[[e|] s] w1]; cbn [fst snd] in *.
      * destruct (is_alreadyLockedError e); [discriminate|].
        intros H. subst s. rewrite <- Hfiles, <- Hf. apply (IH _ _ _ _ _ H).
      * intros _. rewrite <- Hfiles. apply Hnone. reflexivity.
Qed.

(** What a successful scan of an exclusive acquirer proves: every object of
    the store is the acquirer's own or empty. *)
Lemma checkForOtherLocks_clear w :
  (checkForOtherLocks l ctx env w).1 = None ->
  forall p, In p (files w) -> lockID l = Some p.1 \/ osize p.2 = 0.
Proof.
  unfold checkForOtherLocks. rewrite bind_run. unfold ask. cbn [fst snd].
  intros H p Hin. destruct (checkLoop_none _ _ _ _ _ _ H p Hin) as [Hp|Hp]; [|auto].
  left. destruct (lockID l) as [own|].
  - apply elem_of_singleton in Hp. congruence.
  - apply elem_of_empty in Hp. contradiction.
Qed.

End ExclusiveScan.

(** Scans do not change the lock objects when nobody else writes. *)
Lemma checkLoop_files (l : Lock) (ctx : Ctx) env (Hq : alone env) n :
  forall i delay (excl : IDSet) err w,
  files (checkLoop l ctx n i delay excl err env w).2 = files w.
Proof.
  induction n as [|n IH]; intros i delay excl err w; [reflexivity|].
  destruct i as [|i].
  - rewrite checkLoop_first. cbn zeta.
    destruct (attempt_effect l ctx excl env w) as (Hf & _).
    destruct (attempt l ctx excl env w) as [[[e|] s] w1]; cbn [fst snd] in *;
      [|exact Hf].
    destruct (is_alreadyLockedError e); [exact Hf|].
    rewrite IH. exact Hf.
  - rewrite checkLoop_next. cbn zeta.
    pose proof (cancelableDelay_files ctx env Hq delay w) as Hfiles.
    destruct (cancelableDelay ctx delay env w) as [[e|] w0]; cbn [fst snd] in *;
      [exact Hfiles|].
    destruct (attempt_effect l ctx excl env w0) as (Hf & _).
    destruct (attempt l ctx excl env w0) as [[[e|] s] w1]; cbn [fst snd] in *;
      [|congruence].
    destruct (is_alreadyLockedError e); cbn [fst snd]; [congruence|].
    rewrite IH. congruence.
Qed.

Lemma checkForOtherLocks_files (l : Lock) (ctx : Ctx) env (Hq : alone env) w :
  files (checkForOtherLocks l ctx env w).2 = files w.
Proof.
  unfold checkForOtherLocks. rewrite bind_run. unfold ask. cbn [fst snd].
  apply checkLoop_files, Hq.
Qed.

(** ** Clients acquiring concurrently *)

(** The three steps in a row are [NewLock]. *)
Lemma NewLock_steps (ctx : Ctx) (exclusive : bool) env w :
  (checked <~ client_step ctx exclusive Idle ;;
   published <~ client_step ctx exclusive checked ;;
   client_step ctx exclusive published) env w
  = (outcome (NewLock ctx exclusive env w).1, (NewLock ctx exclusive env w).2).
Proof.
  rewrite NewLock_unfold. cbn zeta. unfold bind.
  cbn [client_step]. unfold step_check.
  destruct (fillUserInfo (new_descriptor exclusive env w) env w).1 as [lock [e|]];
    cbn [fst snd]; [reflexivity|].
  unfold two_phase, bind, ret.
  destruct (precheck lock ctx env w) as [[e|] w1]; cbn [fst snd client_step];
    [reflexivity|].
  unfold step_publish, bind, ret.
  destruct (publish lock ctx env w1) as [[lock'|e] w2]; cbn [fst snd client_step];
    [|reflexivity].
  unfold step_finish, bind, ret. cbn [fst snd].
  destruct (settle env w2) as [[] w3]; cbn [fst snd].
  destruct (postcheck lock' ctx env w3) as [[held|e] w4]; reflexivity.
Qed.

(** ** Lookups in the store's files *)

Section Lookups.

Implicit Types (fs : list (ID * Obj)) (id : ID).

Lemma lookup_file_In id fs o : lookup_file id fs = Some o -> In (id, o) fs.
Proof.
  unfold lookup_file. induction fs as [|[i ob] fs IH]; cbn; [discriminate|].
  destruct (N.eqb i id) eqn:E; cbn.
  - apply N.eqb_eq in E. subst i. intros H. injection H as <-. auto.
  - intros H. right. apply IH, H.
Qed.

Lemma lookup_file_remove_other id id' fs :
  id <> id' -> lookup_file id' (remove_file id fs) = lookup_file id' fs.
Proof.
  intros Hne. unfold lookup_file, remove_file.
  induction fs as [|[i ob] fs IH]; [reflexivity|].
  cbn. destruct (N.eqb i id) eqn:E; cbn.
  - apply N.eqb_eq in E. subst i.
    destruct (N.eqb id id') eqn:E'; [apply N.eqb_eq in E'; contradiction|].
    exact IH.
  - destruct (N.eqb i id'); [reflexivity|exact IH].
Qed.

Lemma lookup_file_remove_same id fs : lookup_file id (remove_file id fs) = None.
Proof.
  unfold lookup_file, remove_file.
  induction fs as [|[i ob] fs IH]; [reflexivity|].
  cbn. destruct (N.eqb i id) eqn:E; cbn; [exact IH|].
  rewrite E. exact IH.
Qed.

Lemma lookup_file_app id fs1 fs2 :
  lookup_file id (fs1 ++ fs2)
  = match lookup_file id fs1 with
    | Some o => Some o
    | None => lookup_file id fs2
    end.
Proof.
  unfold lookup_file. induction fs1 as [|[i ob] fs1 IH]; [reflexivity|].
  cbn. destruct (N.eqb i id); [reflexivity|exact IH].
Qed.

Lemma lookup_file_saved id o fs :
  lookup_file id (remove_file id fs ++ [(id, o)]) = Some o.
Proof.
  rewrite lookup_file_app, lookup_file_remove_same.
  unfold lookup_file. cbn. rewrite N.eqb_refl. reflexivity.
Qed.

Lemma lookup_file_saved_other id id' o fs :
  id <> id' ->
  lookup_file id' (remove_file id fs ++ [(id, o)]) = lookup_file id' fs.
Proof.
  intros Hne. rewrite lookup_file_app, lookup_file_remove_other by exact Hne.
  destruct (lookup_file id' fs); [reflexivity|].
  unfold lookup_file. cbn.
  destruct (N.eqb id id') eqn:E; [apply N.eqb_eq in E; contradiction|reflexivity].
Qed.

End Lookups.

(** ** Mutual exclusion of exclusive acquirers *)

Section Exclusion.

Variables (envs : nat -> Env) (ctxs : nat -> Ctx) (exclusive : nat -> bool).

(** The store: one way of naming objects, no empty encodings, and distinct
    names for the descriptors of distinct clients. *)
Variable h : Lock -> ID.

Hypothesis same_store : forall i, idOf (envs i) = h.
Hypothesis never_empty : forall i lock, jsonSize (envs i) lock <> 0.
Hypothesis distinct_ids :
  forall i j li lj, i <> j -> owns envs i li -> owns envs j lj ->
                    h (descriptor li) <> h (descriptor lj).
Hypothesis only_clients : forall i, alone (envs i).
Hypothesis all_exclusive : forall i, exclusive i = true.

Lemma descriptor_set_lockID x lock : descriptor (set_lockID x lock) = descriptor lock.
Proof. reflexivity. Qed.

Lemma owns_fresh i w :
  owns envs i (fillUserInfo (new_descriptor (exclusive i) (envs i) w) (envs i) w).1.1 /\
  lockID (fillUserInfo (new_descriptor (exclusive i) (envs i) w) (envs i) w).1.1 = None.
Proof.
  rewrite fillUserInfo_run. unfold new_descriptor, owns, host_name. cbn zeta.
  rewrite all_exclusive.
  destruct (user_current (envs i)), (os_hostname (envs i)); cbn; auto.
Qed.

Lemma settle_files i w : files (settle (envs i) w).2 = files w.
Proof.
  rewrite settle_run, time_Sleep_run. cbn [snd files].
  destruct (0 <? _); [apply only_clients|reflexivity].
Qed.

(** One step of a client whose phase is in order. *)
Lemma client_step_ok i ph w :
  phase_ok envs h i ph w ->
  let r := client_step (ctxs i) (exclusive i) ph (envs i) w in
  phase_ok envs h i r.1 r.2 /\
  frames h ph w r.2 /\
  (forall lock, r.1 = Held lock -> ph <> Held lock ->
     forall p, In p (files r.2) -> p.1 = h (descriptor lock) \/ osize p.2 = 0).
Proof.
  intros Hok. cbn zeta. destruct ph as [|lock|lock|lock|e]; cbn [client_step].
  - (* the check before *)
    unfold step_check. destruct (owns_fresh i w) as [Hown Hnil].
    destruct (fillUserInfo _ (envs i) w).1 as [lock [e|]]; cbn [fst snd] in *.
    { split; [exact I|]. split; [reflexivity|discriminate]. }
    unfold precheck.
    pose proof (checkForOtherLocks_files lock (ctxs i) (envs i) (only_clients i) w)
      as Hfiles.
    destruct (checkForOtherLocks lock (ctxs i) (envs i) w) as [[e|] w1];
      cbn [fst snd] in *.
    + split; [exact I|]. split; [exact Hfiles|discriminate].
    + split; [split; assumption|]. split; [exact Hfiles|discriminate].
  - (* the lock file is created *)
    destruct Hok as [Hown Hnil].
    unfold step_publish, publish, bind, ret, createLock.
    rewrite SaveJSONUnpacked_run, same_store.
    destruct (backend_call _ _ _ _).1 as [e|];
      cbn [fst snd phase_ok frames phase_lock files].
    { split; [exact I|]. split; [reflexivity|discriminate]. }
    split; [|split; [|discriminate]].
    + split; [exact Hown|]. split; [reflexivity|].
      rewrite descriptor_set_lockID.
      eexists. split; [apply lookup_file_saved|]. cbn. apply never_empty.
    + intros id Hid. apply lookup_file_saved_other. congruence.
  - (* the wait and the check after *)
    destruct Hok as (Hown & Hid & o & Hlook & Hsize).
    unfold step_finish, bind, ret. cbn [fst snd].
    pose proof (settle_files i w) as Hsettle.
    destruct (settle (envs i) w) as [[] w1]; cbn [fst snd] in *.
    unfold postcheck, bind, ret.
    pose proof (checkForOtherLocks_files lock (ctxs i) (envs i) (only_clients i) w1)
      as Hfiles.
    pose proof (checkForOtherLocks_clear lock (ctxs i) (envs i) (proj2 (proj2 Hown))
                  (only_clients i) w1) as Hclear.
    destruct (checkForOtherLocks lock (ctxs i) (envs i) w1) as [[e|] w2];
      cbn [fst snd] in *.
    + (* the lock file is removed again *)
      rewrite (Unlock_held _ _ _ _ _ Hid), RemoveUnpacked_run.
      cbn [phase_ok frames phase_lock].
      split; [exact I|]. split; [|discriminate].
      intros id Hne.
      destruct (backend_call _ _ _ _).1; cbn [fst snd files].
      * congruence.
      * rewrite lookup_file_remove_other by congruence. congruence.
    + (* the lock is held *)
      cbn [phase_ok frames phase_lock].
      split; [|split].
      * split; [exact Hown|]. split; [exact Hid|]. exists o.
        split; [congruence|exact Hsize].
      * intros id _. congruence.
      * intros l' [= <-] _ p Hin.
        rewrite Hfiles in Hin.
        destruct (Hclear eq_refl p Hin) as [Hp|Hp]; [|auto].
        left. congruence.
  - unfold ret. cbn [fst snd phase_ok frames phase_lock].
    split; [exact Hok|]. split; [reflexivity|].
    intros l' [= <-] Hne. contradiction.
  - unfold ret. cbn [fst snd phase_ok frames phase_lock].
    split; [exact I|]. split; [reflexivity|discriminate].
Qed.

Lemma phase_ok_owns i ph w lock :
  phase_ok envs h i ph w -> phase_lock ph = Some lock -> owns envs i lock.
Proof.
  destruct ph; cbn; intros Hok [= <-]; [apply Hok|apply Hok|apply Hok].
Qed.

(** The step of one client keeps the phases of the others in order. *)
Lemma phase_ok_frame i j ph phj w w' :
  i <> j -> phase_ok envs h i ph w -> frames h ph w w' ->
  phase_ok envs h j phj w -> phase_ok envs h j phj w'.
Proof.
  intros Hne Hi Hframe Hj.
  assert (Hstored : forall lj, stored envs h j lj w -> stored envs h j lj w').
  { intros lj (Hown & Hid & o & Hlook & Hsize).
    split; [exact Hown|]. split; [exact Hid|]. exists o. split; [|exact Hsize].
    unfold frames in Hframe.
    destruct (phase_lock ph) as [li|] eqn:Hli.
    - rewrite Hframe; [exact Hlook|].
      intros Heq. apply (distinct_ids i j li lj Hne); [|exact Hown|congruence].
      apply (phase_ok_owns i ph w li Hi Hli).
    - rewrite Hframe. exact Hlook. }
  destruct phj; cbn [phase_ok] in *; auto.
Qed.

Lemma stored_not_hidden i j li lj w :
  i <> j -> stored envs h i li w -> stored envs h j lj w ->
  (forall p, In p (files w) -> p.1 = h (descriptor li) \/ osize p.2 = 0) ->
  False.
Proof.
  intros Hne (Howni & _) (Hownj & _ & o & Hlook & Hsize) Hclear.
  destruct (Hclear _ (lookup_file_In _ _ _ Hlook)) as [Heq|Hz]; cbn [fst snd] in *.
  - apply (distinct_ids i j li lj Hne Howni Hownj). congruence.
  - contradiction.
Qed.

Lemma run_client_inv i s : Inv envs h s -> Inv envs h (run_client envs ctxs exclusive i s).
Proof.
  intros [Hphases Hone]. unfold run_client.
  destruct (phases s !! i) as [ph|] eqn:Hi; [|split; assumption].
  cbn zeta.
  destruct (client_step_ok i ph (world s) (Hphases i ph Hi)) as (Hok & Hframe & Hheld).
  assert (Hlen : (i < length (phases s))%nat) by (eapply lookup_lt_Some; eassumption).
  set (r := client_step (ctxs i) (exclusive i) ph (envs i) (world s)) in *.
  assert (Hothers : forall j phj, j <> i -> phases s !! j = Some phj ->
                                  phase_ok envs h j phj r.2).
  { intros j phj Hne Hj.
    apply (phase_ok_frame i j ph phj (world s) r.2); auto. }
  assert (Hnew : forall j lj li, j <> i -> phases s !! j = Some (Held lj) ->
                                 r.1 = Held li -> False).
  { intros j lj li Hne Hj Hr.
    assert (Hfresh : ph <> Held li -> False).
    { intros Hph. apply (stored_not_hidden i j li lj r.2).
      - congruence.
      - rewrite Hr in Hok. exact Hok.
      - apply (Hothers j (Held lj) Hne Hj).
      - apply (Hheld li Hr Hph). }
    destruct ph as [|l0|l0|l0|e0]; try (apply Hfresh; discriminate).
    apply Hne. symmetry. apply (Hone i j l0 lj Hi Hj). }
  split; cbn [phases world].
  - intros j phj Hj. destruct (decide (j = i)) as [->|Hne].
    + rewrite list_lookup_insert_eq in Hj by exact Hlen.
      injection Hj as <-. exact Hok.
    + rewrite list_lookup_insert_ne in Hj by congruence.
      apply (Hothers j phj Hne Hj).
  - intros a b la lb Ha Hb.
    destruct (decide (a = i)) as [->|Hna], (decide (b = i)) as [->|Hnb];
      [reflexivity| | |].
    + rewrite list_lookup_insert_eq in Ha by exact Hlen. injection Ha as Ha.
      rewrite list_lookup_insert_ne in Hb by congruence.
      exfalso. apply (Hnew b lb la Hnb Hb Ha).
    + rewrite list_lookup_insert_eq in Hb by exact Hlen. injection Hb as Hb.
      rewrite list_lookup_insert_ne in Ha by congruence.
      exfalso. apply (Hnew a la lb Hna Ha Hb).
    + rewrite list_lookup_insert_ne in Ha, Hb by congruence.
      apply (Hone a b la lb Ha Hb).
Qed.

Lemma run_inv schedule : forall s, Inv envs h s -> Inv envs h (run envs ctxs exclusive schedule s).
Proof.
  induction schedule as [|i schedule IH]; intros s Hs; [exact Hs|].
  cbn. apply IH, run_client_inv, Hs.
Qed.

Lemma start_inv n w : Inv envs h (start n w).
Proof.
  split; cbn [phases world start].
  - intros i ph Hi. apply lookup_replicate in Hi as [-> _]. exact I.
  - intros i j li lj Hi. apply lookup_replicate in Hi as [Hi _]. discriminate.
Qed.

End Exclusion.


Lemma two_clients_distinct_ids i j li lj :
  i <> j -> owns two_clients i li -> owns two_clients j lj ->
  Sample.sample_id (descriptor li) <> Sample.sample_id (descriptor lj).
Proof.
  intros Hne (Hpi & _) (Hpj & _). unfold Sample.sample_id. cbn [descriptor set_lockID PID Time].
  rewrite Hpi, Hpj. cbn [two_clients with_pid os_pid].
  intros Heq. apply Z2N.inj in Heq.
  - pose proof (Z.mod_pos_bound (Z.abs (Time li)) (2 ^ 64) ltac:(lia)).
    pose proof (Z.mod_pos_bound (Z.abs (Time lj)) (2 ^ 64) ltac:(lia)).
    lia.
  - pose proof (Z.mod_pos_bound (Z.abs (Time li)) (2 ^ 64) ltac:(lia)). lia.
  - pose proof (Z.mod_pos_bound (Z.abs (Time lj)) (2 ^ 64) ltac:(lia)). lia.
Qed.



(** ** The scenarios of the specification, on the sample environment *)

Module Scenarios.

Import Sample.

Example uncontested_exclusive :
  let r := NewLock background true env empty_world in
  match r.1 with
  | Ok lock =>
      length (files r.2) = 1%nat /\
      files (Unlock (Some lock) background env r.2).2 = []
  | Err _ => False
  end.
Proof. vm_compute. split; reflexivity. Qed.

Example reader_and_reader :
  let r := NewLock background false env (world_of [(1%N, obj_of reader)]) in
  match r.1 with
  | Ok lock => length (files r.2) = 2%nat
  | Err _ => False
  end.
Proof. vm_compute. reflexivity. Qed.

Example reader_blocks_writer :
  let r := NewLock background true env (world_of [(1%N, obj_of reader)]) in
  match r.1 with
  | Err (alreadyLockedError other) =>
      PID other = 77 /\ files r.2 = [(1%N, obj_of reader)]
  | _ => False
  end.
Proof. vm_compute. split; reflexivity. Qed.

Example writer_blocks_reader :
  let r := NewLock background false env (world_of [(1%N, obj_of writer)]) in
  match r.1 with
  | Err (alreadyLockedError other) => PID other = 78
  | _ => False
  end.
Proof. vm_compute. reflexivity. Qed.

Example empty_object_ignored :
  let r := NewLock background true env (world_of [(9%N, placeholder)]) in
  match r.1 with
  | Ok lock => length (files r.2) = 2%nat
  | Err _ => False
  end.
Proof. vm_compute. reflexivity. Qed.

Example stale_same_host_dead_process :
  (Stale (mkLock t0 false "host-a" "alice" 999999 1000 1000 (Some 1%N))
         (with_processExists (fun l => negb (PID l =? 999999)) env) empty_world).1
  = true.
Proof. vm_compute. reflexivity. Qed.

Example stale_by_age :
  (Stale (mkLock (t0 - 45 * Minute) false "other-host" "bob" 77 1001 1001 (Some 1%N))
         env empty_world).1
  = true.
Proof. vm_compute. reflexivity. Qed.

Example refresh_replaces :
  let held := mkLock (t0 - 10 * Minute) true "host-a" "alice" 4242 1000 1000 (Some 5%N) in
  let r := Refresh held background env (world_of [(5%N, obj_of held)]) in
  r.1.2 = None /\ Time r.1.1 = t0 /\ has_file 5%N (files r.2) = false /\
  match lockID r.1.1 with
  | Some id => has_file id (files r.2) = true
  | None => False
  end.
Proof. vm_compute. repeat split. Qed.

End Scenarios.

(** * Further properties of lock.go *)

(** ** Staleness over time *)

Lemma saturate_mono x y : x <= y -> saturate x <= saturate y.
Proof.
  unfold saturate, minDuration, maxDuration. intros H.
  destruct (x <? - 2 ^ 63) eqn:E1, (y <? - 2 ^ 63) eqn:E2;
    destruct (2 ^ 63 - 1 <? x) eqn:E3, (2 ^ 63 - 1 <? y) eqn:E4; lia.
Qed.

(** X1.  Staleness does not revert as time passes: a lock that [Stale] calls
    stale at one instant is called stale at every later instant, in the same
    environment. *)
Theorem Stale_stays (l : Lock) (env : Env) (w w' : World) :
  clock w <= clock w' ->
  (Stale l env w).1 = true ->
  (Stale l env w').1 = true.
Proof.
  intros Hclock. rewrite !Stale_unfold. cbn [fst].
  destruct (StaleLockTimeout env <? saturate (clock w - Time l)) eqn:E.
  - intros _. apply Z.ltb_lt in E.
    pose proof (saturate_mono (clock w - Time l) (clock w' - Time l) ltac:(lia)).
    assert (E' : (StaleLockTimeout env <? saturate (clock w' - Time l)) = true)
      by (apply Z.ltb_lt; lia).
    rewrite E'. reflexivity.
  - intros H. rewrite H.
    destruct (StaleLockTimeout env <? saturate (clock w' - Time l)); reflexivity.
Qed.

Lemma Stale_stays_witness :
  let old := mkLock (Sample.t0 - 31 * Minute) false "host-b" "bob" 77 1001 1001
                    (Some 1%N) in
  (Stale old Sample.env (mkWorld [] (Sample.t0 + Minute) [])).1 = true.
Proof.
  cbn zeta.
  apply (Stale_stays _ Sample.env Sample.empty_world (mkWorld [] (Sample.t0 + Minute) []));
    [vm_compute; discriminate|reflexivity].
Defined.

(** ** Release under a cancelled context *)

(** X2.  [Unlock] removes the lock file also under a context that is done,
    however long ago it was cancelled: the context of the removal is made
    anew, and it is done only one minute after the later of the caller's
    cancellation and the call.  So an [Unlock] the store has no fault for
    returns no error and leaves no file of the lock's id, whatever the
    caller's context. *)
Theorem Unlock_grace (l : Lock) (id : ID) (ctx : Ctx) (env : Env) (w : World) :
  lockID l = Some id ->
  fault env (clock w) (OpRemove id) = None ->
  let r := Unlock (Some l) ctx env w in
  r.1 = None /\
  files r.2 = remove_file id (files w) /\
  has_file id (files r.2) = false /\
  (forall c, done_at ctx = Some c ->
     done_at (delayedCancelContext ctx UnlockCancelDelay env w).1
     = Some (Z.max c (clock w) + 1 * Minute)) /\
  (forall t, t < clock w + 1 * Minute ->
     ctx_done (delayedCancelContext ctx UnlockCancelDelay env w).1 t = false).
Proof.
  intros Hid Hfault. cbn zeta. rewrite (Unlock_held l id) by exact Hid.
  rewrite RemoveUnpacked_run, backend_call_run.
  rewrite (delayedCancelContext_open ctx UnlockCancelDelay env w (clock w)
             UnlockCancelDelay_pos)
    by (pose proof UnlockCancelDelay_pos; lia).
  rewrite Hfault. cbn [fst snd files].
  split; [reflexivity|]. split; [reflexivity|].
  split; [apply has_file_remove_same|]. split.
  - intros c Hc. rewrite delayedCancelContext_run. cbn [fst done_at]. rewrite Hc.
    reflexivity.
  - intros t Ht. apply delayedCancelContext_open; [apply UnlockCancelDelay_pos|exact Ht].
Qed.

Lemma Unlock_grace_witness :
  let held := mkLock Sample.t0 true "host-a" "alice" 4242 1000 1000 (Some 5%N) in
  let ctx := mkCtx (Some (Sample.t0 - 2 * Minute)) in
  (Unlock (Some held) ctx Sample.env (Sample.world_of [(5%N, Sample.obj_of held)])).1
  = None /\
  files (Unlock (Some held) ctx Sample.env
           (Sample.world_of [(5%N, Sample.obj_of held)])).2 = [].
Proof.
  cbn zeta.
  pose proof (Unlock_grace
                (mkLock Sample.t0 true "host-a" "alice" 4242 1000 1000 (Some 5%N))
                5%N (mkCtx (Some (Sample.t0 - 2 * Minute))) Sample.env
                (Sample.world_of
                   [(5%N, Sample.obj_of (mkLock Sample.t0 true "host-a" "alice" 4242 1000
                                                1000 (Some 5%N)))])
                eq_refl eq_refl) as H.
  cbn zeta in H. destruct H as (Hres & Hfiles & _).
  split; [exact Hres|]. rewrite Hfiles. vm_compute. reflexivity.
Defined.

(** ** What a scan costs *)

Section ScanCost.

Variables (l : Lock) (ctx : Ctx).

Lemma wrap64_small x : minDuration <= x <= maxDuration -> wrap64 x = x.
Proof.
  unfold wrap64, minDuration, maxDuration. intros H.
  rewrite Z.mod_small by lia. lia.
Qed.

Lemma checkLoop_clock n : forall i delay (checked : IDSet) err env w,
  clock w <= clock (checkLoop l ctx n i delay checked err env w).2
  <= clock w + delays_sum (schedule n i delay).
Proof.
  induction n as [|n IH]; intros i delay checked err env w.
  - cbn. lia.
  - destruct i as [|i].
    + rewrite checkLoop_first. cbn zeta. cbn [schedule Nat.eqb delays_sum].
      destruct (attempt_effect l ctx checked env w) as (_ & Hc & _).
      destruct (attempt l ctx checked env w) as [[[e|] s] w1]; cbn [fst snd] in *.
      * pose proof (IH 1%nat delay s (Some e) env w1) as Hrec.
        pose proof (IH 1%nat delay s (Some e) env w) as Hpos.
        destruct (is_alreadyLockedError e); cbn [fst snd]; lia.
      * pose proof (IH 1%nat delay checked err env w). lia.
    + rewrite checkLoop_next. cbn zeta. cbn [schedule Nat.eqb delays_sum].
      destruct (cancelableDelay_effect ctx delay env w) as (_ & Hrange & _).
      destruct (cancelableDelay ctx delay env w) as [[e|] w0]; cbn [fst snd] in *.
      * pose proof (IH (S (S i)) (wrap64 (delay * 2)) checked err env w). lia.
      * destruct (attempt_effect l ctx checked env w0) as (_ & Hc & _).
        destruct (attempt l ctx checked env w0) as [[[e|] s] w1]; cbn [fst snd] in *.
        -- pose proof (IH (S (S i)) (wrap64 (delay * 2)) s (Some e) env w1) as Hrec.
           pose proof (IH (S (S i)) (wrap64 (delay * 2)) s (Some e) env w) as Hpos.
           destruct (is_alreadyLockedError e); cbn [fst snd]; lia.
        -- pose proof (IH (S (S i)) (wrap64 (delay * 2)) checked err env w). lia.
Qed.

Lemma retry_schedule_sum d :
  0 <= d -> 4 * d <= maxDuration -> delays_sum (schedule 4 0 d) = 7 * d.
Proof.
  intros Hd Hmax. cbn [schedule Nat.eqb delays_sum].
  assert (H2 : wrap64 (d * 2) = d * 2)
    by (apply wrap64_small; unfold minDuration, maxDuration in *; lia).
  rewrite H2.
  assert (H4 : wrap64 (d * 2 * 2) = d * 4)
    by (rewrite wrap64_small by (unfold minDuration, maxDuration in *; lia); lia).
  rewrite H4. lia.
Qed.

Lemma checkForOtherLocks_clock env w :
  0 <= initialWaitBetweenLockRetries env ->
  4 * initialWaitBetweenLockRetries env <= maxDuration ->
  clock w <= clock (checkForOtherLocks l ctx env w).2
  <= clock w + 7 * initialWaitBetweenLockRetries env.
Proof.
  intros Hd Hmax. unfold checkForOtherLocks. rewrite bind_run. unfold ask.
  cbn [fst snd].
  rewrite <- (retry_schedule_sum _ Hd Hmax). apply checkLoop_clock.
Qed.

Lemma checkForOtherLocks_clock_mono env w :
  clock w <= clock (checkForOtherLocks l ctx env w).2.
Proof.
  unfold checkForOtherLocks. rewrite bind_run. unfold ask. cbn [fst snd].
  apply checkLoop_clock.
Qed.

End ScanCost.

(** X3.  [checkForOtherLocks] only reads: it logs listings, loads and delays,
    never a save or a removal, and the lock objects are as before when nobody
    else writes.  The clock never goes back, and with an initial delay [d]
    that can be doubled twice the scan takes at most [7 * d], 35 seconds by
    default. *)
Theorem checkForOtherLocks_reads_only (l : Lock) (ctx : Ctx) (env : Env) (w : World) :
  let r := checkForOtherLocks l ctx env w in
  let d := initialWaitBetweenLockRetries env in
  (exists evs, trace r.2 = trace w ++ evs /\ Forall scan_event evs) /\
  (alone env -> files r.2 = files w) /\
  clock w <= clock r.2 /\
  (0 <= d -> 4 * d <= maxDuration -> clock r.2 <= clock w + 7 * d) /\
  (d = 5 * Second -> clock r.2 <= clock w + 35 * Second).
Proof.
  cbn zeta. split; [|split; [|split; [|split]]].
  - destruct (checkForOtherLocks_run l ctx env w) as (evs & Ht & [_ Hev _]).
    exists evs. split; [exact Ht|].
    eapply Forall_impl; [exact Hev|]. intros ev. destruct ev; cbn; auto.
  - intros Halone. apply checkForOtherLocks_files, Halone.
  - apply checkForOtherLocks_clock_mono.
  - intros Hd Hmax. apply checkForOtherLocks_clock; assumption.
  - intros Hd.
    pose proof (checkForOtherLocks_clock l ctx env w) as H.
    rewrite Hd in H. unfold maxDuration, Second, Millisecond in *. lia.
Qed.

Lemma checkForOtherLocks_reads_only_witness :
  clock (checkForOtherLocks Sample.reader background Sample.env
           (Sample.world_of [(1%N, Sample.garbage)])).2
  <= Sample.t0 + 35 * Second.
Proof.
  exact (proj2 (proj2 (proj2 (proj2
           (checkForOtherLocks_reads_only Sample.reader background Sample.env
              (Sample.world_of [(1%N, Sample.garbage)]))))) eq_refl).
Defined.

(** ** How long an acquisition takes *)

Lemma createLock_clock l ctx env w : clock (createLock l ctx env w).2 = clock w.
Proof.
  unfold createLock. rewrite SaveJSONUnpacked_run.
  destruct (backend_call ctx _ env w).1; reflexivity.
Qed.

Lemma Unlock_clock l ctx env w : clock (Unlock l ctx env w).2 = clock w.
Proof.
  destruct l as [l|]; [|reflexivity]. unfold Unlock.
  destruct (lockID l); [apply RemoveUnpacked_clock|reflexivity].
Qed.

(** X4.  [NewLock] never turns the clock back, and it returns within twice
    the time of a scan plus the settle delay: 70.2 seconds with the default
    waits, no time at all once [TestSetLockTimeout] has set the waits to
    zero. *)
Theorem NewLock_duration (ctx : Ctx) (exclusive : bool) (env : Env) (w : World) :
  let r := NewLock ctx exclusive env w in
  let d := initialWaitBetweenLockRetries env in
  0 <= d -> 4 * d <= maxDuration ->
  clock w <= clock r.2 <= clock w + 14 * d + Z.max 0 (waitBeforeLockCheck env).
Proof.
  cbn zeta. intros Hd Hmax. rewrite NewLock_unfold. cbn zeta.
  destruct (fillUserInfo _ env w).1 as [lock [e|]]; cbn [fst snd]; [lia|].
  unfold two_phase, precheck, publish, postcheck, settle, bind, ret, ask.
  cbn [fst snd].
  pose proof (checkForOtherLocks_clock lock ctx env w Hd Hmax) as H1.
  destruct (checkForOtherLocks lock ctx env w) as [[e|] w1]; cbn [fst snd] in *;
    [lia|].
  pose proof (createLock_clock lock ctx env w1) as H2.
  destruct (createLock lock ctx env w1) as [[id|e] w2]; cbn [fst snd] in *; [|lia].
  pose proof (time_Sleep_run (waitBeforeLockCheck env) env w2) as H3.
  destruct (time_Sleep (waitBeforeLockCheck env) env w2) as [[] w3].
  apply (f_equal (fun p => clock p.2)) in H3. cbn [fst snd clock] in H3.
  assert (H3' : clock w3 = clock w2 + Z.max 0 (waitBeforeLockCheck env))
    by (destruct (0 <? waitBeforeLockCheck env) eqn:E; lia).
  cbn [fst snd].
  pose proof (checkForOtherLocks_clock (set_lockID (Some id) lock) ctx env w3 Hd Hmax)
    as H4.
  destruct (checkForOtherLocks (set_lockID (Some id) lock) ctx env w3) as [[e|] w4];
    cbn [fst snd] in *; [|lia].
  rewrite Unlock_clock. lia.
Qed.

Lemma NewLock_duration_witness :
  clock (NewLock background true (TestSetLockTimeout 0 Sample.env)
           (Sample.world_of [(1%N, Sample.garbage)])).2
  = Sample.t0.
Proof.
  pose proof (NewLock_duration background true (TestSetLockTimeout 0 Sample.env)
                (Sample.world_of [(1%N, Sample.garbage)])
                ltac:(vm_compute; discriminate) ltac:(vm_compute; discriminate)) as H.
  cbn [TestSetLockTimeout waitBeforeLockCheck initialWaitBetweenLockRetries] in H.
  change (clock (Sample.world_of [(1%N, Sample.garbage)])) with Sample.t0 in H.
  lia.
Defined.

(** ** Refreshing *)

Lemma backend_call_responsive ctx env op w :
  responsive ctx env (clock w) -> backend_call ctx op env w = (None, w).
Proof.
  intros [Hd Hf]. rewrite backend_call_run, Hd, Hf. reflexivity.
Qed.

(** The store that answers a call answers the removal under the grace
    context, whatever the caller's context. *)
Lemma responsive_grace ctx ctx0 env w :
  responsive ctx0 env (clock w) ->
  responsive (delayedCancelContext ctx UnlockCancelDelay env w).1 env (clock w).
Proof.
  intros [_ Hf]. split; [|exact Hf].
  apply delayedCancelContext_open; [apply UnlockCancelDelay_pos|].
  pose proof UnlockCancelDelay_pos. lia.
Qed.

Lemma createLock_responsive l ctx env w :
  responsive ctx env (clock w) ->
  createLock l ctx env w
  = (Ok (idOf env (descriptor l)),
     mkWorld (remove_file (idOf env (descriptor l)) (files w)
              ++ [(idOf env (descriptor l), lock_object env l)])
             (clock w) (trace w ++ [EvSave (idOf env (descriptor l))])).
Proof.
  intros H. unfold createLock. rewrite SaveJSONUnpacked_run.
  rewrite (backend_call_responsive _ _ _ _ H). reflexivity.
Qed.

Lemma RemoveUnpacked_responsive ctx id env w :
  responsive ctx env (clock w) ->
  RemoveUnpacked ctx id env w
  = (None, mkWorld (remove_file id (files w)) (clock w) (trace w ++ [EvRemove id])).
Proof.
  intros H. rewrite RemoveUnpacked_run.
  rewrite (backend_call_responsive _ _ _ _ H). reflexivity.
Qed.

Lemma Refresh_responsive l ctx env w old :
  lockID l = Some old ->
  responsive ctx env (clock w) ->
  let l' := set_Time (clock w) l in
  let new := idOf env (descriptor l') in
  Refresh l ctx env w
  = ((set_lockID (Some new) l', None),
     mkWorld (remove_file old (remove_file new (files w) ++ [(new, lock_object env l')]))
             (clock w) (trace w ++ [EvSave new; EvRemove old])).
Proof.
  intros Hid H. cbn zeta. unfold Refresh.
  rewrite bind_run. unfold time_Now, get. cbn [fst snd].
  rewrite bind_run, (createLock_responsive _ _ _ _ H). cbn [fst snd].
  cbn [set_Time lockID]. rewrite Hid.
  rewrite bind_run, delayedCancelContext_snd.
  rewrite bind_run, RemoveUnpacked_responsive
    by (apply (responsive_grace ctx ctx); exact H).
  cbn [fst snd ret files clock trace]. rewrite <- app_assoc. reflexivity.
Qed.

(** X5.  A [Refresh] the store answers replaces the lock file: the lock is
    stamped with the current time and saved under a new id, the lock then
    names the new file, the old file is gone, every other object is as it
    was, and the save is logged before the removal.  No time passes. *)
Theorem Refresh_replaces (l : Lock) (ctx : Ctx) (env : Env) (w : World) (old : ID) :
  lockID l = Some old ->
  responsive ctx env (clock w) ->
  let l' := set_Time (clock w) l in
  let new := idOf env (descriptor l') in
  new <> old ->
  let r := Refresh l ctx env w in
  r.1.2 = None /\
  r.1.1 = set_lockID (Some new) l' /\
  lookup_file new (files r.2) = Some (lock_object env l') /\
  lookup_file old (files r.2) = None /\
  (forall id, id <> new -> id <> old ->
     lookup_file id (files r.2) = lookup_file id (files w)) /\
  clock r.2 = clock w /\
  trace r.2 = trace w ++ [EvSave new; EvRemove old].
Proof.
  intros Hid H. cbn zeta. intros Hne.
  rewrite (Refresh_responsive l ctx env w old Hid H). cbn [fst snd files clock trace].
  repeat split.
  - rewrite lookup_file_remove_other by congruence. apply lookup_file_saved.
  - apply lookup_file_remove_same.
  - intros id Hn Ho.
    rewrite lookup_file_remove_other by congruence.
    apply lookup_file_saved_other. congruence.
Qed.

Lemma Refresh_replaces_witness :
  let held := mkLock (Sample.t0 - Minute) true "host-a" "alice" 4242 1000 1000 (Some 5%N) in
  let r := Refresh held background Sample.env
             (Sample.world_of [(5%N, Sample.obj_of held)]) in
  r.1.2 = None /\ lookup_file 5%N (files r.2) = None.
Proof.
  cbn zeta.
  pose proof (Refresh_replaces
                (mkLock (Sample.t0 - Minute) true "host-a" "alice" 4242 1000 1000 (Some 5%N))
                background Sample.env
                (Sample.world_of
                   [(5%N, Sample.obj_of (mkLock (Sample.t0 - Minute) true "host-a" "alice"
                                                4242 1000 1000 (Some 5%N)))])
                5%N eq_refl (conj eq_refl (fun _ => eq_refl))
                ltac:(vm_compute; discriminate)) as H.
  cbn zeta in H. split; [exact (proj1 H)|exact (proj1 (proj2 (proj2 (proj2 H))))].
Defined.

(** X6.  [RefreshStaleLock] does not create a file for a lock it cannot see:
    when the first listing fails it returns that error, when the listing does
    not show the lock's file it returns [ErrRemovedLock]; either way the
    listing is the only call made, the store is as before and the lock keeps
    its id and its time stamp. *)
Theorem RefreshStaleLock_needs_lock (l : Lock) (ctx : Ctx) (env : Env) (w : World)
    (old : ID) :
  lockID l = Some old ->
  (backend_call ctx OpList env w).1 <> None \/ has_file old (files w) = false ->
  let r := RefreshStaleLock l ctx env w in
  r.1.1 = l /\
  r.1.2 = Some (default ErrRemovedLock (backend_call ctx OpList env w).1) /\
  r.2 = mkWorld (files w) (clock w) (trace w ++ [EvList]).
Proof.
  intros Hid H. cbn zeta. unfold RefreshStaleLock.
  rewrite bind_run, (checkExistence_run l ctx env w old Hid). cbn [fst snd].
  destruct (backend_call ctx OpList env w).1 as [e|]; cbn [fst snd default].
  - repeat split.
  - destruct H as [H|H]; [congruence|]. rewrite H. cbn [negb]. repeat split.
Qed.

Lemma RefreshStaleLock_needs_lock_witness :
  let gone := mkLock (Sample.t0 - Minute) true "host-a" "alice" 4242 1000 1000 (Some 5%N) in
  (RefreshStaleLock gone background Sample.env
     (Sample.world_of [(6%N, Sample.obj_of Sample.reader)])).1.2
  = Some ErrRemovedLock.
Proof.
  cbn zeta.
  exact (proj1 (proj2
    (RefreshStaleLock_needs_lock
       (mkLock (Sample.t0 - Minute) true "host-a" "alice" 4242 1000 1000 (Some 5%N))
       background Sample.env (Sample.world_of [(6%N, Sample.obj_of Sample.reader)])
       5%N eq_refl (or_intror eq_refl)))).
Defined.

(** X7.  On a store that answers and on which nobody else writes,
    [RefreshStaleLock] of a lock whose file exists succeeds when the context
    is still open after the settle delay: the lock is stamped with the time
    of the call and names the new file, which holds its descriptor; the old
    file is gone, every other object is as it was, and the call takes the
    settle delay. *)
Theorem RefreshStaleLock_replaces (l : Lock) (ctx : Ctx) (env : Env) (w : World)
    (old : ID) :
  lockID l = Some old ->
  quiet env ->
  has_file old (files w) = true ->
  ctx_done ctx (clock w + Z.max 0 (waitBeforeLockCheck env)) = false ->
  let l' := set_Time (clock w) l in
  let new := idOf env (descriptor l') in
  new <> old ->
  let r := RefreshStaleLock l ctx env w in
  r.1.2 = None /\
  r.1.1 = set_lockID (Some new) l' /\
  lookup_file new (files r.2) = Some (lock_object env l') /\
  lookup_file old (files r.2) = None /\
  (forall id, id <> new -> id <> old ->
     lookup_file id (files r.2) = lookup_file id (files w)) /\
  clock r.2 = clock w + Z.max 0 (waitBeforeLockCheck env) /\
  trace r.2 = trace w ++ [EvList; EvSave new; EvSleep (clock w) (waitBeforeLockCheck env);
                          EvList; EvRemove old].
Proof.
  intros Hid [Hfault Halone] Hhas Hopen. cbn zeta. intros Hne.
  assert (Hopen0 : ctx_done ctx (clock w) = false).
  { revert Hopen. unfold ctx_done. destruct (done_at ctx) as [c|]; [|reflexivity].
    intros H. apply Z.leb_gt in H. apply Z.leb_gt. lia. }
  assert (R0 : responsive ctx env (clock w)) by (split; [exact Hopen0|apply Hfault]).
  assert (R1 : responsive ctx env (clock w + Z.max 0 (waitBeforeLockCheck env)))
    by (split; [exact Hopen|apply Hfault]).
  unfold RefreshStaleLock.
  rewrite bind_run, (checkExistence_run l ctx env w old Hid).
  rewrite (backend_call_responsive _ _ _ _ R0). cbn [fst snd]. rewrite Hhas. cbn [negb].
  rewrite bind_run. unfold time_Now, get. cbn [fst snd clock].
  rewrite bind_run, createLock_responsive by exact R0. cbn [fst snd].
  rewrite bind_run. unfold ask. cbn [fst snd].
  unfold seq. rewrite bind_run, time_Sleep_run. cbn [fst snd files clock trace].
  set (w3 := mkWorld _ _ _).
  assert (Hclock : clock w3 = clock w + Z.max 0 (waitBeforeLockCheck env)).
  { subst w3. cbn [clock]. destruct (0 <? waitBeforeLockCheck env) eqn:E; lia. }
  assert (Hfiles : files w3 = remove_file (idOf env (descriptor (set_Time (clock w) l)))
                                (files w)
                              ++ [(idOf env (descriptor (set_Time (clock w) l)),
                                   lock_object env (set_Time (clock w) l))]).
  { subst w3. cbn [files]. destruct (0 <? waitBeforeLockCheck env); [apply Halone|reflexivity]. }
  assert (R3 : responsive ctx env (clock w3)) by (rewrite Hclock; exact R1).
  rewrite bind_run,
    (checkExistence_run (set_Time (clock w) l) ctx env w3 old Hid).
  rewrite (backend_call_responsive _ _ _ _ R3). cbn [fst snd].
  assert (Hstill : has_file old (files w3) = true).
  { rewrite Hfiles, has_file_app, has_file_remove_other by congruence.
    rewrite Hhas. reflexivity. }
  rewrite bind_run, delayedCancelContext_snd. cbn [fst snd].
  rewrite Hstill. cbn [negb set_Time lockID]. rewrite Hid.
  rewrite bind_run, RemoveUnpacked_responsive
    by (apply (responsive_grace ctx ctx); exact R3).
  cbn [fst snd ret files clock trace]. rewrite Hfiles, Hclock.
  repeat split.
  - rewrite lookup_file_remove_other by congruence. apply lookup_file_saved.
  - apply lookup_file_remove_same.
  - intros id Hn Ho.
    rewrite lookup_file_remove_other by congruence.
    apply lookup_file_saved_other. congruence.
  - subst w3. cbn [trace]. rewrite <- !app_assoc. reflexivity.
Qed.

Lemma RefreshStaleLock_replaces_witness :
  let held := mkLock (Sample.t0 - 40 * Minute) true "host-a" "alice" 4242 1000 1000
                     (Some 5%N) in
  let r := RefreshStaleLock held background Sample.env
             (Sample.world_of [(5%N, Sample.obj_of held)]) in
  r.1.2 = None /\ lookup_file 5%N (files r.2) = None.
Proof.
  cbn zeta.
  pose proof (RefreshStaleLock_replaces
                (mkLock (Sample.t0 - 40 * Minute) true "host-a" "alice" 4242 1000 1000
                        (Some 5%N))
                background Sample.env
                (Sample.world_of
                   [(5%N, Sample.obj_of (mkLock (Sample.t0 - 40 * Minute) true "host-a"
                                                "alice" 4242 1000 1000 (Some 5%N)))])
                5%N eq_refl
                (conj (fun _ _ => eq_refl) (fun _ _ _ => eq_refl))
                eq_refl eq_refl ltac:(vm_compute; discriminate)) as H.
  cbn zeta in H. split; [exact (proj1 H)|exact (proj1 (proj2 (proj2 (proj2 H))))].
Defined.

(** ** What [ForAllLocks] hands to its callback *)

Section Visits.

Variables (ctx : Ctx) (excl : IDSet) (env : Env).

Lemma visible_cons fs item items :
  visible excl fs (item :: items)
  = if bool_decide (item.1 ∈ excl) then visible excl fs items
    else if item.2 =? 0 then visible excl fs items
    else (item.1, stored_lock fs item.1) :: visible excl fs items.
Proof.
  unfold visible. cbn [omap list_omap].
  destruct (bool_decide (item.1 ∈ excl)); [reflexivity|].
  destruct (item.2 =? 0); reflexivity.
Qed.

Lemma visible_Permutation fs items1 items2 :
  items1 ≡ₚ items2 -> visible excl fs items1 ≡ₚ visible excl fs items2.
Proof. intros H. unfold visible. rewrite H. reflexivity. Qed.

Lemma visible_In fs items x :
  In x (visible excl fs items) <->
  exists size, In (x.1, size) items /\ (x.1 ∉ excl) /\ size <> 0 /\
               x.2 = stored_lock fs x.1.
Proof.
  induction items as [|[id size] items IH].
  { split; [intros []|intros (sz & [] & _)]. }
  rewrite visible_cons. cbn [fst snd].
  assert (Hskip : id ∈ excl \/ size = 0 ->
            ((exists sz, In (x.1, sz) items /\ (x.1 ∉ excl) /\ sz <> 0 /\
                         x.2 = stored_lock fs x.1) <->
             (exists sz, In (x.1, sz) ((id, size) :: items) /\ (x.1 ∉ excl) /\ sz <> 0 /\
                         x.2 = stored_lock fs x.1))).
  { intros Hs. split; intros (sz & Hin & Hx & Hsz & Hl); exists sz.
    - split; [right; exact Hin|tauto].
    - destruct Hin as [Heq|Hin]; [|tauto].
      injection Heq as Hi Hs'. subst sz. rewrite <- Hi in Hx.
      destruct Hs; contradiction. }
  destruct (bool_decide (id ∈ excl)) eqn:Ein;
    [apply bool_decide_eq_true in Ein|apply bool_decide_eq_false in Ein].
  { rewrite IH. apply Hskip. left. exact Ein. }
  destruct (size =? 0) eqn:Esz; [apply Z.eqb_eq in Esz|apply Z.eqb_neq in Esz].
  { rewrite IH. apply Hskip. right. exact Esz. }
  cbn [In]. rewrite IH. split.
  - intros [Heq|(sz & Hin & Hx & Hsz & Hl)].
    + subst x. exists size. cbn [fst snd]. split; [left; reflexivity|tauto].
    + exists sz. split; [right; exact Hin|tauto].
  - intros (sz & [Heq|Hin] & Hx & Hsz & Hl).
    + left. injection Heq as Hi Hs'. destruct x as [i r]. cbn [fst snd] in *.
      congruence.
    + right. exists sz. tauto.
Qed.

(** On a store that answers, a call hands the callback what the store holds
    under the id. *)
Lemma ForAllLocks_item_responsive {S : Type}
    (fn : ID -> result Lock -> S -> option error * S) id size s w :
  responsive ctx env (clock w) ->
  ForAllLocks_item ctx excl fn id size s env w
  = if bool_decide (id ∈ excl) then ((None, s), w)
    else if size =? 0 then ((None, s), w)
    else (fn id (stored_lock (files w) id) s,
          mkWorld (files w) (clock w) (trace w ++ [EvLoad id])).
Proof.
  intros Hr. unfold ForAllLocks_item.
  destruct (bool_decide (id ∈ excl)); [reflexivity|].
  destruct (size =? 0); [reflexivity|].
  rewrite bind_run, LoadLock_run. cbn [fst snd ret].
  rewrite backend_call_responsive by exact Hr. cbn [fst].
  unfold stored_lock, decode.
  destruct (lookup_file id (files w)) as [o|]; [|reflexivity].
  destruct (obody o); reflexivity.
Qed.

(** Whatever context a call runs under, it leaves the store and the clock as
    they are and logs at most the load. *)
Lemma ForAllLocks_item_frame {S : Type} (c : Ctx)
    (fn : ID -> result Lock -> S -> option error * S) id size s w :
  let r := ForAllLocks_item c excl fn id size s env w in
  files r.2 = files w /\ clock r.2 = clock w /\
  exists evs, trace r.2 = trace w ++ evs /\ Forall scan_event evs.
Proof.
  cbn zeta. unfold ForAllLocks_item.
  destruct (bool_decide (id ∈ excl));
    [|destruct (size =? 0)].
  - repeat split. exists []. rewrite app_nil_r. split; [reflexivity|constructor].
  - repeat split. exists []. rewrite app_nil_r. split; [reflexivity|constructor].
  - rewrite bind_run, LoadLock_run. cbn [fst snd ret files clock trace].
    repeat split. exists [EvLoad id]. split; [reflexivity|repeat constructor].
Qed.

Lemma ParallelList_run_frame {S : Type}
    (fn : ID -> result Lock -> S -> option error * S) fuel n waiting first s w :
  let r := ParallelList_run (fun c => ForAllLocks_item c excl fn) ctx fuel n waiting
             first s env w in
  files r.2 = files w /\ clock r.2 = clock w /\
  exists evs, trace r.2 = trace w ++ evs /\ Forall scan_event evs.
Proof.
  cbn zeta.
  apply (ParallelList_run_keeps (fun c => ForAllLocks_item c excl fn) ctx env
           (fun _ w' => files w' = files w /\ clock w' = clock w /\
                        exists evs, trace w' = trace w ++ evs /\ Forall scan_event evs)
           waiting).
  - intros c [id size] s0 w0 _ (Hf & Hc & evs & Ht & Hev). cbn [fst snd].
    destruct (ForAllLocks_item_frame c fn id size s0 w0) as (Hf' & Hc' & evs' & Ht' & Hev').
    split; [congruence|]. split; [congruence|].
    exists (evs ++ evs'). split; [rewrite Ht', Ht, app_assoc; reflexivity|].
    apply Forall_app. split; assumption.
  - auto.
  - split; [reflexivity|]. split; [reflexivity|].
    exists []. rewrite app_nil_r. split; [reflexivity|constructor].
Qed.

Lemma ForAllLocks_frame {S : Type}
    (fn : ID -> result Lock -> S -> option error * S) s w :
  let r := ForAllLocks ctx excl fn s env w in
  files r.2 = files w /\ clock r.2 = clock w /\
  exists evs, trace r.2 = trace w ++ EvList :: evs /\ Forall scan_event evs.
Proof.
  cbn zeta. rewrite ForAllLocks_unfold. cbn zeta. cbn [fst snd].
  destruct (ParallelList_run_frame fn (length (listing ctx env w))
              (Pos.to_nat (connections (workers env))) (listing ctx env w) None s
              (mkWorld (files w) (clock w) (trace w ++ [EvList])))
    as (Hf & Hc & evs & Ht & Hev).
  cbn [files clock trace] in Hf, Hc, Ht.
  split; [exact Hf|]. split; [exact Hc|].
  exists evs. split; [|exact Hev]. rewrite Ht, <- app_assoc. reflexivity.
Qed.

(** The verdicts of the callback behind the result of [ForAllLocks]. *)
Lemma ForAllLocks_verdicts {S : Type}
    (fn : ID -> result Lock -> S -> option error * S) s w :
  responsive ctx env (clock w) ->
  let r := ForAllLocks ctx excl fn s env w in
  let seen := visible excl (files w) (List.map entry (files w)) in
  (r.1.1 = None ->
   forall x, In x seen -> exists s0, (fn x.1 x.2 s0).1 = None) /\
  (forall e, r.1.1 = Some e ->
   exists x s0, In x seen /\ (fn x.1 x.2 s0).1 = Some e).
Proof.
  intros Hr. cbn zeta. rewrite ForAllLocks_unfold. cbn zeta. cbn [fst snd].
  rewrite backend_call_responsive by exact Hr. cbn [fst].
  assert (Hlist : listing ctx env w = List.map entry (files w)).
  { unfold listing. rewrite backend_call_responsive by exact Hr. reflexivity. }
  rewrite Hlist.
  set (items := List.map entry (files w)).
  set (w1 := mkWorld (files w) (clock w) (trace w ++ [EvList])).
  set (run := fun c => ForAllLocks_item c excl fn).
  set (P := fun (_ : S) (w' : World) => files w' = files w /\ clock w' = clock w).
  assert (Hkeeps : forall c item s0 w0, In item items -> P s0 w0 ->
            P (run c item.1 item.2 s0 env w0).1.2 (run c item.1 item.2 s0 env w0).2).
  { intros c [id size] s0 w0 _ [Hf Hc]. subst P run. cbn beta. cbn [fst snd].
    destruct (ForAllLocks_item_frame c fn id size s0 w0) as (Hf' & Hc' & _).
    split; congruence. }
  assert (Hcase : forall item s0 w0 v, In item items -> P s0 w0 ->
            (run ctx item.1 item.2 s0 env w0).1.1 = v ->
            v = None \/
            In (item.1, stored_lock (files w) item.1) (visible excl (files w) items) /\
            (fn item.1 (stored_lock (files w) item.1) s0).1 = v).
  { intros [id size] s0 w0 v Hin [Hf Hc] Hv. subst run. cbn beta in Hv.
    cbn [fst snd] in *.
    rewrite ForAllLocks_item_responsive in Hv by (rewrite Hc; exact Hr).
    destruct (bool_decide (id ∈ excl)) eqn:Ein; [left; cbn in Hv; congruence|].
    destruct (size =? 0) eqn:Esz; [left; cbn in Hv; congruence|].
    right. cbn [fst] in Hv. rewrite Hf in Hv. split; [|exact Hv].
    apply visible_In. exists size. cbn [fst snd].
    apply bool_decide_eq_false in Ein. apply Z.eqb_neq in Esz. tauto. }
  split.
  - intros Hnone x Hx.
    destruct (ParallelList_run run ctx (length items)
                (Pos.to_nat (connections (workers env))) items None s env w1).1.1
      as [e|] eqn:Hrun; [discriminate|].
    destruct (ParallelList_run_none run ctx env P items Hkeeps _ _ _ _ _ w1
                (Nat.le_refl _) (Pos2Nat.is_pos _) (fun x H => H)
                (conj eq_refl eq_refl) Hrun) as [_ Hall].
    apply visible_In in Hx. destruct Hx as (size & Hin & Hex & Hsz & Hl).
    destruct (Hall (x.1, size) Hin) as (s0 & w0 & [Hf Hc] & Hcall).
    exists s0. subst run. cbn beta in Hcall. cbn [fst snd] in Hcall.
    rewrite ForAllLocks_item_responsive in Hcall by (rewrite Hc; exact Hr).
    rewrite bool_decide_eq_false_2 in Hcall by exact Hex.
    apply Z.eqb_neq in Hsz. rewrite Hsz in Hcall. cbn [fst] in Hcall.
    rewrite Hl, <- Hf. exact Hcall.
  - intros e Hsome.
    destruct (ParallelList_run run ctx (length items)
                (Pos.to_nat (connections (workers env))) items None s env w1).1.1
      as [e'|] eqn:Hrun; [|discriminate].
    injection Hsome as ->.
    destruct (ParallelList_run_some run ctx env P items Hkeeps _ _ _ _ _ w1 e
                (fun x H => H) (conj eq_refl eq_refl) Hrun)
      as [Hfirst|(item & s0 & w0 & Hin & HP & Hcall)]; [discriminate|].
    destruct (Hcase item s0 w0 (Some e) Hin HP Hcall) as [Hv|[Hvis Hv]];
      [discriminate|].
    exists (item.1, stored_lock (files w) item.1), s0. split; [exact Hvis|exact Hv].
Qed.

(** A callback that never fails is called once for every object that is
    neither excluded nor empty. *)
Lemma ParallelList_run_collect fs fuel : forall n waiting acc w,
  (length waiting <= fuel)%nat -> (0 < n)%nat ->
  responsive ctx env (clock w) -> files w = fs ->
  let r := ParallelList_run
             (fun c => ForAllLocks_item c excl (fun id r acc => (None, (id, r) :: acc)))
             ctx fuel n waiting None acc env w in
  r.1.1 = None /\ r.1.2 ≡ₚ visible excl fs waiting ++ acc.
Proof.
  induction fuel as [|fuel IH]; intros n waiting acc w Hlen Hn Hr Hfs; cbn zeta.
  - destruct waiting; [|cbn in Hlen; lia]. split; reflexivity.
  - rewrite ParallelList_run_step.
    destruct (chosen _ _ _ _) as [[item rest]|] eqn:Hch.
    + apply chosen_In in Hch. destruct Hch as (_ & _ & Hl & Hperm).
      cbn zeta. rewrite ForAllLocks_item_responsive by exact Hr.
      rewrite (visible_Permutation fs _ _ Hperm), visible_cons.
      destruct (bool_decide (item.1 ∈ excl)); [|destruct (item.2 =? 0)]; cbn [fst snd].
      * apply IH; [lia|assumption..].
      * apply IH; [lia|assumption..].
      * destruct (IH n rest ((item.1, stored_lock (files w) item.1) :: acc)
                    (mkWorld (files w) (clock w) (trace w ++ [EvLoad item.1]))
                    ltac:(lia) Hn Hr Hfs) as [Hnone Hres].
        split; [exact Hnone|]. rewrite Hres, Hfs.
        rewrite <- Permutation_middle. reflexivity.
    + destruct waiting as [|x waiting]; [split; reflexivity|].
      destruct (chosen_some (workers env) (trace w) n (x :: waiting) Hn ltac:(discriminate))
        as (item & rest & Hsome).
      congruence.
Qed.

End Visits.

(** X8.  On a store that answers, [ForAllLocks] hands its callback the lock
    objects that are neither excluded nor empty, each with what [LoadLock]
    gives for it, in an order the workers decide.  It returns no error only
    if the callback has returned none for every one of them, and an error it
    returns is one the callback has returned for one of them.  A callback
    that never fails is called exactly once for each of them.  The store and
    the clock are as before, and the listing and loads are all that is
    logged. *)
Theorem ForAllLocks_visits_each {S : Type} (ctx : Ctx) (excl : IDSet)
    (fn : ID -> result Lock -> S -> option error * S) (s : S) (env : Env) (w : World) :
  responsive ctx env (clock w) ->
  let r := ForAllLocks ctx excl fn s env w in
  let seen := visible excl (files w) (List.map entry (files w)) in
  let all := ForAllLocks ctx excl (fun id r acc => (None, (id, r) :: acc)) [] env w in
  (r.1.1 = None -> forall x, In x seen -> exists s0, (fn x.1 x.2 s0).1 = None) /\
  (forall e, r.1.1 = Some e -> exists x s0, In x seen /\ (fn x.1 x.2 s0).1 = Some e) /\
  all.1.1 = None /\ all.1.2 ≡ₚ seen /\
  files r.2 = files w /\
  clock r.2 = clock w /\
  exists evs, trace r.2 = trace w ++ EvList :: evs /\ Forall scan_event evs.
Proof.
  intros Hr. cbn zeta.
  destruct (ForAllLocks_verdicts ctx excl env fn s w Hr) as [Hnone Hsome].
  split; [exact Hnone|]. split; [exact Hsome|].
  assert (Hlist : listing ctx env w = List.map entry (files w)).
  { unfold listing. rewrite backend_call_responsive by exact Hr. reflexivity. }
  destruct (ParallelList_run_collect ctx excl env (files w)
              (length (List.map entry (files w)))
              (Pos.to_nat (connections (workers env))) (List.map entry (files w)) []
              (mkWorld (files w) (clock w) (trace w ++ [EvList]))
              (Nat.le_refl _) (Pos2Nat.is_pos _) Hr eq_refl) as [Hall Hperm].
  rewrite app_nil_r in Hperm.
  split; [|split].
  - rewrite ForAllLocks_unfold. cbn zeta. cbn [fst snd]. rewrite Hlist, Hall.
    rewrite backend_call_responsive by exact Hr. reflexivity.
  - rewrite ForAllLocks_unfold. cbn zeta. cbn [fst snd]. rewrite Hlist. exact Hperm.
  - apply ForAllLocks_frame.
Qed.

Lemma ForAllLocks_visits_each_witness :
  let fs := [(1%N, Sample.placeholder); (2%N, Sample.obj_of Sample.reader);
             (3%N, Sample.garbage); (4%N, Sample.obj_of Sample.writer)] in
  (ForAllLocks background ∅ (fun id r acc => (None, (id, r) :: acc)) []
     (with_workers Sample.second_first Sample.env) (Sample.world_of fs)).1.2
  ≡ₚ [(2%N, Ok (set_lockID (Some 2%N) Sample.reader));
      (3%N, Err ErrInvalidData);
      (4%N, Ok (set_lockID (Some 4%N) Sample.writer))].
Proof.
  cbn zeta.
  exact (proj1 (proj2 (proj2 (proj2
           (ForAllLocks_visits_each background ∅
              (fun id r (acc : list (ID * result Lock)) => (None, (id, r) :: acc)) []
              (with_workers Sample.second_first Sample.env)
              (Sample.world_of
                 [(1%N, Sample.placeholder); (2%N, Sample.obj_of Sample.reader);
                  (3%N, Sample.garbage); (4%N, Sample.obj_of Sample.writer)])
              (conj eq_refl (fun _ => eq_refl))))))).
Defined.

(** X9.  What [createLock] has saved, [LoadLock] gives back: the lock with
    the id of its file. *)
Theorem LoadLock_createLock (l : Lock) (ctx ctx' : Ctx) (env : Env) (w w1 : World)
    (id : ID) :
  createLock l ctx env w = (Ok id, w1) ->
  (backend_call ctx' (OpLoad id) env w1).1 = None ->
  (LoadLock ctx' id env w1).1 = Ok (set_lockID (Some id) l).
Proof.
  intros Hc Hload. rewrite LoadLock_run, Hload. cbn [fst].
  unfold createLock in Hc. rewrite SaveJSONUnpacked_run in Hc.
  destruct (backend_call ctx _ env w).1; [discriminate|].
  injection Hc as <- <-. cbn [files].
  rewrite lookup_file_saved. reflexivity.
Qed.

Lemma LoadLock_createLock_witness :
  (LoadLock background (Sample.sample_id Sample.reader) Sample.env
     (createLock Sample.reader background Sample.env Sample.empty_world).2).1
  = Ok (set_lockID (Some (Sample.sample_id Sample.reader)) Sample.reader).
Proof.
  exact (LoadLock_createLock Sample.reader background background Sample.env
           Sample.empty_world
           (createLock Sample.reader background Sample.env Sample.empty_world).2
           (Sample.sample_id Sample.reader) eq_refl eq_refl).
Defined.

(** ** Scans of a store that answers *)

Section ScanOutcome.

Variables (l : Lock) (ctx : Ctx) (env : Env).

(** What the callback of [checkForOtherLocks] says of an object the scan
    passes, and of a lock that stands in the way. *)
Lemma passes_verdict (excl : IDSet) fs p (s : IDSet) w :
  responsive ctx env (clock w) -> files w = fs ->
  passes l excl fs p ->
  (ForAllLocks_item ctx excl (checkCallback l) p.1 (osize p.2) s env w).1.1 = None.
Proof.
  intros Hr Hfs Hp. rewrite ForAllLocks_item_responsive by exact Hr.
  destruct (bool_decide (p.1 ∈ excl)) eqn:Ein; [reflexivity|].
  destruct (osize p.2 =? 0) eqn:Esz; [reflexivity|].
  apply bool_decide_eq_false in Ein. apply Z.eqb_neq in Esz.
  destruct Hp as [Hp|[Hp|(o & lock & Hlook & Hbody & Hl & Hlock)]];
    [contradiction|contradiction|].
  cbn [fst]. unfold stored_lock, decode. rewrite Hfs, Hlook, Hbody.
  rewrite checkCallback_loaded. cbn [Exclusive set_lockID]. rewrite Hl, Hlock.
  reflexivity.
Qed.

Lemma conflicting_verdict (excl : IDSet) fs p other (s : IDSet) w :
  responsive ctx env (clock w) -> files w = fs ->
  p.1 ∉ excl -> conflicting (Exclusive l) fs p other ->
  (ForAllLocks_item ctx excl (checkCallback l) p.1 (osize p.2) s env w).1.1
  = Some (alreadyLockedError (set_lockID (Some p.1) other)).
Proof.
  intros Hr Hfs Hex (Hsz & o & Hlook & Hbody & Hconf).
  rewrite ForAllLocks_item_responsive by exact Hr.
  rewrite bool_decide_eq_false_2 by exact Hex.
  apply Z.eqb_neq in Hsz. rewrite Hsz. cbn [fst].
  unfold stored_lock, decode. rewrite Hfs, Hlook, Hbody.
  rewrite checkCallback_loaded. cbn [Exclusive set_lockID]. rewrite Hconf.
  reflexivity.
Qed.

(** The result of an attempt as a world. *)
Lemma attempt_world (excl : IDSet) w :
  exists evs,
    (attempt l ctx excl env w).2
    = mkWorld (files w) (clock w) (trace w ++ EvList :: evs) /\
    Forall scan_event evs.
Proof.
  destruct (attempt_effect l ctx excl env w) as (Hf & Hc & _ & evs & Ht & Hl).
  exists evs. split.
  - destruct (attempt l ctx excl env w).2 as [fs' c' t']. cbn in *. congruence.
  - eapply Forall_impl; [exact Hl|]. intros ev (id & size & -> & _). exact I.
Qed.

(** The verdict behind the result of an attempt. *)
Lemma attempt_verdicts (excl : IDSet) w :
  responsive ctx env (clock w) ->
  let r := attempt l ctx excl env w in
  (r.1.1 = None ->
   forall p, In p (files w) -> exists s0 w0,
     files w0 = files w /\ clock w0 = clock w /\
     (ForAllLocks_item ctx excl (checkCallback l) p.1 (osize p.2) s0 env w0).1.1 = None) /\
  (forall e, r.1.1 = Some e ->
   exists p s0 w0, In p (files w) /\ files w0 = files w /\ clock w0 = clock w /\
     (ForAllLocks_item ctx excl (checkCallback l) p.1 (osize p.2) s0 env w0).1.1 = Some e).
Proof.
  intros Hr. cbn zeta. unfold attempt. rewrite ForAllLocks_unfold. cbn zeta.
  cbn [fst snd]. rewrite backend_call_responsive by exact Hr. cbn [fst].
  assert (Hlist : listing ctx env w = List.map entry (files w)).
  { unfold listing. rewrite backend_call_responsive by exact Hr. reflexivity. }
  rewrite Hlist.
  set (items := List.map entry (files w)).
  set (w1 := mkWorld (files w) (clock w) (trace w ++ [EvList])).
  set (run := fun c => ForAllLocks_item c excl (checkCallback l)).
  set (P := fun (_ : IDSet) (w' : World) => files w' = files w /\ clock w' = clock w).
  assert (Hkeeps : forall c item s0 w0, In item items -> P s0 w0 ->
            P (run c item.1 item.2 s0 env w0).1.2 (run c item.1 item.2 s0 env w0).2).
  { intros c [id size] s0 w0 _ [Hf Hc]. subst P run. cbn beta. cbn [fst snd].
    destruct (ForAllLocks_item_frame excl env c (checkCallback l) id size s0 w0)
      as (Hf' & Hc' & _).
    split; congruence. }
  split.
  - intros Hnone p Hin.
    destruct (ParallelList_run run ctx (length items)
                (Pos.to_nat (connections (workers env))) items None excl env w1).1.1
      as [e|] eqn:Hrun; [discriminate|].
    destruct (ParallelList_run_none run ctx env P items Hkeeps _ _ _ _ _ w1
                (Nat.le_refl _) (Pos2Nat.is_pos _) (fun x H => H)
                (conj eq_refl eq_refl) Hrun) as [_ Hall].
    destruct (Hall (entry p) (List.in_map entry _ _ Hin)) as (s0 & w0 & [Hf Hc] & Hcall).
    exists s0, w0. auto.
  - intros e Hsome.
    destruct (ParallelList_run run ctx (length items)
                (Pos.to_nat (connections (workers env))) items None excl env w1).1.1
      as [e'|] eqn:Hrun; [|discriminate].
    injection Hsome as ->.
    destruct (ParallelList_run_some run ctx env P items Hkeeps _ _ _ _ _ w1 e
                (fun x H => H) (conj eq_refl eq_refl) Hrun)
      as [Hfirst|(item & s0 & w0 & Hin & [Hf Hc] & Hcall)]; [discriminate|].
    apply List.in_map_iff in Hin. destruct Hin as (p & <- & Hin).
    exists p, s0, w0. auto.
Qed.

Lemma attempt_passes (excl : IDSet) w :
  responsive ctx env (clock w) ->
  Forall (passes l excl (files w)) (files w) ->
  (attempt l ctx excl env w).1.1 = None.
Proof.
  intros Hr Hall.
  destruct (attempt_verdicts excl w Hr) as [_ Hsome].
  destruct (attempt l ctx excl env w).1.1 as [e|]; [|reflexivity].
  destruct (Hsome e eq_refl) as (p & s0 & w0 & Hin & Hf & Hc & Hcall).
  rewrite passes_verdict with (fs := files w) in Hcall;
    [discriminate|rewrite Hc; exact Hr|exact Hf|].
  exact (proj1 (List.Forall_forall _ _) Hall p Hin).
Qed.

Lemma attempt_conflict (excl : IDSet) w :
  responsive ctx env (clock w) ->
  Forall (fun p => passes l excl (files w) p \/
                   (p.1 ∉ excl) /\ exists other, conflicting (Exclusive l) (files w) p other)
         (files w) ->
  (exists p other, In p (files w) /\ (p.1 ∉ excl) /\
                   conflicting (Exclusive l) (files w) p other) ->
  exists p other, In p (files w) /\ conflicting (Exclusive l) (files w) p other /\
    (attempt l ctx excl env w).1.1
    = Some (alreadyLockedError (set_lockID (Some p.1) other)).
Proof.
  intros Hr Hall (q & qother & Hq & Hqex & Hqc).
  destruct (attempt_verdicts excl w Hr) as [Hnone Hsome].
  destruct (attempt l ctx excl env w).1.1 as [e|].
  - destruct (Hsome e eq_refl) as (p & s0 & w0 & Hin & Hf & Hc & Hcall).
    destruct (proj1 (List.Forall_forall _ _) Hall p Hin) as [Hp|(Hex & other & Hconf)].
    + rewrite passes_verdict with (fs := files w) in Hcall;
        [discriminate|rewrite Hc; exact Hr|exact Hf|exact Hp].
    + rewrite conflicting_verdict with (fs := files w) (other := other) in Hcall;
        [|rewrite Hc; exact Hr|exact Hf|exact Hex|exact Hconf].
      exists p, other. split; [exact Hin|]. split; [exact Hconf|]. congruence.
  - exfalso. destruct (Hnone eq_refl q Hq) as (s0 & w0 & Hf & Hc & Hcall).
    rewrite conflicting_verdict with (fs := files w) (other := qother) in Hcall;
      [discriminate|rewrite Hc; exact Hr|exact Hf|exact Hqex|exact Hqc].
Qed.

Lemma harmless_passes fs p :
  harmless l fs p ->
  passes l (match lockID l with Some id => {[id]} | None => ∅ end) fs p.
Proof.
  intros [Hown|[Hsz|H]]; [left|right; left; exact Hsz|right; right; exact H].
  rewrite Hown. apply elem_of_singleton. reflexivity.
Qed.

Lemma foreign_not_checked id :
  lockID l <> Some id ->
  id ∉ (match lockID l with Some own => {[own]} | None => ∅ end : IDSet).
Proof.
  intros Hown. destruct (lockID l) as [own|].
  - intros Hin. apply elem_of_singleton in Hin. congruence.
  - apply not_elem_of_empty.
Qed.

Lemma checkForOtherLocks_passes w :
  responsive ctx env (clock w) ->
  Forall (harmless l (files w)) (files w) ->
  exists evs,
    checkForOtherLocks l ctx env w
    = (None, mkWorld (files w) (clock w) (trace w ++ EvList :: evs)) /\
    Forall scan_event evs.
Proof.
  intros Hr Hall. unfold checkForOtherLocks. rewrite bind_run. unfold ask.
  cbn [fst snd]. rewrite checkLoop_first. cbn zeta.
  set (excl := match lockID l with Some id => {[id]} | None => ∅ end).
  destruct (attempt_world excl w) as (evs & Hw & Hev).
  exists evs. rewrite attempt_passes, Hw; [auto|exact Hr|].
  eapply List.Forall_impl; [|exact Hall]. intros p. apply harmless_passes.
Qed.

Lemma checkForOtherLocks_conflict w :
  responsive ctx env (clock w) ->
  Forall (fun p => harmless l (files w) p \/
                   lockID l <> Some p.1 /\
                   exists other, conflicting (Exclusive l) (files w) p other)
         (files w) ->
  (exists p other, In p (files w) /\ lockID l <> Some p.1 /\
                   conflicting (Exclusive l) (files w) p other) ->
  exists p other evs,
    In p (files w) /\ conflicting (Exclusive l) (files w) p other /\
    checkForOtherLocks l ctx env w
    = (Some (alreadyLockedError (set_lockID (Some p.1) other)),
       mkWorld (files w) (clock w) (trace w ++ EvList :: evs)) /\
    Forall scan_event evs.
Proof.
  intros Hr Hall (q & qother & Hq & Hqown & Hqc).
  unfold checkForOtherLocks. rewrite bind_run. unfold ask.
  cbn [fst snd]. rewrite checkLoop_first. cbn zeta.
  set (excl := match lockID l with Some id => {[id]} | None => ∅ end).
  destruct (attempt_world excl w) as (evs & Hw & Hev).
  destruct (attempt_conflict excl w Hr) as (p & other & Hin & Hconf & Hres).
  - eapply List.Forall_impl; [|exact Hall].
    intros x [Hx|(Hown & Hc)]; [left; apply harmless_passes, Hx|right].
    split; [apply foreign_not_checked, Hown|exact Hc].
  - exists q, qother. split; [exact Hq|]. split; [apply foreign_not_checked, Hqown|exact Hqc].
  - exists p, other, evs. rewrite Hres, Hw. cbn [is_alreadyLockedError]. auto.
Qed.

End ScanOutcome.

(** ** Acquisitions on a store that answers *)

Lemma filled_descriptor_fields exclusive env w :
  Exclusive (filled_descriptor exclusive env w) = exclusive /\
  lockID (filled_descriptor exclusive env w) = None /\
  Time (filled_descriptor exclusive env w) = clock w /\
  PID (filled_descriptor exclusive env w) = os_pid env.
Proof.
  unfold filled_descriptor, new_descriptor. rewrite fillUserInfo_run. cbn [fst snd].
  destruct (user_current env), (os_hostname env); repeat split.
Qed.

Lemma fillUserInfo_user_ok exclusive env w :
  user_ok env ->
  (fillUserInfo (new_descriptor exclusive env w) env w).1
  = (filled_descriptor exclusive env w, None).
Proof.
  unfold user_ok, filled_descriptor. rewrite fillUserInfo_run. cbn [fst snd].
  destruct (user_current env) as [u|e]; [|reflexivity].
  intros H. destruct (uidGidInt env u) as [ids err]. cbn [snd] in *. subst err.
  reflexivity.
Qed.

Lemma compatible_harmless exclusive l fs p :
  Exclusive l = exclusive -> compatible exclusive fs p -> harmless l fs p.
Proof.
  intros Hl [Hsz|(o & lock & Hlook & Hbody & Hex & Hlock)].
  - right. left. exact Hsz.
  - right. right. exists o, lock. repeat split; congruence.
Qed.

Lemma ctx_done_earlier ctx t t' :
  t <= t' -> ctx_done ctx t' = false -> ctx_done ctx t = false.
Proof.
  unfold ctx_done. destruct (done_at ctx) as [c|]; [|reflexivity].
  intros Ht H. apply Z.leb_gt in H. apply Z.leb_gt. lia.
Qed.

Lemma settle_alone env w :
  alone env ->
  settle env w
  = (tt, mkWorld (files w) (clock w + Z.max 0 (waitBeforeLockCheck env))
                 (trace w ++ [EvSleep (clock w) (waitBeforeLockCheck env)])).
Proof.
  intros Halone. rewrite settle_run, time_Sleep_run. f_equal.
  destruct (0 <? waitBeforeLockCheck env) eqn:E.
  - rewrite Halone. f_equal. lia.
  - f_equal. lia.
Qed.

Lemma scan_events_write_nothing evs :
  Forall scan_event evs ->
  List.filter (fun ev => match ev with EvSave _ | EvRemove _ => true | _ => false end)
              evs
  = [].
Proof.
  induction 1 as [|ev evs Hev _ IH]; [reflexivity|].
  cbn [List.filter]. destruct ev; cbn in Hev; try contradiction; exact IH.
Qed.

Lemma NewLock_succeeds_run ctx exclusive env w :
  quiet env ->
  ctx_done ctx (clock w + Z.max 0 (waitBeforeLockCheck env)) = false ->
  user_ok env ->
  Forall (compatible exclusive (files w)) (files w) ->
  let lock := filled_descriptor exclusive env w in
  let id := idOf env (descriptor lock) in
  exists evs,
    NewLock ctx exclusive env w
    = (Ok (set_lockID (Some id) lock),
       mkWorld (remove_file id (files w) ++ [(id, lock_object env lock)])
               (clock w + Z.max 0 (waitBeforeLockCheck env))
               (trace w ++ evs)) /\
    List.filter (fun ev => match ev with EvSave _ | EvRemove _ => true | _ => false end)
                evs
    = [EvSave id].
Proof.
  intros [Hfault Halone] Hopen Huser Hall. cbn zeta.
  set (lock := filled_descriptor exclusive env w).
  set (id := idOf env (descriptor lock)).
  destruct (filled_descriptor_fields exclusive env w) as (Hex & Hnone & _).
  fold lock in Hex, Hnone.
  assert (R0 : responsive ctx env (clock w)).
  { split; [|apply Hfault]. eapply ctx_done_earlier; [|exact Hopen]. lia. }
  rewrite NewLock_unfold. cbn zeta. rewrite fillUserInfo_user_ok by exact Huser.
  fold lock. cbn [fst snd].
  unfold two_phase, precheck, publish, postcheck.
  rewrite bind_run.
  destruct (checkForOtherLocks_passes lock ctx env w R0) as (evs1 & Hpre & Hev1).
  { eapply List.Forall_impl; [|exact Hall].
    intros p. apply compatible_harmless. exact Hex. }
  rewrite Hpre. cbn [fst snd].
  rewrite bind_run, bind_run, createLock_responsive by exact R0.
  fold id. cbn [fst snd ret files clock trace].
  unfold seq. rewrite bind_run, settle_alone by exact Halone.
  cbn [fst snd files clock trace].
  set (fs3 := remove_file id (files w) ++ [(id, lock_object env lock)]).
  set (w3 := mkWorld _ _ _).
  assert (Hclock : clock w3 = clock w + Z.max 0 (waitBeforeLockCheck env))
    by reflexivity.
  assert (Hfiles : files w3 = fs3) by reflexivity.
  assert (R3 : responsive ctx env (clock w3))
    by (rewrite Hclock; split; [exact Hopen|apply Hfault]).
  rewrite bind_run.
  destruct (checkForOtherLocks_passes (set_lockID (Some id) lock) ctx env w3 R3)
    as (evs2 & Hpost & Hev2).
  { rewrite Hfiles. subst fs3. apply List.Forall_app. split.
    - apply List.Forall_forall. intros p Hin.
      apply List.filter_In in Hin. destruct Hin as [Hin Hne].
      apply negb_true_iff, N.eqb_neq in Hne.
      pose proof (proj1 (List.Forall_forall _ _) Hall p Hin) as Hc.
      destruct Hc as [Hsz|(o & other & Hlook & Hbody & Hx & Hother)].
      + right. left. exact Hsz.
      + right. right. exists o, other.
        rewrite lookup_file_saved_other
          by (intros Heq; apply Hne; symmetry; exact Heq).
        cbn [Exclusive set_lockID]. repeat split; congruence.
    - constructor; [|constructor]. left. reflexivity. }
  rewrite Hpost. cbn [fst snd ret]. rewrite Hfiles, Hclock.
  eexists. split.
  - f_equal. f_equal. subst w3. cbn [trace]. rewrite <- !app_assoc. reflexivity.
  - rewrite !List.filter_app. cbn [List.filter app].
    rewrite (scan_events_write_nothing evs1 Hev1), (scan_events_write_nothing evs2 Hev2).
    reflexivity.
Qed.

(** X10.  On a store that answers, on which nobody else writes, and whose
    objects are all empty or, for a non-exclusive acquirer, non-exclusive
    locks, [NewLock] succeeds when the context stays open over the settle
    delay: it returns the descriptor with the id of its file, the file holds
    the descriptor, every other object is as it was, the only write is the
    one save, and the call takes the settle delay and no more. *)
Theorem NewLock_succeeds (ctx : Ctx) (exclusive : bool) (env : Env) (w : World) :
  quiet env ->
  ctx_done ctx (clock w + Z.max 0 (waitBeforeLockCheck env)) = false ->
  user_ok env ->
  Forall (compatible exclusive (files w)) (files w) ->
  let lock := filled_descriptor exclusive env w in
  let id := idOf env (descriptor lock) in
  let r := NewLock ctx exclusive env w in
  r.1 = Ok (set_lockID (Some id) lock) /\
  Exclusive lock = exclusive /\ Time lock = clock w /\ PID lock = os_pid env /\
  lookup_file id (files r.2) = Some (lock_object env lock) /\
  (forall id', id' <> id -> lookup_file id' (files r.2) = lookup_file id' (files w)) /\
  clock r.2 = clock w + Z.max 0 (waitBeforeLockCheck env) /\
  exists evs, trace r.2 = trace w ++ evs /\
    List.filter (fun ev => match ev with EvSave _ | EvRemove _ => true | _ => false end)
                evs
    = [EvSave id].
Proof.
  intros Hq Hopen Huser Hall. cbn zeta.
  destruct (NewLock_succeeds_run ctx exclusive env w Hq Hopen Huser Hall)
    as (evs & Hrun & Hwrites).
  destruct (filled_descriptor_fields exclusive env w) as (Hex & _ & Ht & Hp).
  rewrite Hrun. cbn [fst snd files clock trace].
  split; [reflexivity|]. split; [exact Hex|]. split; [exact Ht|]. split; [exact Hp|].
  split; [apply lookup_file_saved|].
  split; [intros id' Hne; apply lookup_file_saved_other; congruence|].
  split; [reflexivity|]. exists evs. split; [reflexivity|exact Hwrites].
Qed.

Lemma NewLock_succeeds_witness :
  match (NewLock background false Sample.env
           (Sample.world_of [(1%N, Sample.placeholder);
                             (2%N, Sample.obj_of Sample.reader)])).1 with
  | Ok lock => lockID lock = Some 78251088364275917955072%N
  | Err _ => False
  end.
Proof.
  rewrite (proj1 (NewLock_succeeds background false Sample.env
                    (Sample.world_of [(1%N, Sample.placeholder);
                                      (2%N, Sample.obj_of Sample.reader)])
                    (conj (fun _ _ => eq_refl) (fun _ _ _ => eq_refl))
                    eq_refl eq_refl
                    ltac:(constructor;
                          [left; reflexivity
                          |constructor;
                           [right; exists (Sample.obj_of Sample.reader), Sample.reader;
                            repeat split
                           |constructor]]))).
  vm_compute. reflexivity.
Defined.

Lemma NewLock_conflict_run (ctx : Ctx) (exclusive : bool) (env : Env) (w : World) :
  responsive ctx env (clock w) ->
  user_ok env ->
  Forall (fun p => compatible exclusive (files w) p \/
                   exists other, conflicting exclusive (files w) p other) (files w) ->
  (exists p other, In p (files w) /\ conflicting exclusive (files w) p other) ->
  exists p other evs,
    In p (files w) /\ conflicting exclusive (files w) p other /\
    NewLock ctx exclusive env w
    = (Err (alreadyLockedError (set_lockID (Some p.1) other)),
       mkWorld (files w) (clock w) (trace w ++ EvList :: evs)) /\
    Forall scan_event evs.
Proof.
  intros Hr Huser Hall (q & qother & Hq & Hqc).
  destruct (filled_descriptor_fields exclusive env w) as (Hx & Hnone & _).
  rewrite NewLock_unfold. cbn zeta. rewrite fillUserInfo_user_ok by exact Huser.
  cbn [fst snd]. unfold two_phase, precheck. rewrite bind_run.
  destruct (checkForOtherLocks_conflict (filled_descriptor exclusive env w) ctx env w Hr)
    as (p & other & evs & Hin & Hconf & Hrun & Hev).
  - eapply List.Forall_impl; [|exact Hall].
    intros x [Hc|(other & Hc)].
    + left. apply (compatible_harmless exclusive); [exact Hx|exact Hc].
    + right. split; [rewrite Hnone; discriminate|].
      exists other. rewrite Hx. exact Hc.
  - exists q, qother. split; [exact Hq|]. split; [rewrite Hnone; discriminate|].
    rewrite Hx. exact Hqc.
  - exists p, other, evs. rewrite Hx in Hconf. rewrite Hrun. cbn [fst snd ret]. auto.
Qed.

(** X11.  On a store that answers, [NewLock] is refused at once when a lock
    stands in its way: when every object is empty, a lock compatible with the
    request or a lock that conflicts with it, and there is one of the last,
    the error is an [alreadyLockedError] that carries one of the conflicting
    locks with its id, which one being up to the order the workers load in.
    No retry delay is taken, nothing is saved, and the store and the clock
    are as before. *)
Theorem NewLock_blocked (ctx : Ctx) (exclusive : bool) (env : Env) (w : World) :
  responsive ctx env (clock w) ->
  user_ok env ->
  Forall (fun p => compatible exclusive (files w) p \/
                   exists other, conflicting exclusive (files w) p other) (files w) ->
  (exists p other, In p (files w) /\ conflicting exclusive (files w) p other) ->
  let r := NewLock ctx exclusive env w in
  (exists p other, In p (files w) /\ conflicting exclusive (files w) p other /\
                   r.1 = Err (alreadyLockedError (set_lockID (Some p.1) other))) /\
  (forall e, r.1 = Err e -> IsAlreadyLocked e = true) /\
  files r.2 = files w /\
  clock r.2 = clock w /\
  exists evs, trace r.2 = trace w ++ evs /\ Forall scan_event evs.
Proof.
  intros Hr Huser Hall Hsome. cbn zeta.
  destruct (NewLock_conflict_run ctx exclusive env w Hr Huser Hall Hsome)
    as (p & other & evs & Hin & Hconf & Hrun & Hev).
  rewrite Hrun. cbn [fst snd files clock trace].
  split; [exists p, other; auto|]. split; [intros e [= <-]; reflexivity|].
  split; [reflexivity|]. split; [reflexivity|].
  exists (EvList :: evs). split; [reflexivity|]. constructor; [exact I|exact Hev].
Qed.

Lemma NewLock_blocked_witness :
  match (NewLock background false (with_workers Sample.second_first Sample.env)
           (Sample.world_of [(1%N, Sample.placeholder);
                             (2%N, Sample.obj_of Sample.reader);
                             (3%N, Sample.obj_of Sample.writer)])).1 with
  | Err e => IsAlreadyLocked e = true
  | Ok _ => False
  end.
Proof.
  destruct (proj1 (NewLock_blocked background false
                     (with_workers Sample.second_first Sample.env)
                     (Sample.world_of
                        [(1%N, Sample.placeholder); (2%N, Sample.obj_of Sample.reader);
                         (3%N, Sample.obj_of Sample.writer)])
                     (conj eq_refl (fun _ => eq_refl)) eq_refl
                     ltac:(constructor;
                           [left; left; reflexivity
                           |constructor;
                            [left; right;
                             exists (Sample.obj_of Sample.reader), Sample.reader;
                             repeat split
                            |constructor;
                             [right; exists Sample.writer;
                              split; [discriminate|];
                              exists (Sample.obj_of Sample.writer); repeat split
                             |constructor]]])
                     ltac:(exists (3%N, Sample.obj_of Sample.writer), Sample.writer;
                           split; [right; right; left; reflexivity|];
                           split; [discriminate|];
                           exists (Sample.obj_of Sample.writer); repeat split)))
    as (p & other & _ & _ & Hres).
  rewrite Hres. reflexivity.
Defined.

(** ** Acquiring and releasing *)

Lemma remove_file_saved id o fs :
  has_file id fs = false -> remove_file id (remove_file id fs ++ [(id, o)]) = fs.
Proof.
  intros H. rewrite (remove_file_absent id fs H).
  unfold remove_file. rewrite List.filter_app. cbn [List.filter fst].
  rewrite N.eqb_refl. cbn [negb]. rewrite app_nil_r.
  apply (remove_file_absent id fs H).
Qed.

(** X12.  Acquiring and releasing is a round trip on the store: after a
    [NewLock] that succeeded as above with an id the store did not hold, an
    [Unlock], whatever its context, returns no error and leaves the lock
    objects exactly as they were before the acquisition. *)
Theorem NewLock_Unlock_round_trip (ctx ctx' : Ctx) (exclusive : bool) (env : Env)
    (w : World) :
  quiet env ->
  ctx_done ctx (clock w + Z.max 0 (waitBeforeLockCheck env)) = false ->
  user_ok env ->
  Forall (compatible exclusive (files w)) (files w) ->
  has_file (idOf env (descriptor (filled_descriptor exclusive env w))) (files w) = false ->
  let r := NewLock ctx exclusive env w in
  match r.1 with
  | Ok lock =>
      (Unlock (Some lock) ctx' env r.2).1 = None /\
      files (Unlock (Some lock) ctx' env r.2).2 = files w
  | Err _ => False
  end.
Proof.
  intros Hq Hopen Huser Hall Hfresh. cbn zeta.
  destruct (NewLock_succeeds_run ctx exclusive env w Hq Hopen Huser Hall)
    as (evs & Hrun & _).
  rewrite Hrun. cbn [fst snd].
  rewrite (Unlock_held _ (idOf env (descriptor (filled_descriptor exclusive env w))))
    by reflexivity.
  rewrite RemoveUnpacked_run, backend_call_run.
  rewrite (delayedCancelContext_open ctx' UnlockCancelDelay env _ _ UnlockCancelDelay_pos)
    by (pose proof UnlockCancelDelay_pos; lia).
  rewrite (proj1 Hq). cbn [fst snd files].
  split; [reflexivity|]. apply remove_file_saved, Hfresh.
Qed.

Lemma NewLock_Unlock_round_trip_witness :
  let w := Sample.world_of [(1%N, Sample.placeholder);
                            (2%N, Sample.obj_of Sample.reader)] in
  match (NewLock background false Sample.env w).1 with
  | Ok lock =>
      (Unlock (Some lock) (mkCtx (Some Sample.t0)) Sample.env
         (NewLock background false Sample.env w).2).1 = None /\
      files (Unlock (Some lock) (mkCtx (Some Sample.t0)) Sample.env
               (NewLock background false Sample.env w).2).2
      = [(1%N, Sample.placeholder); (2%N, Sample.obj_of Sample.reader)]
  | Err _ => False
  end.
Proof.
  exact (NewLock_Unlock_round_trip background (mkCtx (Some Sample.t0)) false Sample.env
           (Sample.world_of [(1%N, Sample.placeholder);
                             (2%N, Sample.obj_of Sample.reader)])
           (conj (fun _ _ => eq_refl) (fun _ _ _ => eq_refl))
           eq_refl eq_refl
           ltac:(constructor;
                 [left; reflexivity
                 |constructor;
                  [right; exists (Sample.obj_of Sample.reader), Sample.reader;
                   repeat split
                  |constructor]])
           eq_refl).
Defined.

(** ** A refreshed lock is not stale *)

(** X13.  [Refresh] stamps the lock with the current time before it saves,
    so whether or not the save and the removal succeed, the lock it leaves is
    not stale for an observer as long as no more than the stale timeout has
    passed since the call and, on the lock's own host, its process is
    alive. *)
Theorem Refresh_renews (l : Lock) (ctx : Ctx) (env : Env) (w : World)
    (env' : Env) (w' : World) :
  let r := Refresh l ctx env w in
  minDuration <= StaleLockTimeout env' < maxDuration ->
  clock w' - clock w <= StaleLockTimeout env' ->
  (os_hostname env' = Ok (Hostname l) -> processExists env' r.1.1 = true) ->
  Time r.1.1 = clock w /\ (Stale r.1.1 env' w').1 = false.
Proof.
  cbn zeta. intros Hrange Hage Halive.
  assert (Hl : Time (Refresh l ctx env w).1.1 = clock w /\
               Hostname (Refresh l ctx env w).1.1 = Hostname l).
  { unfold Refresh. rewrite bind_run. unfold time_Now, get. cbn [fst snd].
    rewrite bind_run.
    destruct (createLock (set_Time (clock w) l) ctx env w) as [[id|e] w1];
      cbn [fst snd ret]; [|split; reflexivity].
    cbn [set_Time lockID]. destruct (lockID l) as [old|]; [|split; reflexivity].
    rewrite bind_run. cbn [fst snd ret]. split; reflexivity. }
  destruct Hl as [Ht Hh]. split; [exact Ht|].
  rewrite Stale_unfold. cbn [fst]. rewrite saturate_gt by exact Hrange.
  rewrite Ht. assert (E : (StaleLockTimeout env' <? clock w' - clock w) = false)
    by (apply Z.ltb_ge; lia).
  rewrite E. destruct (os_hostname env') as [hn|e] eqn:Ehn; [|reflexivity].
  rewrite Hh. destruct (String.eqb hn (Hostname l)) eqn:Eq; cbn [negb]; [|reflexivity].
  apply String.eqb_eq in Eq. subst hn. rewrite Halive by reflexivity. reflexivity.
Qed.

Lemma Refresh_renews_witness :
  let held := mkLock (Sample.t0 - 40 * Minute) true "host-a" "alice" 4242 1000 1000
                     (Some 5%N) in
  let w := Sample.world_of [(5%N, Sample.obj_of held)] in
  (Stale held Sample.env w).1 = true /\
  (Stale (Refresh held background Sample.env w).1.1 Sample.env
         (mkWorld [] (Sample.t0 + 30 * Minute) [])).1 = false.
Proof.
  cbn zeta. split; [vm_compute; reflexivity|].
  apply (Refresh_renews
           (mkLock (Sample.t0 - 40 * Minute) true "host-a" "alice" 4242 1000 1000
                   (Some 5%N))
           background Sample.env
           (Sample.world_of
              [(5%N, Sample.obj_of (mkLock (Sample.t0 - 40 * Minute) true "host-a"
                                           "alice" 4242 1000 1000 (Some 5%N)))])
           Sample.env (mkWorld [] (Sample.t0 + 30 * Minute) [])).
  - vm_compute. split; [discriminate|reflexivity].
  - vm_compute. discriminate.
  - intros _. reflexivity.
Defined.

(** ** A failed acquisition *)

(** X14.  A [NewLock] that fails leaves the lock objects as it found them:
    on a store without faults on which nobody else writes, whatever the check
    after the save reports, and whenever the context is cancelled, the file
    [NewLock] has saved is removed again before the error is returned. *)
Theorem NewLock_failure_restores (ctx : Ctx) (exclusive : bool) (env : Env) (w : World)
    (e : error) :
  quiet env ->
  has_file (idOf env (descriptor (filled_descriptor exclusive env w))) (files w) = false ->
  (NewLock ctx exclusive env w).1 = Err e ->
  files (NewLock ctx exclusive env w).2 = files w.
Proof.
  intros [Hfault Halone] Hfresh. unfold filled_descriptor in Hfresh.
  rewrite NewLock_unfold. cbn zeta.
  destruct (fillUserInfo _ env w).1 as [lock [e0|]]; cbn [fst snd] in *;
    [reflexivity|].
  unfold two_phase, precheck, publish, postcheck, bind, ret. cbn [fst snd].
  pose proof (checkForOtherLocks_files lock ctx env Halone w) as Hf1.
  destruct (checkForOtherLocks lock ctx env w) as [[e1|] w1]; cbn [fst snd] in *;
    [intros _; exact Hf1|].
  unfold createLock. rewrite SaveJSONUnpacked_run, backend_call_run. cbn [fst].
  destruct (ctx_done ctx (clock w1)) eqn:Eopen; cbn [fst snd files];
    [intros _; exact Hf1|].
  rewrite Hfault. cbn [fst snd]. rewrite settle_alone by exact Halone.
  cbn [fst snd files clock trace].
  set (id := idOf env (descriptor lock)) in *.
  set (w3 := mkWorld _ _ _).
  pose proof (checkForOtherLocks_files (set_lockID (Some id) lock) ctx env Halone w3)
    as Hf4.
  destruct (checkForOtherLocks (set_lockID (Some id) lock) ctx env w3) as [[e4|] w4];
    cbn [fst snd] in *; [|discriminate].
  intros _. rewrite (Unlock_held (set_lockID (Some id) lock) id) by reflexivity.
  rewrite RemoveUnpacked_run, backend_call_run.
  rewrite (delayedCancelContext_open ctx UnlockCancelDelay env w4 _ UnlockCancelDelay_pos)
    by (pose proof UnlockCancelDelay_pos; lia).
  rewrite Hfault. cbn [fst snd files].
  rewrite Hf4. subst w3. cbn [files]. rewrite remove_file_saved by congruence.
  exact Hf1.
Qed.

Lemma NewLock_failure_restores_witness :
  let w := Sample.world_of [(2%N, Sample.obj_of Sample.reader)] in
  let ctx := mkCtx (Some (Sample.t0 + 100 * Millisecond)) in
  (NewLock ctx false Sample.env w).1 = Err ContextCanceled /\
  files (NewLock ctx false Sample.env w).2 = [(2%N, Sample.obj_of Sample.reader)].
Proof.
  cbn zeta. split; [vm_compute; reflexivity|].
  apply (NewLock_failure_restores (mkCtx (Some (Sample.t0 + 100 * Millisecond))) false
           Sample.env (Sample.world_of [(2%N, Sample.obj_of Sample.reader)])
           ContextCanceled).
  - split; [intros t op; reflexivity|intros a b fs; reflexivity].
  - vm_compute. reflexivity.
  - vm_compute. reflexivity.
Defined.

(** ** One acquisition after another *)

(** X15.  A lock that [NewLock] has returned keeps the next acquirer out
    when one of the two is exclusive: on a store that held no lock before,
    the second [NewLock], by whatever process and however long after the
    first, fails at once with an [alreadyLockedError] that carries exactly
    the lock the first call returned. *)
Theorem NewLock_then_blocked (ctx1 ctx2 : Ctx) (ex1 ex2 : bool) (env1 env2 : Env)
    (w : World) :
  quiet env1 ->
  ctx_done ctx1 (clock w + Z.max 0 (waitBeforeLockCheck env1)) = false ->
  user_ok env1 ->
  Forall (fun p : ID * Obj => osize p.2 = 0) (files w) ->
  jsonSize env1 (descriptor (filled_descriptor ex1 env1 w)) <> 0 ->
  ex1 || ex2 = true ->
  user_ok env2 ->
  forall w2 : World,
  files w2 = files (NewLock ctx1 ex1 env1 w).2 ->
  responsive ctx2 env2 (clock w2) ->
  match (NewLock ctx1 ex1 env1 w).1 with
  | Ok held => (NewLock ctx2 ex2 env2 w2).1 = Err (alreadyLockedError held)
  | Err _ => False
  end.
Proof.
  intros Hq Hopen Huser1 Hempty Hsize Hex Huser2 w2 Hfiles Hr2.
  assert (Hall : Forall (compatible ex1 (files w)) (files w)).
  { eapply List.Forall_impl; [|exact Hempty]. intros p Hp. left. exact Hp. }
  destruct (NewLock_succeeds_run ctx1 ex1 env1 w Hq Hopen Huser1 Hall)
    as (evs & Hrun & _).
  destruct (filled_descriptor_fields ex1 env1 w) as (Hx & _).
  rewrite Hrun in Hfiles |- *. cbn [fst snd files] in Hfiles |- *.
  set (lock := filled_descriptor ex1 env1 w) in *.
  set (id := idOf env1 (descriptor lock)) in *.
  assert (Hheld : conflicting ex2 (files w2) (id, lock_object env1 lock) (descriptor lock)).
  { split; [exact Hsize|]. exists (lock_object env1 lock).
    split; [rewrite Hfiles; apply lookup_file_saved|]. split; [reflexivity|].
    cbn [descriptor set_lockID Exclusive]. rewrite Hx.
    destruct ex1, ex2; try reflexivity; discriminate. }
  assert (Hsmall : forall p, In p (files w2) ->
            osize p.2 = 0 \/ p = (id, lock_object env1 lock)).
  { intros p Hin. rewrite Hfiles in Hin. apply List.in_app_iff in Hin.
    destruct Hin as [Hin|[<-|[]]]; [left|right; reflexivity].
    apply List.filter_In in Hin. destruct Hin as [Hin _].
    exact (proj1 (List.Forall_forall _ _) Hempty p Hin). }
  destruct (NewLock_conflict_run ctx2 ex2 env2 w2 Hr2 Huser2)
    as (p & other & evs2 & Hin & (Hsz & o & Hlook & Hbody & _) & Hrun2 & _).
  - apply List.Forall_forall. intros p Hin.
    destruct (Hsmall p Hin) as [Hp| ->]; [left; left; exact Hp|right].
    exists (descriptor lock). exact Hheld.
  - exists (id, lock_object env1 lock), (descriptor lock). split; [|exact Hheld].
    rewrite Hfiles. apply List.in_app_iff. right. left. reflexivity.
  - rewrite Hrun2. cbn [fst].
    destruct (Hsmall p Hin) as [Hp| ->]; [contradiction|].
    cbn [fst] in *. rewrite Hfiles, lookup_file_saved in Hlook.
    injection Hlook as <-. cbn [lock_object obody] in Hbody. injection Hbody as <-.
    reflexivity.
Qed.

Lemma NewLock_then_blocked_witness :
  let w := Sample.world_of [(1%N, Sample.placeholder)] in
  match (NewLock background false Sample.env w).1 with
  | Ok held =>
      (NewLock background true (with_pid 4343 Sample.env)
         (NewLock background false Sample.env w).2).1
      = Err (alreadyLockedError held)
  | Err _ => False
  end.
Proof.
  exact (NewLock_then_blocked background background false true Sample.env
           (with_pid 4343 Sample.env) (Sample.world_of [(1%N, Sample.placeholder)])
           (conj (fun _ _ => eq_refl) (fun _ _ _ => eq_refl))
           eq_refl eq_refl
           ltac:(constructor; [reflexivity|constructor])
           ltac:(vm_compute; discriminate) eq_refl eq_refl
           (NewLock background false Sample.env
              (Sample.world_of [(1%N, Sample.placeholder)])).2
           eq_refl (conj eq_refl (fun _ => eq_refl))).
Defined.

(** ** Locks without a file *)

(** X16.  A lock whose [lockID] is nil cannot be refreshed.  [Refresh]
    follows the nil pointer only after it has saved: on a store that answers
    it leaves the new file in the repository and the lock naming it, and
    ends in the run-time panic.  [RefreshStaleLock] follows it in the
    callback of its first listing: on a store that lists no object it
    returns [ErrRemovedLock], on any other it ends in the panic; either way
    it saves nothing. *)
Theorem refresh_without_lockID (l : Lock) (ctx : Ctx) (env : Env) (w : World) :
  lockID l = None ->
  responsive ctx env (clock w) ->
  let new := idOf env (descriptor (set_Time (clock w) l)) in
  let r := Refresh l ctx env w in
  let s := RefreshStaleLock l ctx env w in
  (r.1.2 = Some nilDereference /\
   lockID r.1.1 = Some new /\
   lookup_file new (files r.2) = Some (lock_object env (set_Time (clock w) l)) /\
   trace r.2 = trace w ++ [EvSave new]) /\
  (s.1.2 = Some (match files w with [] => ErrRemovedLock | _ :: _ => nilDereference end) /\
   s.1.1 = l /\
   s.2 = mkWorld (files w) (clock w) (trace w ++ [EvList])).
Proof.
  intros Hid Hr. cbn zeta. split.
  - unfold Refresh. rewrite bind_run. unfold time_Now, get. cbn [fst snd].
    rewrite bind_run, createLock_responsive by exact Hr. cbn [fst snd].
    cbn [set_Time lockID]. rewrite Hid. cbn [ret fst snd files trace set_lockID lockID].
    repeat split. apply lookup_file_saved.
  - unfold RefreshStaleLock, checkExistence.
    rewrite bind_run, bind_run, repo_List_run, backend_call_responsive by exact Hr.
    cbn [fst snd]. rewrite Hid.
    destruct (files w) as [|p fs]; cbn [List.map ret fst snd negb]; repeat split.
Qed.

Lemma refresh_without_lockID_witness :
  (Refresh Sample.reader background Sample.env
     (Sample.world_of [(2%N, Sample.obj_of Sample.writer)])).1.2 = Some nilDereference /\
  (RefreshStaleLock Sample.reader background Sample.env
     (Sample.world_of [(2%N, Sample.obj_of Sample.writer)])).1.2 = Some nilDereference.
Proof.
  pose proof (refresh_without_lockID Sample.reader background Sample.env
                (Sample.world_of [(2%N, Sample.obj_of Sample.writer)])
                eq_refl (conj eq_refl (fun _ => eq_refl))) as H.
  cbn zeta in H. split; [exact (proj1 (proj1 H))|exact (proj1 (proj2 H))].
Defined.

(** ** What a granted lock proves *)

Section Granted.

Variables (l : Lock) (ctx : Ctx) (env : Env).

(** A call that adds an id to the checked set, or returns no error for an
    object it does not skip, has loaded a lock that [l] can share the
    repository with. *)
Lemma callback_shared c (excl : IDSet) fs id size (s : IDSet) w :
  files w = fs ->
  ((ForAllLocks_item c excl (checkCallback l) id size s env w).1.1 = None ->
   id ∈ excl \/ size = 0 \/ shared l fs id) /\
  (forall i, i ∈ (ForAllLocks_item c excl (checkCallback l) id size s env w).1.2 ->
             i ∈ s \/ shared l fs i).
Proof.
  intros Hfs.
  destruct (decide (id ∈ excl \/ size = 0)) as [Hskip|Hload].
  { rewrite ForAllLocks_item_skip by exact Hskip. split; [tauto|auto]. }
  rewrite ForAllLocks_item_load by tauto. rewrite LoadLock_run. cbn [fst snd].
  rewrite Hfs.
  destruct (backend_call c (OpLoad id) env w).1 as [e|];
    [split; [discriminate|auto]|].
  destruct (lookup_file id fs) as [o|] eqn:Hlook; [|split; [discriminate|auto]].
  destruct (obody o) as [lock|] eqn:Hbody; [|split; [discriminate|auto]].
  rewrite checkCallback_loaded. cbn [Exclusive set_lockID].
  destruct (Exclusive l || Exclusive lock) eqn:Hex; [split; [discriminate|auto]|].
  apply orb_false_iff in Hex.
  assert (Hsh : shared l fs id) by (exists o, lock; tauto).
  cbn [fst snd]. split; [auto|].
  intros i Hi. apply elem_of_union in Hi. destruct Hi as [Hi|Hi]; [|auto].
  apply elem_of_singleton in Hi. subst i. auto.
Qed.

Lemma attempt_none_passes (excl : IDSet) w :
  (attempt l ctx excl env w).1.1 = None ->
  Forall (passes l excl (files w)) (files w).
Proof.
  unfold attempt. rewrite ForAllLocks_unfold. cbn zeta. cbn [fst snd].
  set (run := fun c => ForAllLocks_item c excl (checkCallback l)).
  set (w1 := mkWorld (files w) (clock w) (trace w ++ [EvList])).
  intros Hnone.
  destruct (ParallelList_run run ctx (length (listing ctx env w))
              (Pos.to_nat (connections (workers env))) (listing ctx env w) None excl
              env w1).1.1 as [e|] eqn:Hrun; [discriminate|].
  assert (Hlist : listing ctx env w
                  = List.map (fun p : ID * Obj => (p.1, osize p.2)) (files w)).
  { unfold listing. destruct (backend_call ctx OpList env w).1; [discriminate|].
    reflexivity. }
  destruct (ParallelList_run_none run ctx env (fun _ w' => files w' = files w)
              (listing ctx env w)) with (6 := Hrun) as [_ Hall].
  - intros c [id size] s0 w0 _ Hf. subst run. cbn [fst snd].
    destruct (ForAllLocks_item_effect l c excl [(id, size)] id size s0 env w0)
      as (Hf' & _); [left; reflexivity|]. congruence.
  - reflexivity.
  - apply Pos2Nat.is_pos.
  - auto.
  - reflexivity.
  - apply List.Forall_forall. intros p Hin.
    destruct (Hall (p.1, osize p.2)) as (s0 & w0 & Hf & Hcall).
    { rewrite Hlist. apply (List.in_map (fun p : ID * Obj => (p.1, osize p.2))), Hin. }
    subst run. cbn [fst snd] in Hcall.
    exact (proj1 (callback_shared ctx excl (files w) p.1 (osize p.2) s0 w0 Hf) Hcall).
Qed.

Lemma attempt_set_shared (excl : IDSet) w id :
  id ∈ (attempt l ctx excl env w).1.2 -> id ∈ excl \/ shared l (files w) id.
Proof.
  unfold attempt. rewrite ForAllLocks_unfold. cbn zeta. cbn [fst snd].
  revert id.
  apply (ParallelList_run_keeps (fun c => ForAllLocks_item c excl (checkCallback l))
           ctx env
           (fun (s : IDSet) w' => files w' = files w /\
                                  forall i, i ∈ s -> i ∈ excl \/ shared l (files w) i)
           (listing ctx env w)).
  - intros c [id size] s0 w0 _ [Hf Hs]. cbn [fst snd].
    destruct (ForAllLocks_item_effect l c excl [(id, size)] id size s0 env w0)
      as (Hf' & _); [left; reflexivity|].
    split; [congruence|]. intros i Hi.
    destruct (proj2 (callback_shared c excl (files w) id size s0 w0 Hf) i Hi) as [H|H];
      [apply Hs, H|right; exact H].
  - auto.
  - split; [reflexivity|auto].
Qed.

Hypothesis env_alone : alone env.

Lemma passes_weaken (excl0 excl : IDSet) fs p :
  (forall id, id ∈ excl -> id ∈ excl0 \/ shared l fs id) ->
  passes l excl fs p -> passes l excl0 fs p.
Proof.
  intros Hinv [Hin|[Hsz|Hsh]].
  - destruct (Hinv _ Hin) as [H|H]; [left; exact H|right; right; exact H].
  - right. left. exact Hsz.
  - right. right. exact Hsh.
Qed.

Lemma checkLoop_none_passes (excl0 : IDSet) n : forall i delay (excl : IDSet) err w,
  (forall id, id ∈ excl -> id ∈ excl0 \/ shared l (files w) id) ->
  (checkLoop l ctx n i delay excl err env w).1 = None ->
  n <> 0%nat ->
  Forall (passes l excl0 (files w)) (files w).
Proof.
  induction n as [|n IH]; intros i delay excl err w Hinv Hnone Hn; [contradiction|].
  clear Hn.
  assert (Hstep : forall w0, files w0 = files w ->
            (match (attempt l ctx excl env w0).1.1 with
             | None => (None, (attempt l ctx excl env w0).2)
             | Some e =>
                 if is_alreadyLockedError e then (Some e, (attempt l ctx excl env w0).2)
                 else checkLoop l ctx n (S i) (if Nat.eqb i 0 then delay
                                               else wrap64 (delay * 2))
                                (attempt l ctx excl env w0).1.2 (Some e) env
                                (attempt l ctx excl env w0).2
             end).1 = None ->
            Forall (passes l excl0 (files w)) (files w)).
  { intros w0 Hf0.
    pose proof (attempt_none_passes excl w0) as Hpass.
    pose proof (attempt_set_shared excl w0) as Hset.
    destruct (attempt_effect l ctx excl env w0) as (Hf & _).
    destruct (attempt l ctx excl env w0) as [[[e|] s] w1]; cbn [fst snd] in *.
    - destruct (is_alreadyLockedError e); [discriminate|].
      intros H.
      destruct n as [|n']; [cbn in H; destruct (Is_ErrInvalidData e); discriminate|].
      assert (Hinv' : forall id, id ∈ s -> id ∈ excl0 \/ shared l (files w1) id).
      { intros id Hin. rewrite Hf.
        destruct (Hset id Hin) as [Hs|Hs]; [|right; exact Hs].
        rewrite Hf0. apply Hinv, Hs. }
      assert (Hn : S n' <> 0%nat) by discriminate.
      pose proof (IH _ _ _ _ _ Hinv' H Hn) as Hall.
      rewrite Hf, Hf0 in Hall. exact Hall.
    - intros _. specialize (Hpass eq_refl). rewrite Hf0 in Hpass.
      eapply List.Forall_impl; [|exact Hpass].
      intros p. apply passes_weaken, Hinv. }
  destruct i as [|i].
  - rewrite checkLoop_first in Hnone. cbn zeta in Hnone.
    apply (Hstep w eq_refl). exact Hnone.
  - rewrite checkLoop_next in Hnone. cbn zeta in Hnone.
    pose proof (cancelableDelay_files ctx env env_alone delay w) as Hfiles.
    destruct (cancelableDelay ctx delay env w) as [[e|] w0]; cbn [fst snd] in *;
      [discriminate|].
    apply (Hstep w0 Hfiles). exact Hnone.
Qed.

Lemma checkForOtherLocks_none_harmless w :
  (checkForOtherLocks l ctx env w).1 = None ->
  Forall (harmless l (files w)) (files w).
Proof.
  unfold checkForOtherLocks. rewrite bind_run. unfold ask. cbn [fst snd].
  intros H.
  apply (checkLoop_none_passes
           (match lockID l with Some id => {[id]} | None => ∅ end)) in H;
    [|auto|discriminate].
  eapply List.Forall_impl; [|exact H].
  intros p [Hin|[Hsz|Hsh]]; [left|right; left; exact Hsz|right; right; exact Hsh].
  destruct (lockID l) as [own|].
  - apply elem_of_singleton in Hin. congruence.
  - apply elem_of_empty in Hin. contradiction.
Qed.

End Granted.

(** X17.  What a granted lock proves, when nobody else writes: every object
    the store held when [NewLock] was called was empty or, for a
    non-exclusive request, a non-exclusive lock; undecodable objects and
    conflicting locks never let [NewLock] succeed.  The lock returned has
    the request's mode and names its file, which holds its descriptor and is
    in the store when [NewLock] returns. *)
Theorem NewLock_granted_only_if_compatible (ctx : Ctx) (exclusive : bool) (env : Env)
    (w : World) (lock : Lock) :
  alone env ->
  (NewLock ctx exclusive env w).1 = Ok lock ->
  Forall (compatible exclusive (files w)) (files w) /\
  Exclusive lock = exclusive /\
  lockID lock = Some (idOf env (descriptor lock)) /\
  lookup_file (idOf env (descriptor lock)) (files (NewLock ctx exclusive env w).2)
  = Some (lock_object env lock).
Proof.
  intros Halone.
  destruct (filled_descriptor_fields exclusive env w) as (Hx & Hnone & _).
  unfold filled_descriptor in Hx, Hnone.
  rewrite NewLock_unfold. cbn zeta.
  destruct (fillUserInfo _ env w).1 as [lock0 [e0|]]; cbn [fst snd] in *;
    [discriminate|].
  unfold two_phase, precheck, publish, postcheck, bind, ret. cbn [fst snd].
  pose proof (checkForOtherLocks_none_harmless lock0 ctx env Halone w) as Hpre.
  destruct (checkForOtherLocks lock0 ctx env w) as [[e1|] w1]; cbn [fst snd] in *;
    [discriminate|].
  unfold createLock. rewrite SaveJSONUnpacked_run.
  destruct (backend_call ctx _ env w1).1 as [e2|]; cbn [fst snd]; [discriminate|].
  rewrite settle_alone by exact Halone. cbn [fst snd files clock trace].
  set (id := idOf env (descriptor lock0)).
  set (w3 := mkWorld _ _ _).
  pose proof (checkForOtherLocks_files (set_lockID (Some id) lock0) ctx env Halone w3)
    as Hf4.
  destruct (checkForOtherLocks (set_lockID (Some id) lock0) ctx env w3) as [[e4|] w4];
    cbn [fst snd] in *; [discriminate|].
  intros [= <-]. cbn [Exclusive set_lockID lockID].
  split; [|split; [exact Hx|split; [reflexivity|]]].
  - specialize (Hpre eq_refl). eapply List.Forall_impl; [|exact Hpre].
    intros p [Hown|[Hsz|(o & other & Hlook & Hbody & Hl & Hother)]].
    + congruence.
    + left. exact Hsz.
    + right. exists o, other. repeat split; congruence.
  - rewrite Hf4. subst w3. cbn [files]. apply lookup_file_saved.
Qed.

Lemma NewLock_granted_only_if_compatible_witness :
  Forall (compatible false [(1%N, Sample.placeholder); (2%N, Sample.obj_of Sample.reader)])
         [(1%N, Sample.placeholder); (2%N, Sample.obj_of Sample.reader)].
Proof.
  exact (proj1 (NewLock_granted_only_if_compatible background false Sample.env
                  (Sample.world_of [(1%N, Sample.placeholder);
                                    (2%N, Sample.obj_of Sample.reader)])
                  (set_lockID (Some 78251088364275917955072%N)
                     (filled_descriptor false Sample.env
                        (Sample.world_of [(1%N, Sample.placeholder);
                                          (2%N, Sample.obj_of Sample.reader)])))
                  (fun _ _ _ => eq_refl)
                  ltac:(vm_compute; reflexivity))).
Defined.
